(** * hash_utils: hashing, HMAC and digest comparison

    A shallow embedding of [hash_utils.py].  The module is a thin layer over
    Python's [hashlib], [hmac] and [io] modules, so the development has two
    layers:

    - the part of the Python runtime that the functions call: [str] and
      [bytes] values, exceptions, the UTF-8 codec, the hash objects of
      [hashlib] (the four algorithms of [DEFAULT_ALGOS] are defined from their
      standards, FIPS 180-4 and RFC 7693), [hmac.new], [hmac.compare_digest]
      and the in-memory streams of [io];
    - the functions of [hash_utils.py] themselves, written statement by
      statement over that runtime.

    What depends on the running interpreter (the provider's list of available
    algorithms, the algorithms it knows besides the four above, its other
    codecs, its Unicode tables) is gathered in a record [Runtime] that every
    function takes as an argument. *)

From Stdlib Require Import ZArith NArith Bool Lia String Ascii List.
From Stdlib Require Import Init.Byte.
Import ListNotations.

Local Open Scope Z_scope.

(* ================================================================== *)
(** ** Python values: bytes, str, exceptions, results                  *)
(* ================================================================== *)

(** [bytes]: an immutable sequence of octets. *)
Abbreviation bytes := (list byte) (only parsing).

(** [str]: an immutable sequence of Unicode code points. *)
Abbreviation codepoint := N (only parsing).
Abbreviation pystr := (list N) (only parsing).

(** A literal: the code points of an ASCII (Latin-1) string constant. *)
Definition str (s : string) : pystr := map N_of_ascii (list_ascii_of_string s).

(** The octets of an ASCII constant. *)
Definition ascii_bytes (s : string) : bytes :=
  map byte_of_ascii (list_ascii_of_string s).

Fixpoint str_eqb (a b : pystr) : bool :=
  match a, b with
  | [], [] => true
  | x :: a', y :: b' => N.eqb x y && str_eqb a' b'
  | _, _ => false
  end.

(** [s in names] for a collection of names. *)
Definition str_in (s : pystr) (names : list pystr) : bool :=
  existsb (str_eqb s) names.

Definition byte_of_Z (z : Z) : byte :=
  match Byte.of_N (Z.to_N (z mod 256)) with
  | Some b => b
  | None => x00
  end.

Definition Z_of_byte (b : byte) : Z := Z.of_N (Byte.to_N b).

Definition byte_of_N (n : N) : byte := byte_of_Z (Z.of_N n).

(** [len(x)] as a Python integer. *)
Definition len {A} (l : list A) : Z := Z.of_nat (List.length l).

(** The exceptions that occur in this module.  [ValueError] carries its
    message; [UnicodeEncodeError] is the error of the codecs (a subclass of
    [ValueError] in Python, kept apart here); the two classes outside
    [Exception] are the ones an [except Exception] clause lets through. *)
Inductive exn : Type :=
| ValueError (msg : pystr)
| UnicodeEncodeError
| LookupError
| TypeError
| AttributeError
| OtherException (name : pystr)
| KeyboardInterrupt
| SystemExit.

(** [isinstance(e, Exception)]. *)
Definition is_Exception (e : exn) : bool :=
  match e with
  | KeyboardInterrupt | SystemExit => false
  | _ => true
  end.

(** The outcome of evaluating an expression: a value or a raised exception. *)
Inductive result (A : Type) : Type :=
| Ok (a : A)
| Raise (e : exn).
Arguments Ok {A} a.
Arguments Raise {A} e.

Definition bind {A B} (r : result A) (k : A -> result B) : result B :=
  match r with
  | Ok a => k a
  | Raise e => Raise e
  end.

Notation "x <- r ;; k" := (bind r (fun x => k))
  (at level 61, r at next level, right associativity).

(* ================================================================== *)
(** ** Words and blocks                                                *)
(* ================================================================== *)

(** Big-endian and little-endian serialisation of a word on [n] octets. *)
Fixpoint be_bytes (n : nat) (w : Z) : bytes :=
  match n with
  | O => []
  | S k => byte_of_Z (Z.shiftr w (8 * Z.of_nat k)) :: be_bytes k w
  end.

Fixpoint le_bytes (n : nat) (w : Z) : bytes :=
  match n with
  | O => []
  | S k => byte_of_Z w :: le_bytes k (Z.shiftr w 8)
  end.

Definition be_word (bs : bytes) : Z :=
  fold_left (fun acc b => acc * 256 + Z_of_byte b) bs 0.

Definition le_word (bs : bytes) : Z :=
  fold_right (fun b acc => Z_of_byte b + 256 * acc) 0 bs.

(** A sequence cut into consecutive pieces of [n] items (the last one may be
    shorter). *)
Fixpoint blocks_aux {A} (fuel n : nat) (l : list A) : list (list A) :=
  match fuel with
  | O => []
  | S f =>
      match l with
      | [] => []
      | _ => firstn n l :: blocks_aux f n (skipn n l)
      end
  end.

Definition blocks {A} (n : nat) (l : list A) : list (list A) :=
  blocks_aux (List.length l) n l.

(** The constants of the SHA family are the leading fractional bits of square
    and cube roots of the first primes. *)
Definition is_prime (n : Z) : bool :=
  forallb (fun d => negb (n mod d =? 0))
          (map Z.of_nat (seq 2 (Z.to_nat n - 2))).

Definition primes : list Z :=
  Eval vm_compute in firstn 80 (filter is_prime (map Z.of_nat (seq 2 420))).

(** Integer cube root, one bit at a time from bit [bits - 1] down. *)
Fixpoint icbrt_aux (bits : nat) (n r : Z) : Z :=
  match bits with
  | O => r
  | S b =>
      let r' := r + Z.shiftl 1 (Z.of_nat b) in
      icbrt_aux b n (if r' * r' * r' <=? n then r' else r)
  end.

Definition icbrt (bits : nat) (n : Z) : Z := icbrt_aux bits n 0.

(** Merkle-Damgard strengthening with a big-endian bit length on
    [lenbytes] octets and blocks of [block] octets. *)
Definition md_pad (block lenbytes : nat) (msg : bytes) : bytes :=
  let l := len msg in
  let k := Z.to_nat ((- (l + 1 + Z.of_nat lenbytes)) mod Z.of_nat block) in
  msg ++ [x80] ++ repeat x00 k ++ be_bytes lenbytes (8 * l).

(* ================================================================== *)
(** ** SHA-1 (FIPS 180-4, section 6.1)                                 *)
(* ================================================================== *)

Module SHA1.

Definition wrap (x : Z) : Z := x mod 2 ^ 32.
Definition add (x y : Z) : Z := wrap (x + y).
Definition rotl (n x : Z) : Z :=
  Z.lor (wrap (Z.shiftl x n)) (Z.shiftr x (32 - n)).
Definition lnot (x : Z) : Z := Z.lxor x (2 ^ 32 - 1).

Definition Ch x y z := Z.lxor (Z.land x y) (Z.land (lnot x) z).
Definition Parity x y z := Z.lxor (Z.lxor x y) z.
Definition Maj x y z :=
  Z.lxor (Z.lxor (Z.land x y) (Z.land x z)) (Z.land y z).

(** The function and the constant of round [t]; the four constants are
    the integer parts of [2^30 * sqrt n] for [n] = 2, 3, 5, 10. *)
Definition f (t : nat) : Z -> Z -> Z -> Z :=
  if (t <? 20)%nat then Ch
  else if (t <? 40)%nat then Parity
  else if (t <? 60)%nat then Maj
  else Parity.

Definition Kt (t : nat) : Z :=
  Z.sqrt ((if (t <? 20)%nat then 2
           else if (t <? 40)%nat then 3
           else if (t <? 60)%nat then 5
           else 10) * 2 ^ 60).

Definition state : Type := Z * Z * Z * Z * Z.

Definition IV : state :=
  (0x67452301, 0xefcdab89, 0x98badcfe, 0x10325476, 0xc3d2e1f0).

Definition round (st : state) (t : nat) (w : Z) : state :=
  let '(a, b, c, d, e) := st in
  let T := add (add (add (add (rotl 5 a) (f t b c d)) e) (Kt t)) w in
  (T, a, rotl 30 b, c, d).

(** [W_t = ROTL^1 (W_(t-3) xor W_(t-8) xor W_(t-14) xor W_(t-16))], kept as
    a window of the last 16 words. *)
Definition schedule_step (ws : list Z) : list Z :=
  tl ws ++ [rotl 1 (Z.lxor (Z.lxor (nth 13 ws 0) (nth 8 ws 0))
                           (Z.lxor (nth 2 ws 0) (nth 0 ws 0)))].

Fixpoint rounds (ts : list nat) (ws : list Z) (st : state) : state :=
  match ts with
  | [] => st
  | t :: ts' => rounds ts' (schedule_step ws) (round st t (hd 0 ws))
  end.

Definition compress (H : state) (block : bytes) : state :=
  let '(h0, h1, h2, h3, h4) := H in
  let '(a, b, c, d, e) :=
    rounds (seq 0 80) (map be_word (blocks 4 block)) H in
  (add h0 a, add h1 b, add h2 c, add h3 d, add h4 e).

Definition digest (msg : bytes) : bytes :=
  let '(h0, h1, h2, h3, h4) :=
    fold_left compress (blocks 64 (md_pad 64 8 msg)) IV in
  concat (map (be_bytes 4) [h0; h1; h2; h3; h4]).

Definition block_size : Z := 64.
Definition digest_size : Z := 20.

End SHA1.

(* ================================================================== *)
(** ** SHA-256 and SHA-512 (FIPS 180-4, sections 6.2 and 6.4)          *)
(* ================================================================== *)

(** The two functions differ in the word size, the rotation amounts, the
    number of rounds and the constants. *)
Module SHA2.
Section Core.

(** Word size in bits. *)
Variable w : Z.
(** Rotation amounts of the two "big sigma" functions, and of the two
    "small sigma" functions (whose third component is a shift). *)
Variables B0 B1 S0 S1 : Z * Z * Z.
(** Round constants. *)
Variable K : list Z.

Definition wrap (x : Z) : Z := x mod 2 ^ w.
Definition add (x y : Z) : Z := wrap (x + y).
Definition rotr (n x : Z) : Z :=
  Z.lor (Z.shiftr x n) (wrap (Z.shiftl x (w - n))).
Definition lnot (x : Z) : Z := Z.lxor x (2 ^ w - 1).

Definition Ch x y z := Z.lxor (Z.land x y) (Z.land (lnot x) z).
Definition Maj x y z :=
  Z.lxor (Z.lxor (Z.land x y) (Z.land x z)) (Z.land y z).

Definition bsig (r : Z * Z * Z) (x : Z) : Z :=
  let '(r1, r2, r3) := r in
  Z.lxor (Z.lxor (rotr r1 x) (rotr r2 x)) (rotr r3 x).

Definition ssig (r : Z * Z * Z) (x : Z) : Z :=
  let '(r1, r2, s) := r in
  Z.lxor (Z.lxor (rotr r1 x) (rotr r2 x)) (Z.shiftr x s).

Definition state : Type := Z * Z * Z * Z * Z * Z * Z * Z.

Definition round (st : state) (k wt : Z) : state :=
  let '(a, b, c, d, e, f, g, h) := st in
  let t1 := add (add (add (add h (bsig B1 e)) (Ch e f g)) k) wt in
  let t2 := add (bsig B0 a) (Maj a b c) in
  (add t1 t2, a, b, c, add d t1, e, f, g).

(** The message schedule is kept as a window of the last 16 words:
    [W_t = ssig1 W_(t-2) + W_(t-7) + ssig0 W_(t-15) + W_(t-16)]. *)
Definition schedule_step (ws : list Z) : list Z :=
  tl ws ++ [add (add (ssig S1 (nth 14 ws 0)) (nth 9 ws 0))
                (add (ssig S0 (nth 1 ws 0)) (nth 0 ws 0))].

Fixpoint rounds (ks ws : list Z) (st : state) : state :=
  match ks with
  | [] => st
  | k :: ks' => rounds ks' (schedule_step ws) (round st k (hd 0 ws))
  end.

Definition word_bytes : nat := Z.to_nat (w / 8).

Definition compress (H : state) (block : bytes) : state :=
  let '(h0, h1, h2, h3, h4, h5, h6, h7) := H in
  let '(a, b, c, d, e, f, g, h) :=
    rounds K (map be_word (blocks word_bytes block)) H in
  (add h0 a, add h1 b, add h2 c, add h3 d,
   add h4 e, add h5 f, add h6 g, add h7 h).

Definition digest (IV : state) (msg : bytes) : bytes :=
  let '(h0, h1, h2, h3, h4, h5, h6, h7) :=
    fold_left compress
      (blocks (16 * word_bytes) (md_pad (16 * word_bytes) (2 * word_bytes) msg))
      IV in
  concat (map (be_bytes word_bytes) [h0; h1; h2; h3; h4; h5; h6; h7]).

End Core.
End SHA2.

Module SHA256.

(** First 32 bits of the fractional parts of the cube roots of the first
    64 primes. *)
Definition K : list Z :=
  Eval vm_compute in
    map (fun p => icbrt 36 (p * 2 ^ 96) mod 2 ^ 32) (firstn 64 primes).

(** First 32 bits of the fractional parts of the square roots of the
    first 8 primes. *)
Definition iv_word (i : nat) : Z :=
  Z.sqrt (nth i primes 0 * 2 ^ 64) mod 2 ^ 32.

Definition IV : SHA2.state :=
  Eval vm_compute in
    (iv_word 0, iv_word 1, iv_word 2, iv_word 3,
     iv_word 4, iv_word 5, iv_word 6, iv_word 7).

Definition digest : bytes -> bytes :=
  SHA2.digest 32 (2, 13, 22) (6, 11, 25) (7, 18, 3) (17, 19, 10) K IV.

Definition block_size : Z := 64.
Definition digest_size : Z := 32.

End SHA256.

Module SHA512.

(** First 64 bits of the fractional parts of the cube roots of the first
    80 primes. *)
Definition K : list Z :=
  Eval vm_compute in
    map (fun p => icbrt 68 (p * 2 ^ 192) mod 2 ^ 64) primes.

(** First 64 bits of the fractional parts of the square roots of the
    first 8 primes. *)
Definition iv_word (i : nat) : Z :=
  Z.sqrt (nth i primes 0 * 2 ^ 128) mod 2 ^ 64.

Definition IV : SHA2.state :=
  Eval vm_compute in
    (iv_word 0, iv_word 1, iv_word 2, iv_word 3,
     iv_word 4, iv_word 5, iv_word 6, iv_word 7).

Definition digest : bytes -> bytes :=
  SHA2.digest 64 (28, 34, 39) (14, 18, 41) (1, 8, 7) (19, 61, 6) K IV.

Definition block_size : Z := 128.
Definition digest_size : Z := 64.

End SHA512.

(* ================================================================== *)
(** ** BLAKE2b (RFC 7693), unkeyed, 64-octet output                    *)
(* ================================================================== *)

Module BLAKE2b.

Definition wrap (x : Z) : Z := x mod 2 ^ 64.
Definition add (x y : Z) : Z := wrap (x + y).
Definition rotr (n x : Z) : Z :=
  Z.lor (Z.shiftr x n) (wrap (Z.shiftl x (64 - n))).

(** [v[i] = x]. *)
Fixpoint set (i : nat) (x : Z) (v : list Z) : list Z :=
  match v, i with
  | [], _ => []
  | _ :: v', O => x :: v'
  | y :: v', S j => y :: set j x v'
  end.

Definition get (v : list Z) (i : nat) : Z := nth i v 0.

(** The mixing function G (section 3.1). *)
Definition G (v : list Z) (a b c d : nat) (x y : Z) : list Z :=
  let va := add (add (get v a) (get v b)) x in
  let vd := rotr 32 (Z.lxor (get v d) va) in
  let vc := add (get v c) vd in
  let vb := rotr 24 (Z.lxor (get v b) vc) in
  let va := add (add va vb) y in
  let vd := rotr 16 (Z.lxor vd va) in
  let vc := add vc vd in
  let vb := rotr 63 (Z.lxor vb vc) in
  set d vd (set c vc (set b vb (set a va v))).

(** Message word schedule (section 2.7). *)
Definition SIGMA : list (list nat) :=
  [ [0; 1; 2; 3; 4; 5; 6; 7; 8; 9; 10; 11; 12; 13; 14; 15];
    [14; 10; 4; 8; 9; 15; 13; 6; 1; 12; 0; 2; 11; 7; 5; 3];
    [11; 8; 12; 0; 5; 2; 15; 13; 10; 14; 3; 6; 7; 1; 9; 4];
    [7; 9; 3; 1; 13; 12; 11; 14; 2; 6; 5; 10; 4; 0; 15; 8];
    [9; 0; 5; 7; 2; 4; 10; 15; 14; 1; 11; 12; 6; 8; 3; 13];
    [2; 12; 6; 10; 0; 11; 8; 3; 4; 13; 7; 5; 15; 14; 1; 9];
    [12; 5; 1; 15; 14; 13; 4; 10; 0; 7; 6; 3; 9; 2; 8; 11];
    [13; 11; 7; 14; 12; 1; 3; 9; 5; 0; 15; 4; 8; 6; 2; 10];
    [6; 15; 14; 9; 11; 3; 0; 8; 12; 2; 13; 7; 1; 4; 10; 5];
    [10; 2; 8; 4; 7; 6; 1; 5; 15; 11; 9; 14; 3; 12; 13; 0] ]%nat.

(** The initial value is the one of SHA-512. *)
Definition IV : list Z :=
  Eval vm_compute in map SHA512.iv_word (seq 0 8).

Definition mix_round (m : list Z) (v : list Z) (r : nat) : list Z :=
  let s := nth (r mod 10) SIGMA [] in
  let mw (i : nat) := get m (nth i s O) in
  let v := G v 0 4 8 12 (mw 0%nat) (mw 1%nat) in
  let v := G v 1 5 9 13 (mw 2%nat) (mw 3%nat) in
  let v := G v 2 6 10 14 (mw 4%nat) (mw 5%nat) in
  let v := G v 3 7 11 15 (mw 6%nat) (mw 7%nat) in
  let v := G v 0 5 10 15 (mw 8%nat) (mw 9%nat) in
  let v := G v 1 6 11 12 (mw 10%nat) (mw 11%nat) in
  let v := G v 2 7 8 13 (mw 12%nat) (mw 13%nat) in
  G v 3 4 9 14 (mw 14%nat) (mw 15%nat).

(** The compression function F (section 3.2): [h] the state, [block] 128
    octets, [t] the offset counter, [last] the final block flag. *)
Definition F (h : list Z) (block : bytes) (t : Z) (last : bool) : list Z :=
  let m := map le_word (blocks 8 block) in
  let v := h ++ IV in
  let v := set 12 (Z.lxor (get v 12) (wrap t)) v in
  let v := set 13 (Z.lxor (get v 13) (Z.shiftr t 64)) v in
  let v := if last then set 14 (Z.lxor (get v 14) (2 ^ 64 - 1)) v else v in
  let v := fold_left (mix_round m) (seq 0 12) v in
  map (fun i => Z.lxor (Z.lxor (get h i) (get v i)) (get v (i + 8)))
      (seq 0 8).

Definition zero_pad (block : bytes) : bytes :=
  block ++ repeat x00 (128 - length block).

(** All blocks but the last are compressed with the running offset; the
    last one, padded with zeros, with the message length and the flag. *)
Fixpoint absorb (h : list Z) (t : Z) (bs : list bytes) : list Z :=
  match bs with
  | [] => F h (zero_pad []) t true
  | [b] => F h (zero_pad b) (t + len b) true
  | b :: rest => absorb (F h b (t + 128) false) (t + 128) rest
  end.

(** Parameter block for an unkeyed hash with [nn] octets of output:
    [h[0] = IV[0] xor 0x0101kknn] with [kk = 0]. *)
Definition init (nn : Z) : list Z :=
  set 0 (Z.lxor (get IV 0) (Z.lxor 0x01010000 nn)) IV.

Definition digest (msg : bytes) : bytes :=
  let h := absorb (init 64) 0 (blocks 128 msg) in
  concat (map (fun i => le_bytes 8 (get h i)) (seq 0 8)).

Definition block_size : Z := 128.
Definition digest_size : Z := 64.

End BLAKE2b.

(* ================================================================== *)
(** ** Hexadecimal rendering                                           *)
(* ================================================================== *)

(** The digits of [hexdigest()]: lower case. *)
Definition hexdigits : pystr := str "0123456789abcdef".

Definition hex_digit (n : Z) : codepoint := nth (Z.to_nat (n mod 16)) hexdigits 0%N.

Definition hex_of_byte (b : byte) : pystr :=
  [hex_digit (Z.shiftr (Z_of_byte b) 4); hex_digit (Z_of_byte b)].

Definition hexlify (bs : bytes) : pystr := flat_map hex_of_byte bs.

(* ================================================================== *)
(** ** Text: the UTF-8 codec, ASCII, lower case                        *)
(* ================================================================== *)

Local Open Scope N_scope.

(** One code point in UTF-8 with [errors='strict']: the surrogates
    U+D800..U+DFFF cannot be encoded. *)
Definition utf8_encode_cp (c : codepoint) : result bytes :=
  if c <? 0x80 then Ok [byte_of_N c]
  else if c <? 0x800 then
    Ok [byte_of_N (0xC0 + c / 64); byte_of_N (0x80 + c mod 64)]
  else if (0xD800 <=? c) && (c <=? 0xDFFF) then Raise UnicodeEncodeError
  else if c <? 0x10000 then
    Ok [byte_of_N (0xE0 + c / 4096); byte_of_N (0x80 + (c / 64) mod 64);
        byte_of_N (0x80 + c mod 64)]
  else
    Ok [byte_of_N (0xF0 + (c / 262144) mod 8);
        byte_of_N (0x80 + (c / 4096) mod 64);
        byte_of_N (0x80 + (c / 64) mod 64); byte_of_N (0x80 + c mod 64)].

Fixpoint utf8_encode (s : pystr) : result bytes :=
  match s with
  | [] => Ok []
  | c :: s' =>
      b <- utf8_encode_cp c ;;
      bs <- utf8_encode s' ;;
      Ok (b ++ bs)
  end.

Definition is_surrogate (c : codepoint) : bool :=
  (0xD800 <=? c) && (c <=? 0xDFFF).

(** [s.isascii()]. *)
Definition is_ascii (s : pystr) : bool := forallb (fun c => c <? 128) s.

Definition ascii_lower_cp (c : codepoint) : codepoint :=
  if (65 <=? c) && (c <=? 90) then c + 32 else c.

Local Close Scope N_scope.

(* ================================================================== *)
(** ** The running interpreter                                         *)
(* ================================================================== *)

(** A hash algorithm as [hashlib] exposes it.  [algo_digest] is [None] for
    an extendable-output function (the SHAKEs), whose [digest()] and
    [hexdigest()] demand a length argument. *)
Record Algo : Type := mkAlgo {
  algo_name : pystr;
  algo_block_size : Z;
  algo_digest_size : Z;
  algo_digest : option (bytes -> bytes)
}.

Record Runtime : Type := mkRuntime {
  (** [hashlib.algorithms_available]. *)
  algorithms_available : list pystr;
  (** The algorithms [hashlib.new] knows besides sha1, sha256, sha512 and
      blake2b, by the name it accepts them under. *)
  provider_new : pystr -> option Algo;
  (** [s.encode(encoding)] for an encoding other than ["utf-8"]. *)
  codec_encode : pystr -> pystr -> result bytes;
  (** [s.lower()] for a string with characters outside ASCII. *)
  unicode_lower : pystr -> pystr
}.

(** [s.lower()]. *)
Definition lower (rt : Runtime) (s : pystr) : pystr :=
  if is_ascii s then map ascii_lower_cp s else unicode_lower rt s.

(** [s.encode(encoding)]. *)
Definition encode (rt : Runtime) (s encoding : pystr) : result bytes :=
  if str_eqb encoding (str "utf-8") then utf8_encode s
  else codec_encode rt encoding s.

(* ================================================================== *)
(** ** hashlib                                                         *)
(* ================================================================== *)

(** [hashlib.algorithms_guaranteed] (the same set since Python 3.6). *)
Definition algorithms_guaranteed : list pystr :=
  map str ["blake2b"; "blake2s"; "md5"; "sha1"; "sha224"; "sha256"; "sha384";
           "sha3_224"; "sha3_256"; "sha3_384"; "sha3_512"; "sha512";
           "shake_128"; "shake_256"]%string.

Definition sha1_algo : Algo :=
  mkAlgo (str "sha1") SHA1.block_size SHA1.digest_size (Some SHA1.digest).
Definition sha256_algo : Algo :=
  mkAlgo (str "sha256") SHA256.block_size SHA256.digest_size
         (Some SHA256.digest).
Definition sha512_algo : Algo :=
  mkAlgo (str "sha512") SHA512.block_size SHA512.digest_size
         (Some SHA512.digest).
Definition blake2b_algo : Algo :=
  mkAlgo (str "blake2b") BLAKE2b.block_size BLAKE2b.digest_size
         (Some BLAKE2b.digest).

(** A hash object.  Its documented behaviour is that of the message fed so
    far: "repeated calls [of update] are equivalent to a single call with the
    concatenation of all the arguments", and [digest()] is "the digest of the
    data passed to the update() method so far". *)
Record HashObj : Type := mkHash {
  h_algo : Algo;
  h_data : bytes
}.

(** [h.update(data)]. *)
Definition update (h : HashObj) (data : bytes) : HashObj :=
  mkHash (h_algo h) (h_data h ++ data).

(** [h.digest()]. *)
Definition digest (h : HashObj) : result bytes :=
  match algo_digest (h_algo h) with
  | Some f => Ok (f (h_data h))
  | None => Raise TypeError
  end.

(** [h.hexdigest()]. *)
Definition hexdigest (h : HashObj) : result pystr :=
  d <- digest h ;; Ok (hexlify d).

(** The four algorithms of [DEFAULT_ALGOS], which every interpreter has. *)
Definition builtin_algo (name : pystr) : option Algo :=
  if str_eqb name (str "sha256") then Some sha256_algo
  else if str_eqb name (str "sha1") then Some sha1_algo
  else if str_eqb name (str "sha512") then Some sha512_algo
  else if str_eqb name (str "blake2b") then Some blake2b_algo
  else None.

(** [hashlib.new(name, data)]. *)
Definition hashlib_new (rt : Runtime) (name : pystr) (data : bytes)
  : result HashObj :=
  match builtin_algo name with
  | Some a => Ok (mkHash a data)
  | None =>
      match provider_new rt name with
      | Some a => Ok (mkHash a data)
      | None => Raise (ValueError (str "unsupported hash type " ++ name))
      end
  end.

(** [hashlib.blake2b(data)]. *)
Definition hashlib_blake2b (data : bytes) : result HashObj :=
  Ok (mkHash blake2b_algo data).

(* ================================================================== *)
(** ** hmac                                                            *)
(* ================================================================== *)

(** What a caller may pass as [digestmod]: a name for [hashlib.new], a
    constructor, or any other object, here a hash object. *)
Inductive digestmod_arg : Type :=
| DigestName (name : pystr)
| DigestCons (cons : bytes -> result HashObj)
| DigestObj (h : HashObj).

(** [not digestmod]: the empty name is false, every other value is true. *)
Definition digestmod_falsy (d : digestmod_arg) : bool :=
  match d with
  | DigestName [] => true
  | _ => false
  end.

Record HMAC : Type := mkHMAC {
  hm_inner : HashObj;
  hm_outer : HashObj
}.

(** [key.translate(trans)] with [trans = bytes(x ^ c for x in range(256))]. *)
Definition translate_xor (c : Z) (key : bytes) : bytes :=
  map (fun b => byte_of_Z (Z.lxor (Z_of_byte b) c)) key.

(** [key.ljust(n, b'\0')]. *)
Definition ljust (key : bytes) (n : Z) : bytes :=
  key ++ repeat x00 (Z.to_nat (n - len key)).

(** [hmac.new(key, msg, digestmod)], after [HMAC.__init__] and
    [HMAC._init_old] of [Lib/hmac.py].  For an object that is neither
    callable nor a name the constructor is
    [lambda d=b'': digestmod.new(d)]; a hash object has no attribute [new],
    so its first call raises [AttributeError]. *)
Definition hmac_new (rt : Runtime) (key msg : bytes) (digestmod : digestmod_arg)
  : result HMAC :=
  if digestmod_falsy digestmod then Raise TypeError
  else
    let digest_cons : bytes -> result HashObj :=
      match digestmod with
      | DigestCons c => c
      | DigestName name => hashlib_new rt name
      | DigestObj _ => fun _ => Raise AttributeError
      end in
    outer <- digest_cons [] ;;
    inner <- digest_cons [] ;;
    let blocksize :=
      if algo_block_size (h_algo inner) <? 16 then 64
      else algo_block_size (h_algo inner) in
    key <- (if len key >? blocksize
            then (k <- digest_cons key ;; digest k)
            else Ok key) ;;
    let key := ljust key blocksize in
    let outer := update outer (translate_xor 0x5C key) in
    let inner := update inner (translate_xor 0x36 key) in
    let inner := update inner msg in
    Ok (mkHMAC inner outer).

(** [HMAC.hexdigest()]: the outer hash fed with the inner digest. *)
Definition hmac_hexdigest (m : HMAC) : result pystr :=
  d <- digest (hm_inner m) ;;
  hexdigest (update (hm_outer m) d).

(** [_tscmp] of CPython, the loop under [hmac.compare_digest]: the loop
    runs over the length of [b], against [a] when the lengths agree and
    against [b] itself, with the result preset to 1, when they do not. *)
Definition tscmp (a b : pystr) : bool :=
  let same := Nat.eqb (length a) (length b) in
  let left := if same then a else b in
  let result := if same then 0%N else 1%N in
  N.eqb (fold_left (fun r xy => N.lor r (N.lxor (fst xy) (snd xy)))
                   (combine left b) result) 0%N.

(** [hmac.compare_digest(a, b)] on two [str]: both must be ASCII only. *)
Definition compare_digest (a b : pystr) : result bool :=
  if is_ascii a && is_ascii b then Ok (tscmp a b) else Raise TypeError.

(* ================================================================== *)
(** ** File-like objects                                               *)
(* ================================================================== *)

(** What [read] may hand back: [bytes] from a binary stream, [str] from a
    text stream. *)
Inductive chunk : Type :=
| Bytes (b : bytes)
| Text (s : pystr).

(** An object with a [read(size)] method. *)
Class FileLike (F : Type) : Type := {
  read : F -> Z -> result chunk * F
}.

(** [io.BytesIO]: a buffer and a position. *)
Record BytesIO : Type := mkBytesIO {
  bio_buf : bytes;
  bio_pos : nat
}.

(** The sizes that fit the [Py_ssize_t] of a 64-bit interpreter: from
    [-sys.maxsize - 1] to [sys.maxsize]. *)
Definition PY_SSIZE_T_MAX : Z := Eval vm_compute in 2 ^ 63 - 1.
Definition PY_SSIZE_T_MIN : Z := Eval vm_compute in - 2 ^ 63.

Definition fits_ssize_t (n : Z) : bool :=
  (PY_SSIZE_T_MIN <=? n) && (n <=? PY_SSIZE_T_MAX).

(** What the conversion of an [int] that does not fit raises; it is an
    [ArithmeticError], hence an [Exception]. *)
Definition OverflowError : exn := OtherException (str "OverflowError").

(** [BytesIO.read(size)]: [OverflowError] for a size that does not fit
    [Py_ssize_t]; else everything left for a negative size, and at most
    [size] octets otherwise; the empty [bytes] at the end of the buffer. *)
Definition BytesIO_read (f : BytesIO) (size : Z) : result chunk * BytesIO :=
  if fits_ssize_t size then
    let rest := skipn (bio_pos f) (bio_buf f) in
    let n := if size <? 0 then length rest
             else Nat.min (Z.to_nat size) (length rest) in
    (Ok (Bytes (firstn n rest)), mkBytesIO (bio_buf f) (bio_pos f + n))
  else (Raise OverflowError, f).

#[export] Instance BytesIO_FileLike : FileLike BytesIO :=
  {| read := BytesIO_read |}.

(** [io.BytesIO(content)], positioned at its start. *)
Definition stream_of (content : bytes) : BytesIO := mkBytesIO content 0.

(** [io.StringIO]: the same over characters. *)
Record StringIO : Type := mkStringIO {
  sio_buf : pystr;
  sio_pos : nat
}.

Definition StringIO_read (f : StringIO) (size : Z) : result chunk * StringIO :=
  if fits_ssize_t size then
    let rest := skipn (sio_pos f) (sio_buf f) in
    let n := if size <? 0 then length rest
             else Nat.min (Z.to_nat size) (length rest) in
    (Ok (Text (firstn n rest)), mkStringIO (sio_buf f) (sio_pos f + n))
  else (Raise OverflowError, f).

#[export] Instance StringIO_FileLike : FileLike StringIO :=
  {| read := StringIO_read |}.

Definition text_stream_of (content : pystr) : StringIO := mkStringIO content 0.

(** [not chunk]. *)
Definition chunk_falsy (c : chunk) : bool :=
  match c with
  | Bytes [] | Text [] => true
  | _ => false
  end.

(** A progress callback: called with the running total, it acts on a state
    of its own (the user interface it updates) and returns or raises.  It
    has no handle on the stream being hashed. *)
Definition callback (W : Type) : Type := Z -> W -> result unit * W.

(* ================================================================== *)
(** ** hash_utils.py                                                   *)
(* ================================================================== *)

Definition DEFAULT_ALGOS : list pystr :=
  map str ["sha256"; "sha1"; "sha512"; "blake2b"]%string.

(** The message of the [ValueError] of [_get_hasher]. *)
Definition unsupported_msg (name : pystr) : pystr :=
  str "Algoritmo " ++ name ++ str " no soportado en este entorno.".

(** [_get_hasher(name)]: a constructor of hash objects, or [ValueError]. *)
Definition _get_hasher (rt : Runtime) (name : pystr)
  : result (unit -> result HashObj) :=
  let name := lower rt name in
  if negb (str_in name (algorithms_available rt))
     && negb (str_in name algorithms_guaranteed)
  then
    if str_eqb name (str "blake2b")
       && str_in (str "blake2b") (algorithms_available rt)
    then Ok (fun _ => hashlib_blake2b [])
    else Raise (ValueError (unsupported_msg name))
  else Ok (fun _ => hashlib_new rt name []).

(** [hash_text(text, algorithm, encoding)]; the defaults of the last two
    are ['sha256'] and ['utf-8']. *)
Definition hash_text (rt : Runtime) (text algorithm encoding : pystr)
  : result pystr :=
  ctor <- _get_hasher rt algorithm ;;
  h <- ctor tt ;;
  data <- encode rt text encoding ;;
  let h := update h data in
  hexdigest h.

(** The variables of the loop of [hash_file_chunked], with a record of
    what happened so far: the chunks [read] returned, the chunks passed to
    [h.update], and the arguments the callback was called with. *)
Record frame (F W : Type) : Type := mkFrame {
  fr_file : F;
  fr_h : HashObj;
  fr_total : Z;
  fr_world : W;
  fr_reads : list chunk;
  fr_fed : list bytes;
  fr_calls : list Z
}.
Arguments mkFrame {F W}.
Arguments fr_file {F W}.
Arguments fr_h {F W}.
Arguments fr_total {F W}.
Arguments fr_world {F W}.
Arguments fr_reads {F W}.
Arguments fr_fed {F W}.
Arguments fr_calls {F W}.

(** How the loop was left: by [break], by an exception, or not yet. *)
Inductive status : Type :=
| Broke
| Raised (e : exn)
| Running.

(** The [while True] loop, for at most [fuel] iterations. *)
Fixpoint read_loop {F W : Type} `{FileLike F} (fuel : nat) (chunk_size : Z)
  (progress_callback : option (callback W)) (fr : frame F W)
  : status * frame F W :=
  match fuel with
  | O => (Running, fr)
  | S fuel' =>
      let '(r, file) := read (fr_file fr) chunk_size in
      match r with
      | Raise e =>
          (Raised e,
           mkFrame file (fr_h fr) (fr_total fr) (fr_world fr)
                   (fr_reads fr) (fr_fed fr) (fr_calls fr))
      | Ok chunk =>
          let reads := fr_reads fr ++ [chunk] in
          if chunk_falsy chunk then
            (Broke,
             mkFrame file (fr_h fr) (fr_total fr) (fr_world fr)
                     reads (fr_fed fr) (fr_calls fr))
          else
            match (match chunk with
                   | Text s => utf8_encode s
                   | Bytes b => Ok b
                   end) with
            | Raise e =>
                (Raised e,
                 mkFrame file (fr_h fr) (fr_total fr) (fr_world fr)
                         reads (fr_fed fr) (fr_calls fr))
            | Ok data =>
                let h := update (fr_h fr) data in
                let total := fr_total fr + len data in
                let fed := fr_fed fr ++ [data] in
                match progress_callback with
                | None =>
                    read_loop fuel' chunk_size progress_callback
                      (mkFrame file h total (fr_world fr)
                               reads fed (fr_calls fr))
                | Some cb =>
                    let '(out, world) := cb total (fr_world fr) in
                    let fr' := mkFrame file h total world
                                       reads fed (fr_calls fr ++ [total]) in
                    match out with
                    | Ok _ => read_loop fuel' chunk_size progress_callback fr'
                    | Raise e =>
                        if is_Exception e
                        then read_loop fuel' chunk_size progress_callback fr'
                        else (Raised e, fr')
                    end
                end
            end
      end
  end.

(** What a call of [hash_file_chunked] leaves behind: the value returned
    or the exception raised ([None] when the loop is still running after
    [fuel] iterations), the stream, the callback's state, and the record
    kept by the loop. *)
Record run (F W : Type) : Type := mkRun {
  r_out : option (result pystr);
  r_file : F;
  r_world : W;
  r_reads : list chunk;
  r_fed : list bytes;
  r_calls : list Z
}.
Arguments mkRun {F W}.
Arguments r_out {F W}.
Arguments r_file {F W}.
Arguments r_world {F W}.
Arguments r_reads {F W}.
Arguments r_fed {F W}.
Arguments r_calls {F W}.

(** [hash_file_chunked(file_obj, algorithm, chunk_size, progress_callback)];
    the defaults are ['sha256'], [8192] and [None]. *)
Definition hash_file_chunked {F W : Type} `{FileLike F} (rt : Runtime)
  (fuel : nat) (file_obj : F) (algorithm : pystr) (chunk_size : Z)
  (progress_callback : option (callback W)) (world : W) : run F W :=
  match (ctor <- _get_hasher rt algorithm ;; ctor tt) with
  | Raise e => mkRun (Some (Raise e)) file_obj world [] [] []
  | Ok h =>
      let '(st, fr) :=
        read_loop fuel chunk_size progress_callback
                  (mkFrame file_obj h 0 world [] [] []) in
      mkRun (match st with
             | Broke => Some (hexdigest (fr_h fr))
             | Raised e => Some (Raise e)
             | Running => None
             end)
            (fr_file fr) (fr_world fr) (fr_reads fr) (fr_fed fr) (fr_calls fr)
  end.

(** [apply_salt(text, salt_b64)]. *)
Definition apply_salt (text salt_b64 : pystr) : pystr :=
  salt_b64 ++ str "$" ++ text.

(** [apply_pepper(text, pepper)]. *)
Definition apply_pepper (text pepper : pystr) : pystr :=
  pepper ++ str "$" ++ text.

(** [hmac_text(text, key, algorithm, encoding)].  The local [digestmod] is
    computed and never used; [hmac.new] receives [hashlib.new(algo)], a
    hash object.  The arguments of the call are evaluated from left to
    right. *)
Definition hmac_text (rt : Runtime) (text key algorithm encoding : pystr)
  : result pystr :=
  let algo := lower rt algorithm in
  let digestmod : option digestmod_arg :=
    if negb (str_in algo (algorithms_available rt))
       && negb (str_in algo algorithms_guaranteed)
    then
      if str_eqb algo (str "blake2b")
         && str_in (str "blake2b") (algorithms_available rt)
      then Some (DigestCons hashlib_blake2b)
      else None
    else Some (DigestCons (hashlib_new rt algo)) in
  k <- encode rt key encoding ;;
  m <- encode rt text encoding ;;
  o <- hashlib_new rt algo [] ;;
  h <- hmac_new rt k m (DigestObj o) ;;
  hmac_hexdigest h.

(** [compare_hashes(a, b)]. *)
Definition compare_hashes (a b : pystr) : result bool :=
  compare_digest a b.

(* ================================================================== *)
(** ** Reference definitions                                           *)
(* ================================================================== *)

(** HMAC as RFC 2104 states it, over a hash function [H] with blocks of
    [B] octets: [H((K xor opad) || H((K xor ipad) || text))], where a key
    longer than [B] is first replaced by its hash and [K] is the key padded
    with zeros to [B] octets. *)
Definition rfc2104_hmac (H : bytes -> bytes) (B : Z) (key text : bytes)
  : bytes :=
  let key := if len key >? B then H key else key in
  let K := ljust key B in
  H (translate_xor 0x5C K ++ H (translate_xor 0x36 K ++ text)).

(** [hmac_text] as the specification and the docstring describe it: the
    HMAC of the encoded text under the encoded key, with the named
    algorithm as hash function, rendered in hexadecimal; an algorithm that
    cannot be resolved is an error. *)
Definition spec_hmac_text (rt : Runtime) (text key algorithm encoding : pystr)
  : result pystr :=
  k <- encode rt key encoding ;;
  m <- encode rt text encoding ;;
  h <- hashlib_new rt (lower rt algorithm) [] ;;
  match algo_digest (h_algo h) with
  | Some H => Ok (hexlify (rfc2104_hmac H (algo_block_size (h_algo h)) k m))
  | None => Raise TypeError
  end.

(** The error of an unsupported algorithm: a plain [ValueError], raised by
    [_get_hasher] or by [hashlib.new]. *)
Definition is_unsupported_algorithm (r : result pystr) : bool :=
  match r with
  | Raise (ValueError _) => true
  | _ => false
  end.

(** The table of digest lengths of the specification, in hexadecimal
    characters: sha1 40, sha256 64, sha512 128, blake2b 128. *)
Definition hex_length (name : pystr) : nat :=
  if str_eqb name (str "sha1") then 40
  else if str_eqb name (str "sha256") then 64
  else if str_eqb name (str "sha512") then 128
  else if str_eqb name (str "blake2b") then 128
  else 0.

(** A string of lower-case hexadecimal digits. *)
Definition lowercase_hex (d : pystr) : Prop :=
  Forall (fun c => In c hexdigits) d.

(** A callback whose failures are errors, that is instances of
    [Exception], and not [KeyboardInterrupt] or [SystemExit]. *)
Definition raises_only_errors {W : Type} (cb : callback W) : Prop :=
  forall n w e w', cb n w = (Raise e, w') -> is_Exception e = true.

(** [bool(progress_callback)]: a function is true, [None] is false. *)
Definition has_callback {W : Type} (cb : option (callback W)) : bool :=
  match cb with
  | Some _ => true
  | None => false
  end.

(** The octets that the chunks returned by [read] contribute to the hash:
    nothing for an empty chunk, the chunk itself for [bytes], its UTF-8
    encoding for [str] (a text chunk that cannot be encoded ends the call
    and contributes nothing). *)
Definition feedable (reads : list chunk) : list bytes :=
  flat_map (fun c =>
              if chunk_falsy c then []
              else match c with
                   | Bytes b => [b]
                   | Text s => match utf8_encode s with
                               | Ok d => [d]
                               | Raise _ => []
                               end
                   end) reads.

(** [bool(chunk)]. *)
Definition chunk_truthy (c : chunk) : bool := negb (chunk_falsy c).

(** A chunk that can be passed to [h.update]: any [bytes], and a [str]
    that the UTF-8 codec accepts. *)
Definition chunk_encodable (c : chunk) : Prop :=
  match c with
  | Bytes _ => True
  | Text s => exists d, utf8_encode s = Ok d
  end.

(** The running totals [total + len c1], [total + len c1 + len c2], ... *)
Fixpoint running_totals (total : Z) (fed : list bytes) : list Z :=
  match fed with
  | [] => []
  | d :: fed' => (total + len d) :: running_totals (total + len d) fed'
  end.

(** Consecutive elements increase strictly. *)
Fixpoint strictly_increasing (l : list Z) : Prop :=
  match l with
  | x :: (y :: _) as l' => x < y /\ strictly_increasing l'
  | _ => True
  end.

(** Two frames of the loop that differ in the callback's state and log
    only. *)
Definition same_hashing {F W : Type} (a b : frame F W) : Prop :=
  fr_file a = fr_file b /\ fr_h a = fr_h b /\ fr_total a = fr_total b
  /\ fr_reads a = fr_reads b /\ fr_fed a = fr_fed b.

(** What the loop maintains, for a hash object created as [h0]: the chunks
    fed are the non-empty chunks read, [total] counts their octets, the
    hash object has received them in order, and the callback, when there
    is one, has been called with each running total. *)
Definition loop_inv {F W : Type} (h0 : HashObj) (with_callback : bool)
  (fr : frame F W) : Prop :=
  fr_fed fr = feedable (fr_reads fr)
  /\ Forall (fun d => d <> []) (fr_fed fr)
  /\ fr_total fr = len (concat (fr_fed fr))
  /\ fr_h fr = update h0 (concat (fr_fed fr))
  /\ fr_calls fr = if with_callback then running_totals 0 (fr_fed fr)
                   else [].

(** An interpreter with nothing but the guaranteed minimum: the provider
    lists the four algorithms of [DEFAULT_ALGOS] and knows no other, the
    only codecs are UTF-8 and ASCII, and lower-casing leaves the characters
    outside ASCII alone. *)
Definition small_runtime : Runtime :=
  mkRuntime DEFAULT_ALGOS
            (fun _ => None)
            (fun encoding s =>
               if str_eqb encoding (str "ascii")
               then if is_ascii s then Ok (map byte_of_N s)
                    else Raise UnicodeEncodeError
               else Raise LookupError)
            (map ascii_lower_cp).

(** An interpreter whose provider, like OpenSSL, also resolves SHA-256
    under the name ["sha-256"], which [hashlib.algorithms_available] does
    not list. *)
Definition alias_runtime : Runtime :=
  mkRuntime (algorithms_available small_runtime)
            (fun name =>
               if str_eqb name (str "sha-256") then Some sha256_algo else None)
            (codec_encode small_runtime)
            (unicode_lower small_runtime).

(** A callback that counts its calls and fails on every one of them. *)
Definition failing_callback : callback nat :=
  fun _ n => (Raise (OtherException (str "RuntimeError")), S n).

(** A callback interrupted by the user. *)
Definition interrupted_callback : callback nat :=
  fun _ n => (Raise KeyboardInterrupt, S n).

(* ================================================================== *)
(** ** Salts: os.urandom, base64, bytes.decode                         *)
(* ================================================================== *)

Definition N_of_byte (b : byte) : N := Byte.to_N b.

(** The operating system's source of randomness, as the octets it is going
    to deliver, in order. *)
Definition entropy : Type := nat -> byte.

(** [os.urandom(size)]: [OverflowError] for a size that does not fit
    [Py_ssize_t], [ValueError] for a negative size, else the next [size]
    octets of the source.  The memory of the machine is not part of the
    model: the octets asked for are delivered. *)
Definition os_urandom (size : Z) (e : entropy) : result bytes * entropy :=
  if negb (fits_ssize_t size) then (Raise OverflowError, e)
  else if size <? 0
  then (Raise (ValueError (str "negative argument not allowed")), e)
  else (Ok (map e (seq 0 (Z.to_nat size))),
        fun i => e (Z.to_nat size + i)%nat).

(** The alphabet of RFC 4648, section 4. *)
Definition b64_table : bytes :=
  ascii_bytes
    "ABCDEFGHIJKLMNOPQRSTUVWXYZabcdefghijklmnopqrstuvwxyz0123456789+/".

Definition b64_char (i : Z) : byte := nth (Z.to_nat i) b64_table "="%byte.

(** [base64.b64encode(s)]: each group of three octets is a number of 24
    bits written as four digits of 6 bits; a last group of one or two
    octets is completed with zero bits to 12 or 18 bits and the output
    with ["="]. *)
Fixpoint b64encode (s : bytes) : bytes :=
  match s with
  | [] => []
  | [a] =>
      let g := Z_of_byte a * 16 in
      [b64_char (g / 64); b64_char (g mod 64); "="%byte; "="%byte]
  | [a; b] =>
      let g := (Z_of_byte a * 256 + Z_of_byte b) * 4 in
      [b64_char (g / 4096); b64_char ((g / 64) mod 64); b64_char (g mod 64);
       "="%byte]
  | a :: b :: c :: rest =>
      let g := Z_of_byte a * 65536 + Z_of_byte b * 256 + Z_of_byte c in
      b64_char (g / 262144) :: b64_char ((g / 4096) mod 64)
        :: b64_char ((g / 64) mod 64) :: b64_char (g mod 64)
        :: b64encode rest
  end.

(** The value of a digit of the alphabet. *)
Definition b64_index (c : N) : option Z :=
  if ((65 <=? c) && (c <=? 90))%N then Some (Z.of_N c - 65)
  else if ((97 <=? c) && (c <=? 122))%N then Some (Z.of_N c - 71)
  else if ((48 <=? c) && (c <=? 57))%N then Some (Z.of_N c + 4)
  else if (c =? 43)%N then Some 62
  else if (c =? 47)%N then Some 63
  else None.

(** Decoding of RFC 4648 on a text in canonical form (groups of four
    characters, padding in the last group only); [None] for any other
    text.  This is what [base64.b64decode] returns on such a text. *)
Fixpoint b64decode (s : pystr) : option bytes :=
  match s with
  | [] => Some []
  | c0 :: c1 :: c2 :: c3 :: rest =>
      match b64_index c0, b64_index c1 with
      | Some i0, Some i1 =>
          if (c2 =? 61)%N then
            match rest with
            | [] => if (c3 =? 61)%N
                    then Some [byte_of_Z ((i0 * 64 + i1) / 16)]
                    else None
            | _ => None
            end
          else
            match b64_index c2 with
            | Some i2 =>
                if (c3 =? 61)%N then
                  match rest with
                  | [] =>
                      let g := (i0 * 4096 + i1 * 64 + i2) / 4 in
                      Some [byte_of_Z (g / 256); byte_of_Z (g mod 256)]
                  | _ => None
                  end
                else
                  match b64_index c3 with
                  | Some i3 =>
                      let g := i0 * 262144 + i1 * 4096 + i2 * 64 + i3 in
                      match b64decode rest with
                      | Some bs =>
                          Some (byte_of_Z (g / 65536)
                                  :: byte_of_Z ((g / 256) mod 256)
                                  :: byte_of_Z (g mod 256) :: bs)
                      | None => None
                      end
                  | None => None
                  end
            | None => None
            end
      | _, _ => None
      end
  | _ => None
  end.

(** The error of [bytes.decode]. *)
Definition UnicodeDecodeError : exn := OtherException (str "UnicodeDecodeError").

Definition is_continuation (x : N) : bool := ((0x80 <=? x) && (x <=? 0xBF))%N.

(** [b.decode('utf-8')] with [errors='strict']: the well-formed sequences
    of the Unicode standard (table 3-7), nothing else. *)
Fixpoint utf8_decode (bs : bytes) : result pystr :=
  match bs with
  | [] => Ok []
  | b0 :: r0 =>
      let x0 := N_of_byte b0 in
      if (x0 <? 0x80)%N then
        s <- utf8_decode r0 ;; Ok (x0 :: s)
      else if ((0xC2 <=? x0) && (x0 <=? 0xDF))%N then
        match r0 with
        | b1 :: r1 =>
            let x1 := N_of_byte b1 in
            if is_continuation x1 then
              s <- utf8_decode r1 ;;
              Ok (((x0 - 0xC0) * 64 + (x1 - 0x80))%N :: s)
            else Raise UnicodeDecodeError
        | _ => Raise UnicodeDecodeError
        end
      else if ((0xE0 <=? x0) && (x0 <=? 0xEF))%N then
        match r0 with
        | b1 :: b2 :: r2 =>
            let x1 := N_of_byte b1 in
            let x2 := N_of_byte b2 in
            if ((if (x0 =? 0xE0)%N then (0xA0 <=? x1)%N else (0x80 <=? x1)%N)
                && (if (x0 =? 0xED)%N then (x1 <=? 0x9F)%N else (x1 <=? 0xBF)%N)
                && is_continuation x2)
            then
              s <- utf8_decode r2 ;;
              Ok (((x0 - 0xE0) * 4096 + (x1 - 0x80) * 64 + (x2 - 0x80))%N :: s)
            else Raise UnicodeDecodeError
        | _ => Raise UnicodeDecodeError
        end
      else if ((0xF0 <=? x0) && (x0 <=? 0xF4))%N then
        match r0 with
        | b1 :: b2 :: b3 :: r3 =>
            let x1 := N_of_byte b1 in
            let x2 := N_of_byte b2 in
            let x3 := N_of_byte b3 in
            if ((if (x0 =? 0xF0)%N then (0x90 <=? x1)%N else (0x80 <=? x1)%N)
                && (if (x0 =? 0xF4)%N then (x1 <=? 0x8F)%N else (x1 <=? 0xBF)%N)
                && is_continuation x2 && is_continuation x3)
            then
              s <- utf8_decode r3 ;;
              Ok (((x0 - 0xF0) * 262144 + (x1 - 0x80) * 4096
                   + (x2 - 0x80) * 64 + (x3 - 0x80))%N :: s)
            else Raise UnicodeDecodeError
        | _ => Raise UnicodeDecodeError
        end
      else Raise UnicodeDecodeError
  end.

(** [generate_salt(n_bytes)]; the default of [n_bytes] is 16. *)
Definition generate_salt (n_bytes : Z) (e : entropy)
  : result pystr * entropy :=
  let '(r, e') := os_urandom n_bytes e in
  (raw <- r ;; utf8_decode (b64encode raw), e').

(** A text of base64 digits, with ["="] in the last two places at most. *)
Definition b64_digit (c : N) : bool :=
  match b64_index c with
  | Some _ => true
  | None => false
  end.

(** The character ["$"], which [apply_salt] and [apply_pepper] put between
    the two parts. *)
Definition dollar : N := 36%N.

(** A source of randomness for the examples: the octets 0, 1, 2, ... *)
Definition counting_entropy : entropy := fun i => byte_of_Z (Z.of_nat i).

(** [hash_text] past its encoding step: the digest of a sequence of octets
    fed in one [update] to a fresh hash object (lines 48 to 51 with the
    octets in place of [text.encode(encoding)]). *)
Definition hash_bytes (rt : Runtime) (data : bytes) (algorithm : pystr)
  : result pystr :=
  ctor <- _get_hasher rt algorithm ;;
  h <- ctor tt ;;
  let h := update h data in
  hexdigest h.

(** A stream that hands over prepared chunks, one per [read], whatever
    the size asked for, and empty [bytes] once they are used up: the
    behaviour of a pipe or a socket wrapper. *)
Definition prepared_read (chunks : list chunk) (size : Z)
  : result chunk * list chunk :=
  match chunks with
  | [] => (Ok (Bytes []), [])
  | c :: rest => (Ok c, rest)
  end.

#[export] Instance prepared_FileLike : FileLike (list chunk) :=
  {| read := prepared_read |}.

(** An interpreter whose provider knows SHAKE-128, an extendable-output
    function: its hash objects have a block size of 168, a digest size of
    0, and no [digest()] without a length. *)
Definition shake_runtime : Runtime :=
  mkRuntime (algorithms_available small_runtime ++ [str "shake_128"])
            (fun name =>
               if str_eqb name (str "shake_128")
               then Some (mkAlgo (str "shake_128") 168 0 None)
               else None)
            (codec_encode small_runtime)
            (unicode_lower small_runtime).

(* ================================================================== *)
(** ** app.py                                                          *)
(* ================================================================== *)

Definition MAX_FILE_MB : Z := 10.
Definition MAX_FILE_BYTES : Z := MAX_FILE_MB * 1024 * 1024.

(** The chunk size that the file tab passes to [hash_file_chunked]. *)
Definition UPLOAD_CHUNK : Z := 8192.

(** [c.isspace()]. *)
Definition isspace (c : N) : bool :=
  (((0x09 <=? c) && (c <=? 0x0D)) || ((0x1C <=? c) && (c <=? 0x20))
   || (c =? 0x85) || (c =? 0xA0) || (c =? 0x1680)
   || ((0x2000 <=? c) && (c <=? 0x200A))
   || (c =? 0x2028) || (c =? 0x2029) || (c =? 0x202F) || (c =? 0x205F)
   || (c =? 0x3000))%N.

(** [s.lstrip()], [s.rstrip()] and [s.strip()]. *)
Fixpoint lstrip (s : pystr) : pystr :=
  match s with
  | [] => []
  | c :: s' => if isspace c then lstrip s' else s
  end.

Definition rstrip (s : pystr) : pystr := rev (lstrip (rev s)).

Definition strip (s : pystr) : pystr := rstrip (lstrip s).

(** What a tab shows: [st.success], [st.error] or [st.code]. *)
Inductive st_message : Type :=
| st_success (text : pystr)
| st_error (text : pystr)
| st_code (text : pystr).

(** The body of the button "Comparar" (tab "Comparar"), on the contents of
    the two text fields. *)
Definition comparar (h1 h2 : pystr) : result st_message :=
  ok <- compare_hashes (strip h1) (strip h2) ;;
  if ok : bool
  then Ok (st_success (str "Los hashes coinciden (compare_digest)"))
  else Ok (st_error (str "Los hashes NO coinciden")).

(** The body of the button "Hash con salt" (tab "Salting/Pepper"), on the
    text, the salt field and the algorithm of the select box. *)
Definition hash_con_salt (rt : Runtime) (txt_s salt_input algo_sp : pystr)
  : result st_message :=
  match salt_input with
  | [] => Ok (st_error (str "Provee un salt (o genera uno)."))
  | _ =>
      let combined := apply_salt txt_s salt_input in
      digest_sp <- hash_text rt combined algo_sp (str "utf-8") ;;
      Ok (st_code digest_sp)
  end.

(** The body of the button "Hash con pepper"; [pepper] is what
    [st.secrets.get("PEPPER")] returned, [None] or a string. *)
Definition hash_con_pepper (rt : Runtime) (txt_s : pystr)
  (pepper : option pystr) (algo_sp : pystr) : result st_message :=
  match pepper with
  | None | Some [] => Ok (st_error (str "PEPPER no configurado."))
  | Some p =>
      let combined_p := apply_pepper txt_s p in
      digest_p <- hash_text rt combined_p algo_sp (str "utf-8") ;;
      Ok (st_code digest_p)
  end.

(* ================================================================== *)
(** ** Known answers for the algorithm definitions                      *)
(* ================================================================== *)

Example sha1_empty :
  hexlify (SHA1.digest []) = str "da39a3ee5e6b4b0d3255bfef95601890afd80709".
Proof. vm_compute. reflexivity. Qed.

Example sha1_abc :
  hexlify (SHA1.digest (ascii_bytes "abc"))
  = str "a9993e364706816aba3e25717850c26c9cd0d89d".
Proof. vm_compute. reflexivity. Qed.

Example sha256_empty :
  hexlify (SHA256.digest [])
  = str "e3b0c44298fc1c149afbf4c8996fb92427ae41e4649b934ca495991b7852b855".
Proof. vm_compute. reflexivity. Qed.

Example sha256_abc :
  hexlify (SHA256.digest (ascii_bytes "abc"))
  = str "ba7816bf8f01cfea414140de5dae2223b00361a396177a9cb410ff61f20015ad".
Proof. vm_compute. reflexivity. Qed.

(** A message of two blocks (FIPS 180-4 example, 56 octets). *)
Example sha256_two_blocks :
  hexlify (SHA256.digest
    (ascii_bytes "abcdbcdecdefdefgefghfghighijhijkijkljklmklmnlmnomnopnopq"))
  = str "248d6a61d20638b8e5c026930c3e6039a33ce45964ff2167f6ecedd419db06c1".
Proof. vm_compute. reflexivity. Qed.

Example sha512_empty :
  hexlify (SHA512.digest [])
  = str ("cf83e1357eefb8bdf1542850d66d8007d620e4050b5715dc83f4a921d36ce9ce"
         ++ "47d0d13c5d85f2b0ff8318d2877eec2f63b931bd47417a81a538327af927da3e").
Proof. vm_compute. reflexivity. Qed.

Example sha512_abc :
  hexlify (SHA512.digest (ascii_bytes "abc"))
  = str ("ddaf35a193617abacc417349ae20413112e6fa4e89a97ea20a9eeee64b55d39a"
         ++ "2192992a274fc1a836ba3c23a3feebbd454d4423643ce80e2a9ac94fa54ca49f").
Proof. vm_compute. reflexivity. Qed.

Example blake2b_empty :
  hexlify (BLAKE2b.digest [])
  = str ("786a02f742015903c6c6fd852552d272912f4740e15847618a86e217f71f5419"
         ++ "d25e1031afee585313896444934eb04b903a685b1448b755d56f701afe9be2ce").
Proof. vm_compute. reflexivity. Qed.

Example blake2b_abc :
  hexlify (BLAKE2b.digest (ascii_bytes "abc"))
  = str ("ba80a53f981c4d0d6a2797b69f12f6e94c212f14685ac4b74b12bb6fdbffa2d1"
         ++ "7d87c5392aab792dc252d5de4533cc9518d38aa8dbf1925ab92386edd4009923").
Proof. vm_compute. reflexivity. Qed.

(** The round constants are the published ones. *)
Example sha1_constants :
  map SHA1.Kt [0; 20; 40; 60]%nat
  = [0x5a827999; 0x6ed9eba1; 0x8f1bbcdc; 0xca62c1d6].
Proof. vm_compute. reflexivity. Qed.

Example sha256_constants :
  nth 0 SHA256.K 0 = 0x428a2f98 /\ nth 63 SHA256.K 0 = 0xc67178f2
  /\ length SHA256.K = 64%nat.
Proof. vm_compute. auto. Qed.

Example sha512_constants :
  nth 0 SHA512.K 0 = 0x428a2f98d728ae22
  /\ nth 79 SHA512.K 0 = 0x6c44198c4a475817
  /\ length SHA512.K = 80%nat.
Proof. vm_compute. auto. Qed.

(* ================================================================== *)
(** ** Strings and octets                                              *)
(* ================================================================== *)

Lemma str_eqb_eq (a b : pystr) : str_eqb a b = true <-> a = b.
Proof.
  revert b; induction a as [|x a IH]; intros [|y b]; simpl;
    try (split; [discriminate | discriminate]); try tauto.
  rewrite andb_true_iff, N.eqb_eq, IH.
  split; [intros [-> ->]; reflexivity | intros E; inversion E; auto].
Qed.

Lemma str_eqb_refl (a : pystr) : str_eqb a a = true.
Proof. apply str_eqb_eq; reflexivity. Qed.

Lemma hexlify_length (bs : bytes) : length (hexlify bs) = (2 * length bs)%nat.
Proof.
  induction bs as [|b bs IH]; simpl; [reflexivity|].
  rewrite IH; lia.
Qed.

Lemma hex_digit_in (n : Z) : In (hex_digit n) hexdigits.
Proof.
  unfold hex_digit. apply nth_In.
  assert (0 <= n mod 16 < 16) by (apply Z.mod_pos_bound; lia).
  change (length hexdigits) with 16%nat. lia.
Qed.

(** Every character of a rendered digest is one of [0-9a-f]. *)
Lemma hexlify_lowercase (bs : bytes) : lowercase_hex (hexlify bs).
Proof.
  unfold lowercase_hex. induction bs as [|b bs IH]; simpl; [constructor|].
  constructor; [apply hex_digit_in|].
  constructor; [apply hex_digit_in | exact IH].
Qed.

Lemma be_bytes_length (n : nat) (w : Z) : length (be_bytes n w) = n.
Proof. induction n; simpl; congruence. Qed.

Lemma le_bytes_length (n : nat) (w : Z) : length (le_bytes n w) = n.
Proof. revert w; induction n; intros; simpl; congruence. Qed.

(* ================================================================== *)
(** ** Digest sizes                                                    *)
(* ================================================================== *)

Lemma sha1_digest_length (msg : bytes) : length (SHA1.digest msg) = 20%nat.
Proof.
  unfold SHA1.digest.
  destruct (fold_left SHA1.compress _ SHA1.IV) as [[[[h0 h1] h2] h3] h4].
  cbn [map concat]. rewrite !length_app, !be_bytes_length. reflexivity.
Qed.

Lemma sha2_digest_length (w : Z) B0 B1 S0 S1 K IV (msg : bytes) :
  length (SHA2.digest w B0 B1 S0 S1 K IV msg) = (8 * SHA2.word_bytes w)%nat.
Proof.
  unfold SHA2.digest.
  destruct (fold_left _ _ IV) as [[[[[[[h0 h1] h2] h3] h4] h5] h6] h7].
  cbn [map concat]. rewrite !length_app, !be_bytes_length. simpl. lia.
Qed.

Lemma sha256_digest_length (msg : bytes) :
  length (SHA256.digest msg) = 32%nat.
Proof. unfold SHA256.digest. rewrite sha2_digest_length. reflexivity. Qed.

Lemma sha512_digest_length (msg : bytes) :
  length (SHA512.digest msg) = 64%nat.
Proof. unfold SHA512.digest. rewrite sha2_digest_length. reflexivity. Qed.

Lemma blake2b_digest_length (msg : bytes) :
  length (BLAKE2b.digest msg) = 64%nat.
Proof.
  unfold BLAKE2b.digest. cbn [seq map concat].
  rewrite !length_app, !le_bytes_length. reflexivity.
Qed.

(* ================================================================== *)
(** ** The UTF-8 codec                                                 *)
(* ================================================================== *)

Lemma utf8_encode_cp_error (c : codepoint) (e : exn) :
  utf8_encode_cp c = Raise e -> e = UnicodeEncodeError.
Proof.
  unfold utf8_encode_cp.
  repeat match goal with
         | |- context [if ?b then _ else _] => destruct b
         end; congruence.
Qed.

Lemma utf8_encode_cp_nonempty (c : codepoint) (b : bytes) :
  utf8_encode_cp c = Ok b -> b <> [].
Proof.
  unfold utf8_encode_cp.
  repeat match goal with
         | |- context [if ?b then _ else _] => destruct b
         end; intros E; inversion E; discriminate.
Qed.

Lemma utf8_encode_error (s : pystr) (e : exn) :
  utf8_encode s = Raise e -> e = UnicodeEncodeError.
Proof.
  induction s as [|c s IH]; simpl; [discriminate|].
  destruct (utf8_encode_cp c) eqn:Ec; simpl.
  - destruct (utf8_encode s); simpl; [discriminate | auto].
  - intros E; inversion E; subst. eapply utf8_encode_cp_error; eauto.
Qed.

(** A non-empty string has a non-empty encoding. *)
Lemma utf8_encode_nonempty (s : pystr) (d : bytes) :
  s <> [] -> utf8_encode s = Ok d -> d <> [].
Proof.
  destruct s as [|c s]; [congruence|]. intros _. simpl.
  destruct (utf8_encode_cp c) eqn:Ec; simpl; [|discriminate].
  destruct (utf8_encode s); simpl; [|discriminate].
  intros E; inversion E; subst.
  apply utf8_encode_cp_nonempty in Ec.
  destruct a; [congruence | discriminate].
Qed.

(** The codec is total on strings without surrogates. *)
Lemma utf8_encode_total (s : pystr) :
  existsb is_surrogate s = false -> exists d, utf8_encode s = Ok d.
Proof.
  induction s as [|c s IH]; simpl; [eauto|].
  rewrite orb_false_iff. intros [Hc Hs].
  destruct (IH Hs) as [d ->].
  unfold utf8_encode_cp. fold (is_surrogate c). rewrite Hc.
  repeat match goal with
         | |- context [if ?b then _ else _] => destruct b
         end; simpl; eauto.
Qed.

Lemma utf8_encode_app (a b : pystr) :
  utf8_encode (a ++ b)
  = (x <- utf8_encode a ;; y <- utf8_encode b ;; Ok (x ++ y)).
Proof.
  induction a as [|c a IH]; simpl.
  - destruct (utf8_encode b); reflexivity.
  - destruct (utf8_encode_cp c); simpl; [|reflexivity].
    rewrite IH. destruct (utf8_encode a); simpl; [|reflexivity].
    destruct (utf8_encode b); simpl; [|reflexivity].
    rewrite app_assoc. reflexivity.
Qed.

(* ================================================================== *)
(** ** Resolving an algorithm                                          *)
(* ================================================================== *)

(** The names [hashlib.new] resolves to the algorithms defined here are
    the four of [DEFAULT_ALGOS]. *)
Lemma builtin_algo_supported (name : pystr) :
  In name DEFAULT_ALGOS <-> exists a, builtin_algo name = Some a.
Proof.
  unfold builtin_algo. split.
  - intros [<-|[<-|[<-|[<-|[]]]]]; eexists; reflexivity.
  - intros [a Ha].
    destruct (str_eqb name (str "sha256")) eqn:E1;
      [apply str_eqb_eq in E1; subst; simpl; auto|].
    destruct (str_eqb name (str "sha1")) eqn:E2;
      [apply str_eqb_eq in E2; subst; simpl; auto|].
    destruct (str_eqb name (str "sha512")) eqn:E3;
      [apply str_eqb_eq in E3; subst; simpl; auto|].
    destruct (str_eqb name (str "blake2b")) eqn:E4;
      [apply str_eqb_eq in E4; subst; simpl; auto 6|].
    discriminate.
Qed.

Lemma supported_guaranteed (name : pystr) :
  In name DEFAULT_ALGOS -> str_in name algorithms_guaranteed = true.
Proof. intros [<-|[<-|[<-|[<-|[]]]]]; vm_compute; reflexivity. Qed.

(** For a supported name [_get_hasher] returns the constructor of the
    algorithm, whatever the provider lists. *)
Lemma get_hasher_supported (rt : Runtime) (A : pystr) (a : Algo) :
  builtin_algo (lower rt A) = Some a ->
  (ctor <- _get_hasher rt A ;; ctor tt) = Ok (mkHash a []).
Proof.
  intros Ha. unfold _get_hasher.
  assert (Hg : str_in (lower rt A) algorithms_guaranteed = true).
  { apply supported_guaranteed, builtin_algo_supported; eauto. }
  rewrite Hg, andb_false_r. simpl. unfold hashlib_new. rewrite Ha. reflexivity.
Qed.

(** For a name that is neither listed by the provider nor guaranteed it
    raises. *)
Lemma get_hasher_unsupported (rt : Runtime) (A : pystr) :
  str_in (lower rt A) (algorithms_available rt) = false ->
  str_in (lower rt A) algorithms_guaranteed = false ->
  _get_hasher rt A = Raise (ValueError (unsupported_msg (lower rt A))).
Proof.
  intros Hav Hg. unfold _get_hasher. rewrite Hav, Hg. simpl.
  destruct (str_eqb (lower rt A) (str "blake2b")) eqn:E; simpl; [|reflexivity].
  apply str_eqb_eq in E. rewrite E in Hg. vm_compute in Hg. discriminate.
Qed.

(** [hash_text] on a supported algorithm: the digest of the encoded text. *)
Lemma hash_text_supported (rt : Runtime) (text A encoding : pystr) (a : Algo) :
  builtin_algo (lower rt A) = Some a ->
  hash_text rt text A encoding
  = (data <- encode rt text encoding ;; hexdigest (mkHash a data)).
Proof.
  intros Ha. pose proof (get_hasher_supported rt A a Ha) as Hc.
  unfold hash_text.
  destruct (_get_hasher rt A) as [ctor|e]; simpl in *; [|discriminate].
  rewrite Hc. simpl. reflexivity.
Qed.

Lemma builtin_algo_digest (name : pystr) (a : Algo) :
  builtin_algo name = Some a ->
  exists f, algo_digest a = Some f
            /\ forall data, length (hexlify (f data)) = hex_length name.
Proof.
  unfold builtin_algo, hex_length.
  destruct (str_eqb name (str "sha256")) eqn:E1.
  { intros E; inversion E; subst. eexists; split; [reflexivity|].
    intros; rewrite hexlify_length, sha256_digest_length.
    apply str_eqb_eq in E1; subst; reflexivity. }
  destruct (str_eqb name (str "sha1")) eqn:E2.
  { intros E; inversion E; subst. eexists; split; [reflexivity|].
    intros; rewrite hexlify_length, sha1_digest_length. reflexivity. }
  destruct (str_eqb name (str "sha512")) eqn:E3.
  { intros E; inversion E; subst. eexists; split; [reflexivity|].
    intros; rewrite hexlify_length, sha512_digest_length. reflexivity. }
  destruct (str_eqb name (str "blake2b")) eqn:E4; [|discriminate].
  intros E; inversion E; subst. eexists; split; [reflexivity|].
  intros; rewrite hexlify_length, blake2b_digest_length. reflexivity.
Qed.

(* ================================================================== *)
(** ** hash_text                                                       *)
(* ================================================================== *)

(** C3, as amended.  [hash_text] of the empty text under sha256 is the
    published SHA-256 digest of the empty message, the 64 characters
    [e3b0c442 98fc1c14 9afbf4c8 996fb924 27ae41e4 649b934c a495991b 7852b855],
    in every interpreter. *)
Theorem hash_text_empty_sha256 (rt : Runtime) :
  hash_text rt [] (str "sha256") (str "utf-8")
  = Ok (str "e3b0c44298fc1c149afbf4c8996fb92427ae41e4649b934ca495991b7852b855").
Proof.
  rewrite (hash_text_supported rt _ _ _ sha256_algo) by reflexivity.
  change (encode rt [] (str "utf-8")) with (Ok (@nil byte)).
  unfold bind, hexdigest, digest, bind. cbn [h_algo h_data sha256_algo algo_digest].
  rewrite sha256_empty. reflexivity.
Qed.

(** C3, as the specification words it: the value it designates as the
    published vector has 63 characters, the last digit is missing, and
    [hash_text] does not return it. *)
Lemma hash_text_empty_sha256_not_63 :
  hash_text small_runtime [] (str "sha256") (str "utf-8")
  <> Ok (str "e3b0c44298fc1c149afbf4c8996fb92427ae41e4649b934ca495991b7852b85").
Proof.
  intros E.
  apply (f_equal (fun r => match r with Ok d => length d | Raise _ => O end))
    in E.
  vm_compute in E. discriminate E.
Qed.

(** C7.  On a supported algorithm, whatever [hash_text] returns is a string
    of lower-case hexadecimal digits whose length is fixed by the algorithm
    alone (sha1 40, sha256 64, sha512 128, blake2b 128); and it does return
    whenever the text can be encoded, which is always the case for UTF-8
    and a text without surrogates. *)
Theorem hash_text_digest_format (rt : Runtime) (text A encoding : pystr) :
  In (lower rt A) DEFAULT_ALGOS ->
  (forall d, hash_text rt text A encoding = Ok d ->
             lowercase_hex d /\ length d = hex_length (lower rt A))
  /\ (forall data, encode rt text encoding = Ok data ->
                   exists d, hash_text rt text A encoding = Ok d)
  /\ (encoding = str "utf-8" -> existsb is_surrogate text = false ->
      exists d, hash_text rt text A encoding = Ok d).
Proof.
  intros HA. apply builtin_algo_supported in HA. destruct HA as [a Ha].
  destruct (builtin_algo_digest _ _ Ha) as [f [Hf Hlen]].
  rewrite (hash_text_supported rt text A encoding a Ha).
  assert (Hret : forall data, encode rt text encoding = Ok data ->
                 (data <- encode rt text encoding ;; hexdigest (mkHash a data))
                 = Ok (hexlify (f data))).
  { intros data ->. unfold bind, hexdigest, digest, bind. simpl. rewrite Hf.
    reflexivity. }
  split; [|split].
  - intros d. destruct (encode rt text encoding) as [data|e] eqn:E;
      [|discriminate].
    rewrite (Hret data eq_refl). intros H; inversion H; subst.
    split; [apply hexlify_lowercase | apply Hlen].
  - intros data E. rewrite E in *. rewrite (Hret data eq_refl). eauto.
  - intros -> Hs. destruct (utf8_encode_total text Hs) as [data E].
    assert (E' : encode rt text (str "utf-8") = Ok data) by exact E.
    rewrite (Hret data E'). eauto.
Qed.

(** The text of the application's first tab, "hola mundo", under each of
    the four algorithms. *)
Lemma hash_text_digest_format_witness :
  (In (lower small_runtime (str "SHA1")) DEFAULT_ALGOS
   /\ existsb is_surrogate (str "hola mundo") = false)
  /\ exists d,
       hash_text small_runtime (str "hola mundo") (str "SHA1") (str "utf-8")
       = Ok d
       /\ lowercase_hex d /\ length d = 40%nat.
Proof.
  assert (HA : In (lower small_runtime (str "SHA1")) DEFAULT_ALGOS)
    by (right; left; reflexivity).
  split; [split; [exact HA | reflexivity]|].
  destruct (hash_text_digest_format small_runtime (str "hola mundo")
              (str "SHA1") (str "utf-8") HA) as [Hfmt [_ Hret]].
  destruct (Hret eq_refl eq_refl) as [d Hd].
  exists d. split; [exact Hd|]. exact (Hfmt d Hd).
Defined.

(* ================================================================== *)
(** ** The reading loop                                                *)
(* ================================================================== *)

Lemma len_app {A} (a b : list A) : len (a ++ b) = len a + len b.
Proof. unfold len. rewrite length_app. lia. Qed.

Lemma len_pos {A} (a : list A) : a <> [] -> 0 < len a.
Proof. destruct a; [congruence|]. unfold len; simpl; lia. Qed.

Lemma concat_snoc {A} (l : list (list A)) (x : list A) :
  concat (l ++ [x]) = concat l ++ x.
Proof. rewrite concat_app. simpl. rewrite app_nil_r. reflexivity. Qed.

Lemma update_nil (h : HashObj) : update h [] = h.
Proof. destruct h; unfold update; simpl. rewrite app_nil_r. reflexivity. Qed.

Lemma update_update (h : HashObj) (a b : bytes) :
  update (update h a) b = update h (a ++ b).
Proof. unfold update; simpl. rewrite app_assoc. reflexivity. Qed.

Lemma running_totals_snoc (fed : list bytes) (d : bytes) (total : Z) :
  running_totals total (fed ++ [d])
  = running_totals total fed ++ [total + len (concat fed) + len d].
Proof.
  revert total; induction fed as [|x fed IH]; intros total; simpl.
  - change (len (@nil byte)) with 0. rewrite Z.add_0_r. reflexivity.
  - rewrite IH, len_app. f_equal. f_equal. f_equal. lia.
Qed.

Lemma running_totals_length (fed : list bytes) (total : Z) :
  length (running_totals total fed) = length fed.
Proof. revert total; induction fed; intros; simpl; auto. Qed.

Lemma running_totals_last (fed : list bytes) (total : Z) :
  last (running_totals total fed) total = total + len (concat fed).
Proof.
  induction fed as [|d fed IH] using rev_ind.
  - simpl. change (len (@nil byte)) with 0. lia.
  - rewrite running_totals_snoc, last_last, concat_snoc, len_app. lia.
Qed.

(** Totals of non-empty chunks grow strictly, from above the start. *)
Lemma running_totals_increasing (fed : list bytes) (total : Z) :
  Forall (fun d => d <> []) fed ->
  strictly_increasing (running_totals total fed)
  /\ Forall (fun c => total < c) (running_totals total fed).
Proof.
  revert total; induction fed as [|d fed IH]; intros total Hne.
  - simpl. split; [exact I | constructor].
  - inversion Hne as [|? ? Hd Hfed]; subst.
    apply len_pos in Hd.
    destruct (IH (total + len d) Hfed) as [Hinc Hlow].
    cbn [running_totals]. split.
    + destruct fed as [|d' fed']; [exact I|].
      cbn [running_totals] in *. split; [|exact Hinc].
      inversion Hlow; subst. assumption.
    + constructor; [lia|].
      eapply Forall_impl; [|exact Hlow]. cbv beta. intros; lia.
Qed.

Section Loop.

Context {F W : Type} `{FL : FileLike F}.

(** A callback that raises errors only does not change what the loop
    reads, feeds and decides. *)
Lemma read_loop_callback_swallowed (cb : callback W) (chunk_size : Z) :
  raises_only_errors cb ->
  forall fuel (a b : frame F W),
    same_hashing a b ->
    fst (read_loop fuel chunk_size (Some cb) a)
    = fst (read_loop fuel chunk_size None b)
    /\ same_hashing (snd (read_loop fuel chunk_size (Some cb) a))
                    (snd (read_loop fuel chunk_size None b)).
Proof.
  intros Hcb. induction fuel as [|fuel IH]; intros a b Hab.
  - simpl. auto.
  - destruct a as [fa ha ta wa ra fda ca], b as [fb hb tb wb rb fdb cb'].
    destruct Hab as (Hf & Hh & Ht & Hr & Hfd). simpl in *. subst.
    destruct (read fb chunk_size) as [[chunk|e] file'].
    2: { simpl. repeat split. }
    destruct (chunk_falsy chunk).
    { simpl. repeat split. }
    destruct (match chunk with
              | Bytes b0 => Ok b0
              | Text s => utf8_encode s
              end) as [data|e].
    2: { simpl. repeat split. }
    destruct (cb (tb + len data) wa) as [[u|e] world] eqn:Ecb.
    + apply IH. repeat split.
    + rewrite (Hcb _ _ _ _ Ecb). apply IH. repeat split.
Qed.

Lemma feedable_snoc (reads : list chunk) (c : chunk) :
  feedable (reads ++ [c]) = feedable reads ++ feedable [c].
Proof. unfold feedable. rewrite flat_map_app. reflexivity. Qed.

Lemma feedable_falsy (reads : list chunk) (c : chunk) :
  chunk_falsy c = true -> feedable (reads ++ [c]) = feedable reads.
Proof.
  intros E. rewrite feedable_snoc. unfold feedable at 2. simpl.
  rewrite E. simpl. apply app_nil_r.
Qed.

Lemma feedable_truthy (reads : list chunk) (c : chunk) (data : bytes) :
  chunk_falsy c = false ->
  match c with Bytes b => Ok b | Text s => utf8_encode s end = Ok data ->
  feedable (reads ++ [c]) = feedable reads ++ [data].
Proof.
  intros E Ed. rewrite feedable_snoc. unfold feedable at 2. simpl.
  rewrite E. destruct c as [b|s].
  - inversion Ed; subst. reflexivity.
  - rewrite Ed. reflexivity.
Qed.

Lemma feedable_unencodable (reads : list chunk) (s : pystr) (e : exn) :
  utf8_encode s = Raise e -> feedable (reads ++ [Text s]) = feedable reads.
Proof.
  intros E. rewrite feedable_snoc. unfold feedable at 2. simpl.
  rewrite E. destruct s; simpl; apply app_nil_r.
Qed.

Lemma truthy_data_nonempty (c : chunk) (data : bytes) :
  chunk_falsy c = false ->
  match c with Bytes b => Ok b | Text s => utf8_encode s end = Ok data ->
  data <> [].
Proof.
  intros E Ed. destruct c as [b|s].
  - inversion Ed; subst. destruct data; [discriminate | congruence].
  - eapply utf8_encode_nonempty; [|exact Ed].
    destruct s; [discriminate | congruence].
Qed.

Lemma read_loop_inv (h0 : HashObj) (chunk_size : Z)
      (cb : option (callback W)) :
  forall fuel (fr : frame F W),
    loop_inv h0 (has_callback cb) fr ->
    loop_inv h0 (has_callback cb) (snd (read_loop fuel chunk_size cb fr)).
Proof.
  induction fuel as [|fuel IH]; intros fr Hinv; [exact Hinv|].
  destruct fr as [file h total world reads fed calls].
  destruct Hinv as (Hfed & Hne & Htot & Hh & Hcalls).
  cbn [fr_file fr_h fr_total fr_world fr_reads fr_fed fr_calls] in *.
  cbn [read_loop fr_file fr_h fr_total fr_world fr_reads fr_fed fr_calls].
  destruct (read file chunk_size) as [[chunk|e] file'].
  2: { repeat split; assumption. }
  destruct (chunk_falsy chunk) eqn:Efalsy.
  { repeat split; try assumption.
    cbn [snd fr_fed fr_reads]. rewrite feedable_falsy; assumption. }
  destruct (match chunk with
            | Bytes b0 => Ok b0
            | Text s => utf8_encode s
            end) as [data|e] eqn:Edata.
  2: { repeat split; try assumption.
       cbn [snd fr_fed fr_reads]. destruct chunk as [b0|s]; [discriminate|].
       rewrite (feedable_unencodable _ _ _ Edata). assumption. }
  assert (Hfed' : fed ++ [data] = feedable (reads ++ [chunk])).
  { rewrite (feedable_truthy _ _ _ Efalsy Edata). congruence. }
  assert (Hdata : data <> []) by (eapply truthy_data_nonempty; eauto).
  assert (Hne' : Forall (fun d => d <> []) (fed ++ [data])).
  { apply Forall_app. split; [assumption|]. constructor; auto. }
  assert (Htot' : total + len data = len (concat (fed ++ [data]))).
  { rewrite concat_snoc, len_app. lia. }
  assert (Hh' : update h data = update h0 (concat (fed ++ [data]))).
  { rewrite concat_snoc, Hh, update_update. reflexivity. }
  destruct cb as [cb|]; cbn [has_callback] in *.
  - assert (Hcalls' : calls ++ [total + len data]
                      = running_totals 0 (fed ++ [data])).
    { rewrite running_totals_snoc, Hcalls, Htot. reflexivity. }
    destruct (cb (total + len data) world) as [[u|e] world'].
    + apply IH. repeat split; assumption.
    + destruct (is_Exception e).
      * apply IH. repeat split; assumption.
      * repeat split; assumption.
  - apply IH. repeat split; assumption.
Qed.

(** An element that fails a test passed by all that precede the last one
    is the last one. *)
Lemma last_is_the_odd_one {A} (P : A -> Prop) (l1 l2 l1' : list A) (x y : A) :
  l1 ++ x :: l2 = l1' ++ [y] ->
  Forall P l1' -> ~ P x ->
  l1 = l1' /\ x = y /\ l2 = [].
Proof.
  revert l1'. induction l1 as [|a l1 IH]; intros l1' E Hall Hx.
  - destruct l1' as [|a' l1']; cbn [app] in E.
    + inversion E; subst. auto.
    + inversion E; subst. inversion Hall; subst. contradiction.
  - destruct l1' as [|a' l1']; cbn [app] in E.
    + inversion E as [[Ha E']]. symmetry in E'.
      apply app_cons_not_nil in E'. contradiction.
    + inversion E as [[Ha E']]. inversion Hall; subst.
      destruct (IH l1' E') as (-> & -> & ->); auto.
Qed.

(** A chunk that cannot be encoded is the last one read: the loop is left
    with the error of the codec on it.  Every other way of leaving the loop
    leaves only chunks read that can be encoded. *)
Lemma read_loop_unencodable (chunk_size : Z) (cb : option (callback W)) :
  forall fuel (fr : frame F W),
    Forall chunk_encodable (fr_reads fr) ->
    Forall chunk_encodable (fr_reads (snd (read_loop fuel chunk_size cb fr)))
    \/ exists pre s e,
         fr_reads (snd (read_loop fuel chunk_size cb fr)) = pre ++ [Text s]
         /\ Forall chunk_encodable pre
         /\ utf8_encode s = Raise e
         /\ fst (read_loop fuel chunk_size cb fr) = Raised e.
Proof.
  induction fuel as [|fuel IH]; intros fr Henc; [left; exact Henc|].
  destruct fr as [file h total world reads fed calls].
  cbn [fr_file fr_h fr_total fr_world fr_reads fr_fed fr_calls] in *.
  cbn [read_loop fr_file fr_h fr_total fr_world fr_reads fr_fed fr_calls].
  destruct (read file chunk_size) as [[chunk|e] file'].
  2: { left. exact Henc. }
  destruct (chunk_falsy chunk) eqn:Efalsy.
  { left. cbn [snd fr_reads]. apply Forall_app. split; [exact Henc|].
    constructor; [|constructor].
    destruct chunk as [[|b bs]|[|c cs]]; try discriminate;
      [exact I | exists []; reflexivity]. }
  destruct (match chunk with
            | Bytes b0 => Ok b0
            | Text s => utf8_encode s
            end) as [data|e] eqn:Edata.
  2: { right. destruct chunk as [b0|s]; [discriminate|].
       exists reads, s, e. cbn [fst snd fr_reads]. auto. }
  assert (Henc' : Forall chunk_encodable (reads ++ [chunk])).
  { apply Forall_app. split; [exact Henc|]. constructor; [|constructor].
    destruct chunk as [b0|s]; [exact I | exists data; exact Edata]. }
  destruct cb as [cb|].
  - destruct (cb (total + len data) world) as [[u|e] world'].
    + apply IH. exact Henc'.
    + destruct (is_Exception e).
      * apply IH. exact Henc'.
      * left. exact Henc'.
  - apply IH. exact Henc'.
Qed.

End Loop.

(** The sizes [read] and [os.urandom] accept. *)
Lemma fits_ssize_t_iff (n : Z) :
  fits_ssize_t n = true <-> PY_SSIZE_T_MIN <= n <= PY_SSIZE_T_MAX.
Proof.
  unfold fits_ssize_t. rewrite andb_true_iff, !Z.leb_le. reflexivity.
Qed.

Lemma fits_ssize_t_pos (n : Z) :
  1 <= n -> n <= PY_SSIZE_T_MAX -> fits_ssize_t n = true.
Proof.
  intros H1 H2. apply fits_ssize_t_iff. unfold PY_SSIZE_T_MIN. lia.
Qed.



(** Reading an in-memory binary stream with a positive chunk size ends
    with [break] within as many iterations as there are octets left, plus
    one, and has fed the hash object what was left in the stream. *)
Lemma read_loop_BytesIO {W : Type} (chunk_size : Z) (buf : bytes) :
  1 <= chunk_size -> chunk_size <= PY_SSIZE_T_MAX ->
  forall fuel pos h total (w : W) reads fed calls,
    (length (skipn pos buf) < fuel)%nat ->
    exists fr',
      read_loop fuel chunk_size None
                (mkFrame (mkBytesIO buf pos) h total w reads fed calls)
      = (Broke, fr')
      /\ fr_h fr' = update h (skipn pos buf).
Proof.
  intros Hcs Hmax.
  induction fuel as [|fuel IH]; intros pos h total w reads fed calls Hfuel;
    [lia|].
  cbn [read_loop read BytesIO_FileLike fr_file]. unfold BytesIO_read.
  rewrite (fits_ssize_t_pos chunk_size Hcs Hmax). cbn [bio_pos bio_buf].
  replace (chunk_size <? 0) with false by (symmetry; apply Z.ltb_ge; lia).
  remember (skipn pos buf) as rest eqn:Erest.
  remember (Nat.min (Z.to_nat chunk_size) (length rest)) as n eqn:En.
  destruct rest as [|x rest'].
  - rewrite firstn_nil. cbn. eexists; split; [reflexivity|].
    cbn. symmetry; apply update_nil.
  - assert (Hn : (1 <= n <= length (x :: rest'))%nat) by (simpl in *; lia).
    destruct n as [|n']; [lia|].
    cbn [firstn chunk_falsy fr_reads fr_fed fr_calls fr_h fr_total fr_world].
    destruct (IH (pos + S n')%nat (update h (x :: firstn n' rest'))
                 (total + len (x :: firstn n' rest')) w
                 (reads ++ [Bytes (x :: firstn n' rest')])
                 (fed ++ [x :: firstn n' rest']) calls) as [fr' [Hrun Hh]].
    { rewrite Nat.add_comm, <- skipn_skipn, <- Erest.
      rewrite length_skipn. simpl in *. lia. }
    exists fr'. split; [exact Hrun|].
    rewrite Hh, update_update. f_equal.
    rewrite Nat.add_comm, <- skipn_skipn, <- Erest.
    change (x :: firstn n' rest') with (firstn (S n') (x :: rest')).
    apply firstn_skipn.
Qed.

(* ================================================================== *)
(** ** hash_file_chunked                                               *)
(* ================================================================== *)

Section Chunked.

Context {F W : Type} `{FL : FileLike F}.

(** The call, once the algorithm is resolved, is the loop started on an
    empty record. *)
Lemma hash_file_chunked_resolved (rt : Runtime) (fuel : nat) (file : F)
      (A : pystr) (chunk_size : Z) (cb : option (callback W)) (w : W)
      (h : HashObj) :
  (ctor <- _get_hasher rt A ;; ctor tt) = Ok h ->
  let p := read_loop fuel chunk_size cb (mkFrame file h 0 w [] [] []) in
  hash_file_chunked rt fuel file A chunk_size cb w
  = mkRun (match fst p with
           | Broke => Some (hexdigest (fr_h (snd p)))
           | Raised e => Some (Raise e)
           | Running => None
           end)
          (fr_file (snd p)) (fr_world (snd p)) (fr_reads (snd p))
          (fr_fed (snd p)) (fr_calls (snd p)).
Proof.
  intros Hres. unfold hash_file_chunked. rewrite Hres.
  destruct (read_loop fuel chunk_size cb (mkFrame file h 0 w [] [] []));
    reflexivity.
Qed.

Lemma hash_file_chunked_unresolved (rt : Runtime) (fuel : nat) (file : F)
      (A : pystr) (chunk_size : Z) (cb : option (callback W)) (w : W)
      (e : exn) :
  (ctor <- _get_hasher rt A ;; ctor tt) = Raise e ->
  hash_file_chunked rt fuel file A chunk_size cb w
  = mkRun (Some (Raise e)) file w [] [] [].
Proof. intros Hres. unfold hash_file_chunked. rewrite Hres. reflexivity. Qed.

Lemma loop_inv_start (h : HashObj) (b : bool) (file : F) (w : W) :
  loop_inv h b (mkFrame file h 0 w [] [] []).
Proof.
  unfold loop_inv; simpl. rewrite update_nil.
  repeat split; auto. destruct b; reflexivity.
Qed.

(** With a callback that raises errors only, the call reads, feeds and
    returns what it does without a callback. *)
Lemma hash_file_chunked_swallows (rt : Runtime) (fuel : nat) (file : F)
      (A : pystr) (chunk_size : Z) (cb : callback W) (w : W) :
  raises_only_errors cb ->
  let with_cb := hash_file_chunked rt fuel file A chunk_size (Some cb) w in
  let without := hash_file_chunked rt fuel file A chunk_size None w in
  r_out with_cb = r_out without
  /\ r_file with_cb = r_file without
  /\ r_reads with_cb = r_reads without
  /\ r_fed with_cb = r_fed without.
Proof.
  intros Hcb. cbv zeta.
  destruct (ctor <- _get_hasher rt A ;; ctor tt) as [h|e] eqn:Hres.
  - rewrite !(hash_file_chunked_resolved _ _ _ _ _ _ _ h Hres). cbv zeta.
    destruct (read_loop_callback_swallowed cb chunk_size Hcb fuel
                (mkFrame file h 0 w [] [] []) (mkFrame file h 0 w [] [] []))
      as [Hst (Hf & Hh & Ht & Hr & Hfd)]; [repeat split|].
    cbn [r_out r_file r_reads r_fed]. rewrite Hst, Hh. auto.
  - rewrite !(hash_file_chunked_unresolved _ _ _ _ _ _ _ e Hres).
    repeat split.
Qed.

(** The record of a call obeys the invariant of the loop. *)
Lemma hash_file_chunked_inv (rt : Runtime) (fuel : nat) (file : F)
      (A : pystr) (chunk_size : Z) (cb : option (callback W)) (w : W) :
  let r := hash_file_chunked rt fuel file A chunk_size cb w in
  r_fed r = feedable (r_reads r)
  /\ Forall (fun d => d <> []) (r_fed r)
  /\ r_calls r = if has_callback cb then running_totals 0 (r_fed r) else [].
Proof.
  cbv zeta.
  destruct (ctor <- _get_hasher rt A ;; ctor tt) as [h|e] eqn:Hres.
  - rewrite (hash_file_chunked_resolved _ _ _ _ _ _ _ h Hres). cbv zeta.
    destruct (read_loop_inv h chunk_size cb fuel _
                (loop_inv_start h (has_callback cb) file w))
      as (Hfed & Hne & _ & _ & Hcalls).
    cbn [r_fed r_reads r_calls]. auto.
  - rewrite (hash_file_chunked_unresolved _ _ _ _ _ _ _ e Hres).
    cbn [r_fed r_reads r_calls]. repeat split; auto.
    destruct (has_callback cb); reflexivity.
Qed.

(** A digest that is returned is the digest of the chunks fed, in order. *)
Lemma hash_file_chunked_digest_of_fed (rt : Runtime) (fuel : nat) (file : F)
      (A : pystr) (chunk_size : Z) (cb : option (callback W)) (w : W)
      (h : HashObj) (d : pystr) :
  (ctor <- _get_hasher rt A ;; ctor tt) = Ok h ->
  let r := hash_file_chunked rt fuel file A chunk_size cb w in
  r_out r = Some (Ok d) -> hexdigest (update h (concat (r_fed r))) = Ok d.
Proof.
  intros Hres. cbv zeta.
  rewrite (hash_file_chunked_resolved _ _ _ _ _ _ _ h Hres). cbv zeta.
  destruct (read_loop_inv h chunk_size cb fuel _
              (loop_inv_start h (has_callback cb) file w))
    as (_ & _ & _ & Hh & _).
  cbn [r_out r_fed]. rewrite <- Hh.
  destruct (fst (read_loop fuel chunk_size cb (mkFrame file h 0 w [] [] [])));
    congruence.
Qed.

(** A text chunk that cannot be encoded ends the call: it is the last
    chunk read and the call raises the error of the codec. *)
Lemma hash_file_chunked_unencodable (rt : Runtime) (fuel : nat) (file : F)
      (A : pystr) (chunk_size : Z) (cb : option (callback W)) (w : W)
      (pre post : list chunk) (s : pystr) (e : exn) :
  r_reads (hash_file_chunked rt fuel file A chunk_size cb w)
  = pre ++ Text s :: post ->
  utf8_encode s = Raise e ->
  post = []
  /\ r_out (hash_file_chunked rt fuel file A chunk_size cb w)
     = Some (Raise e).
Proof.
  intros Hreads He.
  assert (Hbad : ~ chunk_encodable (Text s)).
  { intros [d Hd]. rewrite He in Hd. discriminate. }
  destruct (ctor <- _get_hasher rt A ;; ctor tt) as [h|e0] eqn:Hres.
  - rewrite (hash_file_chunked_resolved _ _ _ _ _ _ _ h Hres) in Hreads |- *.
    cbv zeta in Hreads |- *. cbn [r_reads r_out] in Hreads |- *.
    destruct (read_loop_unencodable chunk_size cb fuel
                (mkFrame file h 0 w [] [] []) (Forall_nil _))
      as [Hall | (pre' & s' & e' & Hr & Hpre & He' & Hst)].
    + rewrite Hreads in Hall. apply Forall_app in Hall.
      destruct Hall as [_ Hall]. inversion Hall; subst. contradiction.
    + rewrite Hreads in Hr.
      destruct (last_is_the_odd_one _ _ _ _ _ _ Hr Hpre Hbad)
        as (_ & Hs & Hpost).
      inversion Hs; subst s'. rewrite Hst. split; [exact Hpost|].
      congruence.
  - rewrite (hash_file_chunked_unresolved _ _ _ _ _ _ _ e0 Hres) in Hreads.
    cbn [r_reads] in Hreads. apply app_cons_not_nil in Hreads. contradiction.
Qed.

End Chunked.

(** On an in-memory stream of [S], a supported algorithm and a positive
    chunk size, the call returns the digest of [S] once the loop is given
    more iterations than [S] has octets. *)
Lemma hash_file_chunked_stream {W : Type} (rt : Runtime) (A : pystr)
      (a : Algo) (S : bytes) (chunk_size : Z) (fuel : nat)
      (cb : option (callback W)) (w : W) :
  builtin_algo (lower rt A) = Some a ->
  1 <= chunk_size -> chunk_size <= PY_SSIZE_T_MAX ->
  (length S < fuel)%nat ->
  (forall c, cb = Some c -> raises_only_errors c) ->
  r_out (hash_file_chunked rt fuel (stream_of S) A chunk_size cb w)
  = Some (hexdigest (mkHash a S)).
Proof.
  intros Ha Hcs Hmax Hfuel Hcb.
  assert (Hnone : r_out (hash_file_chunked rt fuel (stream_of S) A chunk_size
                                           None w)
                  = Some (hexdigest (mkHash a S))).
  { rewrite (hash_file_chunked_resolved _ _ _ _ _ _ _ _
               (get_hasher_supported rt A a Ha)). cbv zeta.
    destruct (read_loop_BytesIO (W := W) chunk_size S Hcs Hmax fuel 0
                (mkHash a []) 0 w [] [] []) as [fr' [Hrun Hh]];
      [simpl; exact Hfuel|].
    unfold stream_of. rewrite Hrun. cbn [fst snd r_out]. rewrite Hh.
    reflexivity. }
  destruct cb as [c|]; [|exact Hnone].
  destruct (hash_file_chunked_swallows rt fuel (stream_of S) A chunk_size c w
              (Hcb c eq_refl)) as [Hout _].
  rewrite Hout. exact Hnone.
Qed.

(** Reading an in-memory text stream: each chunk of characters is encoded
    on its own, and the encodings add up to the encoding of the text; a
    character that cannot be encoded ends the call with the error of the
    codec. *)
Lemma read_loop_StringIO {W : Type} (chunk_size : Z) (buf : pystr) :
  1 <= chunk_size -> chunk_size <= PY_SSIZE_T_MAX ->
  forall fuel pos h total (w : W) reads fed calls,
    (length (skipn pos buf) < fuel)%nat ->
    exists fr',
      read_loop fuel chunk_size None
                (mkFrame (mkStringIO buf pos) h total w reads fed calls)
      = (match utf8_encode (skipn pos buf) with
         | Ok d => Broke
         | Raise e => Raised e
         end, fr')
      /\ forall d, utf8_encode (skipn pos buf) = Ok d ->
                   fr_h fr' = update h d.
Proof.
  intros Hcs Hmax.
  induction fuel as [|fuel IH]; intros pos h total w reads fed calls Hfuel;
    [lia|].
  cbn [read_loop read StringIO_FileLike fr_file]. unfold StringIO_read.
  rewrite (fits_ssize_t_pos chunk_size Hcs Hmax). cbn [sio_pos sio_buf].
  replace (chunk_size <? 0) with false by (symmetry; apply Z.ltb_ge; lia).
  remember (skipn pos buf) as rest eqn:Erest.
  remember (Nat.min (Z.to_nat chunk_size) (length rest)) as n eqn:En.
  destruct rest as [|x rest'].
  - rewrite firstn_nil. cbn. eexists; split; [reflexivity|].
    cbn. intros d E. inversion E; subst. symmetry; apply update_nil.
  - assert (Hn : (1 <= n <= length (x :: rest'))%nat) by (simpl in *; lia).
    destruct n as [|n']; [lia|].
    cbn [firstn chunk_falsy fr_reads fr_fed fr_calls fr_h fr_total fr_world].
    assert (Henc : utf8_encode (x :: rest')
                   = (a <- utf8_encode (x :: firstn n' rest') ;;
                      b <- utf8_encode (skipn (S n') (x :: rest')) ;;
                      Ok (a ++ b))).
    { rewrite <- utf8_encode_app. f_equal.
      change (x :: firstn n' rest') with (firstn (S n') (x :: rest')).
      symmetry; apply firstn_skipn. }
    assert (Hskip : skipn (pos + S n') buf = skipn (S n') (x :: rest')).
    { rewrite Nat.add_comm, <- skipn_skipn, <- Erest. reflexivity. }
    rewrite Henc.
    destruct (utf8_encode (x :: firstn n' rest')) as [data|e] eqn:Edata.
    + destruct (IH (pos + S n')%nat (update h data) (total + len data) w
                   (reads ++ [Text (x :: firstn n' rest')])
                   (fed ++ [data]) calls) as [fr' [Hrun Hh]].
      { rewrite Hskip, length_skipn. simpl in *. lia. }
      exists fr'. rewrite Hrun, Hskip. cbn [bind].
      destruct (utf8_encode (skipn (S n') (x :: rest'))) as [d2|e2] eqn:E2.
      * split; [reflexivity|]. intros d E. inversion E; subst.
        rewrite (Hh d2); [apply update_update|]. rewrite Hskip. exact E2.
      * split; [reflexivity | discriminate].
    + eexists. split; [reflexivity | discriminate].
Qed.

(** A text stream of a text gives what [hash_text] gives on the text with
    the UTF-8 encoding: the same digest, or the same encoding error. *)
Lemma hash_file_chunked_text_stream (rt : Runtime) (A text : pystr)
      (chunk_size : Z) (fuel : nat) :
  In (lower rt A) DEFAULT_ALGOS ->
  1 <= chunk_size -> chunk_size <= PY_SSIZE_T_MAX ->
  (length text < fuel)%nat ->
  r_out (hash_file_chunked rt fuel (text_stream_of text) A chunk_size
                           (@None (callback unit)) tt)
  = Some (hash_text rt text A (str "utf-8")).
Proof.
  intros HA Hcs Hmax Hfuel.
  apply builtin_algo_supported in HA. destruct HA as [a Ha].
  rewrite (hash_file_chunked_resolved _ _ _ _ _ _ _ _
             (get_hasher_supported rt A a Ha)). cbv zeta.
  rewrite (hash_text_supported rt text A _ a Ha).
  change (encode rt text (str "utf-8")) with (utf8_encode text).
  destruct (read_loop_StringIO (W := unit) chunk_size text Hcs Hmax fuel 0
              (mkHash a []) 0 tt [] [] []) as [fr' [Hrun Hh]];
    [simpl; exact Hfuel|].
  unfold text_stream_of. rewrite Hrun. cbn [fst snd r_out skipn] in *.
  destruct (utf8_encode text) as [d|e]; cbn [bind]; [|reflexivity].
  rewrite (Hh d eq_refl). reflexivity.
Qed.

(** With a chunk size of zero the first [read] returns nothing and the
    call returns the digest of the empty message, whatever the stream
    holds: the positivity of the chunk size is left to the caller. *)
Lemma hash_file_chunked_zero_chunk (rt : Runtime) (A : pystr) (a : Algo)
      (S : bytes) (fuel : nat) :
  builtin_algo (lower rt A) = Some a ->
  r_out (hash_file_chunked rt (Datatypes.S fuel) (stream_of S) A 0
                           (@None (callback unit)) tt)
  = Some (hexdigest (mkHash a [])).
Proof.
  intros Ha.
  rewrite (hash_file_chunked_resolved _ _ _ _ _ _ _ _
             (get_hasher_supported rt A a Ha)).
  reflexivity.
Qed.

(** A size that does not fit [Py_ssize_t] makes [read] raise, on an
    in-memory stream as on any other of the [io] module: the call ends with
    [OverflowError] on its first [read], whatever the stream holds. *)
Lemma hash_file_chunked_oversized {W : Type} (rt : Runtime) (A : pystr)
      (S : bytes) (chunk_size : Z) (fuel : nat) (cb : option (callback W))
      (w : W) (h : HashObj) :
  (ctor <- _get_hasher rt A ;; ctor tt) = Ok h ->
  fits_ssize_t chunk_size = false ->
  hash_file_chunked rt (Datatypes.S fuel) (stream_of S) A chunk_size cb w
  = mkRun (Some (Raise OverflowError)) (stream_of S) w [] [] [].
Proof.
  intros Hres Hfit.
  rewrite (hash_file_chunked_resolved _ _ _ _ _ _ _ h Hres). cbv zeta.
  cbn [read_loop read BytesIO_FileLike fr_file]. unfold BytesIO_read.
  rewrite Hfit. reflexivity.
Qed.

(** C1, as the specification words it, at the chunk size [2^63]: the text
    has a digest, and the call on the stream of its octets raises
    [OverflowError] on the first [read]. *)
Lemma hash_file_chunked_chunk_size_overflow :
  1 <= PY_SSIZE_T_MAX + 1
  /\ (exists d,
         hash_text small_runtime (str "hola mundo") (str "sha256")
                   (str "utf-8") = Ok d)
  /\ r_out (hash_file_chunked small_runtime 11
              (stream_of (ascii_bytes "hola mundo")) (str "sha256")
              (PY_SSIZE_T_MAX + 1) (@None (callback unit)) tt)
     = Some (Raise OverflowError)
  /\ r_out (hash_file_chunked small_runtime 11
              (stream_of (ascii_bytes "hola mundo")) (str "sha256")
              (PY_SSIZE_T_MAX + 1) (@None (callback unit)) tt)
     <> Some (hash_text small_runtime (str "hola mundo") (str "sha256")
                        (str "utf-8")).
Proof.
  assert (Hrun : r_out (hash_file_chunked small_runtime 11
                          (stream_of (ascii_bytes "hola mundo"))
                          (str "sha256") (PY_SSIZE_T_MAX + 1)
                          (@None (callback unit)) tt)
                 = Some (Raise OverflowError)).
  { rewrite (hash_file_chunked_oversized small_runtime (str "sha256") _ _ 10
               None tt (mkHash sha256_algo [])); reflexivity. }
  assert (Htext : exists d,
             hash_text small_runtime (str "hola mundo") (str "sha256")
                       (str "utf-8") = Ok d).
  { rewrite (hash_text_supported small_runtime _ (str "sha256") _
               sha256_algo eq_refl).
    eexists. reflexivity. }
  split; [vm_compute; discriminate|]. split; [exact Htext|].
  split; [exact Hrun|].
  rewrite Hrun. destruct Htext as [d ->]. discriminate.
Qed.

(** C1, as amended.  For a supported algorithm, a byte content [S] (the
    encoding of a text) and a chunk size from 1 to [sys.maxsize],
    [hash_file_chunked] on a stream of [S] returns the digest that
    [hash_text] returns on the text; the digest is the same for every other
    chunk size in that range; and for an empty stream it is the digest of
    the empty input.  The loop ends within [length S + 1] iterations. *)
Theorem hash_file_chunked_eq_hash_text {W : Type} (rt : Runtime)
        (A text encoding : pystr) (S : bytes) (chunk_size : Z) (fuel : nat)
        (progress_callback : option (callback W)) (w : W) :
  In (lower rt A) DEFAULT_ALGOS ->
  encode rt text encoding = Ok S ->
  1 <= chunk_size <= PY_SSIZE_T_MAX ->
  (length S < fuel)%nat ->
  (forall c, progress_callback = Some c -> raises_only_errors c) ->
  exists d,
    hash_text rt text A encoding = Ok d
    /\ r_out (hash_file_chunked rt fuel (stream_of S) A chunk_size
                                progress_callback w) = Some (Ok d)
    /\ (forall chunk_size' fuel',
          1 <= chunk_size' <= PY_SSIZE_T_MAX -> (length S < fuel')%nat ->
          r_out (hash_file_chunked rt fuel' (stream_of S) A chunk_size'
                                   progress_callback w) = Some (Ok d))
    /\ (S = [] -> hash_text rt [] A (str "utf-8") = Ok d).
Proof.
  intros HA Henc [Hcs Hmax] Hfuel Hcb.
  apply builtin_algo_supported in HA. destruct HA as [a Ha].
  destruct (builtin_algo_digest _ _ Ha) as [f [Hf _]].
  exists (hexlify (f S)).
  assert (Hd : hexdigest (mkHash a S) = Ok (hexlify (f S))).
  { unfold hexdigest, digest. simpl. rewrite Hf. reflexivity. }
  split; [|split; [|split]].
  - rewrite (hash_text_supported rt text A encoding a Ha), Henc. exact Hd.
  - rewrite (hash_file_chunked_stream rt A a S chunk_size fuel
               progress_callback w Ha Hcs Hmax Hfuel Hcb), Hd. reflexivity.
  - intros cs' fuel' [Hcs' Hmax'] Hfuel'.
    rewrite (hash_file_chunked_stream rt A a S cs' fuel'
               progress_callback w Ha Hcs' Hmax' Hfuel' Hcb), Hd. reflexivity.
  - intros ->. rewrite (hash_text_supported rt _ A _ a Ha). exact Hd.
Qed.

(** "hola mundo" read three octets at a time, with a callback that fails
    on every call. *)
Lemma hash_file_chunked_eq_hash_text_witness :
  exists d,
    hash_text small_runtime (str "hola mundo") (str "sha256") (str "utf-8")
    = Ok d
    /\ r_out (hash_file_chunked small_runtime 11
                (stream_of (ascii_bytes "hola mundo")) (str "sha256") 3
                (Some failing_callback) O) = Some (Ok d).
Proof.
  destruct (hash_file_chunked_eq_hash_text (W := nat) small_runtime
              (str "sha256") (str "hola mundo") (str "utf-8")
              (ascii_bytes "hola mundo") 3 11 (Some failing_callback) O)
    as [d (Ht & Hc & _)].
  - left; reflexivity.
  - reflexivity.
  - unfold PY_SSIZE_T_MAX; lia.
  - simpl; lia.
  - intros c Hc n w e w' E. inversion Hc; subst.
    unfold failing_callback in E. inversion E; subst. reflexivity.
  - exists d. split; assumption.
Defined.

(** C6.  When every failure of the progress callback is an error (an
    instance of [Exception]), the call swallows it: it returns what it
    returns without a callback, having read the same chunks and fed the
    same octets to the hash object; in particular a digest returned
    without the callback is returned with it. *)
Theorem progress_callback_failure_swallowed {F W : Type} `{FL : FileLike F}
        (rt : Runtime) (fuel : nat) (file : F) (A : pystr) (chunk_size : Z)
        (cb : callback W) (w : W) :
  raises_only_errors cb ->
  r_out (hash_file_chunked rt fuel file A chunk_size (Some cb) w)
  = r_out (hash_file_chunked rt fuel file A chunk_size None w)
  /\ r_reads (hash_file_chunked rt fuel file A chunk_size (Some cb) w)
     = r_reads (hash_file_chunked rt fuel file A chunk_size None w)
  /\ r_fed (hash_file_chunked rt fuel file A chunk_size (Some cb) w)
     = r_fed (hash_file_chunked rt fuel file A chunk_size None w)
  /\ (forall d,
        r_out (hash_file_chunked rt fuel file A chunk_size None w)
        = Some (Ok d) ->
        r_out (hash_file_chunked rt fuel file A chunk_size (Some cb) w)
        = Some (Ok d)).
Proof.
  intros Hcb.
  destruct (hash_file_chunked_swallows rt fuel file A chunk_size cb w Hcb)
    as (Hout & _ & Hreads & Hfed).
  repeat split; try assumption.
  intros d Hd. rewrite Hout. exact Hd.
Qed.

Lemma failing_callback_raises_only_errors : raises_only_errors failing_callback.
Proof.
  intros n w e w' E. unfold failing_callback in E. inversion E; subst.
  reflexivity.
Defined.

(** The callback fails four times while "hola mundo" is read three octets
    at a time, and the SHA-1 digest of the text is returned all the same. *)
Lemma progress_callback_failure_swallowed_witness :
  raises_only_errors failing_callback
  /\ r_world (hash_file_chunked small_runtime 11
                (stream_of (ascii_bytes "hola mundo")) (str "sha1") 3
                (Some failing_callback) O) = 4%nat
  /\ r_out (hash_file_chunked small_runtime 11
              (stream_of (ascii_bytes "hola mundo")) (str "sha1") 3
              (Some failing_callback) O)
     = Some (Ok (str "459567d3bde4418b7fe302ff9809c4b0befaf7dd")).
Proof.
  split; [exact failing_callback_raises_only_errors|].
  split; [reflexivity|].
  apply (progress_callback_failure_swallowed small_runtime 11
           (stream_of (ascii_bytes "hola mundo")) (str "sha1") 3
           failing_callback O failing_callback_raises_only_errors).
  vm_compute. reflexivity.
Defined.

(** What is not an error is not swallowed: an interrupt raised by the
    callback leaves the call at once. *)
Example interrupt_leaves_the_call :
  let r := hash_file_chunked small_runtime 11
             (stream_of (ascii_bytes "hola mundo")) (str "sha1") 3
             (Some interrupted_callback) O in
  r_out r = Some (Raise KeyboardInterrupt) /\ r_calls r = [3].
Proof. vm_compute. auto. Qed.

(** Of chunks that can all be encoded, the ones fed are the non-empty
    ones. *)
Lemma feedable_encodable (reads : list chunk) :
  Forall chunk_encodable reads ->
  length (feedable reads) = length (filter chunk_truthy reads).
Proof.
  induction 1 as [|c reads Hc _ IH]; [reflexivity|].
  unfold feedable in *. cbn [flat_map filter]. rewrite length_app, IH.
  unfold chunk_truthy.
  destruct (chunk_falsy c); cbn [negb length Nat.add]; [reflexivity|].
  destruct c as [b|s]; [reflexivity|].
  destruct Hc as [d ->]. reflexivity.
Qed.

(** C10, as the claim words it: a text stream hands over a chunk of one
    lone surrogate; the chunk is not empty, it cannot be encoded, the call
    ends with the error of the codec and the callback has not been called. *)
Lemma unencodable_chunk_not_reported :
  r_reads (hash_file_chunked small_runtime 2 (text_stream_of [0xD800%N])
             (str "sha256") 8192 (Some failing_callback) O)
  = [Text [0xD800%N]]
  /\ r_calls (hash_file_chunked small_runtime 2 (text_stream_of [0xD800%N])
                (str "sha256") 8192 (Some failing_callback) O)
     = []
  /\ r_out (hash_file_chunked small_runtime 2 (text_stream_of [0xD800%N])
              (str "sha256") 8192 (Some failing_callback) O)
     = Some (Raise UnicodeEncodeError).
Proof. repeat split. Qed.

(** C10, as amended.  In a call with a progress callback, the values passed
    to the callback are the running totals of the lengths of the chunks fed
    to the hash object, one call per chunk fed; the chunks fed are the
    non-empty chunks read, encoded when they are text, up to a text chunk
    that cannot be encoded; hence the values are positive and strictly
    increasing, and the last one is the number of octets fed.  When every
    chunk read can be encoded, as on a binary stream, there is one call per
    non-empty chunk read.  On an empty stream the callback is not called.
    A text chunk that cannot be encoded ends the call: nothing is read
    after it, the call raises the error of the codec, and the chunk has
    been neither fed to the hash object nor reported to the callback. *)
Theorem progress_callback_totals {F W : Type} `{FL : FileLike F}
        (rt : Runtime) (fuel : nat) (file : F) (A : pystr) (chunk_size : Z)
        (cb : callback W) (w : W) :
  let r := hash_file_chunked rt fuel file A chunk_size (Some cb) w in
  r_calls r = running_totals 0 (r_fed r)
  /\ r_fed r = feedable (r_reads r)
  /\ Forall (fun d => d <> []) (r_fed r)
  /\ length (r_calls r) = length (r_fed r)
  /\ (Forall chunk_encodable (r_reads r) ->
      length (r_calls r) = length (filter chunk_truthy (r_reads r)))
  /\ strictly_increasing (r_calls r)
  /\ Forall (fun c => 0 < c) (r_calls r)
  /\ last (r_calls r) 0 = len (concat (r_fed r))
  /\ r_calls (hash_file_chunked rt fuel (stream_of []) A chunk_size
                                (Some cb) w) = []
  /\ (forall pre s post e,
        r_reads r = pre ++ Text s :: post ->
        utf8_encode s = Raise e ->
        post = []
        /\ r_out r = Some (Raise e)
        /\ r_fed r = feedable pre
        /\ r_calls r = running_totals 0 (feedable pre)).
Proof.
  cbv zeta.
  destruct (hash_file_chunked_inv rt fuel file A chunk_size (Some cb) w)
    as (Hfed & Hne & Hcalls).
  cbn [has_callback] in Hcalls.
  destruct (running_totals_increasing _ 0 Hne) as [Hinc Hpos].
  repeat match goal with |- _ /\ _ => split end.
  10: { intros pre s post e Hreads He.
        destruct (hash_file_chunked_unencodable rt fuel file A chunk_size
                    (Some cb) w pre post s e Hreads He) as [-> Hout].
        assert (Hf : r_fed (hash_file_chunked rt fuel file A chunk_size
                                              (Some cb) w) = feedable pre).
        { rewrite Hfed, Hreads. apply (feedable_unencodable _ _ _ He). }
        repeat split; [exact Hout | exact Hf |].
        rewrite Hcalls, Hf. reflexivity. }
  - exact Hcalls.
  - exact Hfed.
  - exact Hne.
  - rewrite Hcalls, running_totals_length. reflexivity.
  - intros Henc.
    rewrite Hcalls, running_totals_length, Hfed.
    apply feedable_encodable, Henc.
  - rewrite Hcalls. exact Hinc.
  - rewrite Hcalls. exact Hpos.
  - rewrite Hcalls, running_totals_last. lia.
  - destruct (hash_file_chunked_inv rt fuel (stream_of []) A chunk_size
                (Some cb) w) as (Hfed0 & _ & Hcalls0).
    cbn [has_callback] in Hcalls0. rewrite Hcalls0, Hfed0.
    destruct (ctor <- _get_hasher rt A ;; ctor tt) as [h|e] eqn:Hres.
    + rewrite (hash_file_chunked_resolved _ _ _ _ _ _ _ h Hres). cbv zeta.
      destruct fuel; [reflexivity|].
      cbn [read_loop fr_file read BytesIO_FileLike].
      unfold BytesIO_read, stream_of. cbn [bio_pos bio_buf skipn length].
      destruct (fits_ssize_t chunk_size); [|reflexivity].
      destruct (chunk_size <? 0); rewrite ?Nat.min_0_r; reflexivity.
    + rewrite (hash_file_chunked_unresolved _ _ _ _ _ _ _ e Hres).
      reflexivity.
Qed.

(** The totals reported while "hola mundo" is read three octets at a
    time. *)
Example progress_callback_totals_example :
  let r := hash_file_chunked small_runtime 11
             (stream_of (ascii_bytes "hola mundo")) (str "sha1") 3
             (Some failing_callback) O in
  r_calls r = [3; 6; 9; 10]
  /\ r_fed r = map ascii_bytes ["hol"; "a m"; "und"; "o"]%string
  /\ r_reads r
     = map Bytes (map ascii_bytes ["hol"; "a m"; "und"; "o"; EmptyString]%string).
Proof. vm_compute. auto. Qed.

(** The same call: five chunks read, the last one empty, and four calls.
    Then a text stream read one character at a time, whose second
    character is a lone surrogate: one call, with the total 1, and the
    error of the codec. *)
Lemma progress_callback_totals_witness :
  (Forall chunk_encodable
          (r_reads (hash_file_chunked small_runtime 11
                      (stream_of (ascii_bytes "hola mundo")) (str "sha1") 3
                      (Some failing_callback) O))
   /\ length (r_calls (hash_file_chunked small_runtime 11
                         (stream_of (ascii_bytes "hola mundo")) (str "sha1") 3
                         (Some failing_callback) O))
      = length (filter chunk_truthy
                  (r_reads (hash_file_chunked small_runtime 11
                              (stream_of (ascii_bytes "hola mundo"))
                              (str "sha1") 3 (Some failing_callback) O))))
  /\ (r_reads (hash_file_chunked small_runtime 4
                 (text_stream_of [104; 0xD800; 105]%N) (str "sha1") 1
                 (Some failing_callback) O)
      = [Text [104%N]] ++ Text [0xD800%N] :: []
      /\ utf8_encode [0xD800%N] = Raise UnicodeEncodeError)
  /\ r_out (hash_file_chunked small_runtime 4
               (text_stream_of [104; 0xD800; 105]%N) (str "sha1") 1
               (Some failing_callback) O)
     = Some (Raise UnicodeEncodeError)
  /\ r_calls (hash_file_chunked small_runtime 4
                 (text_stream_of [104; 0xD800; 105]%N) (str "sha1") 1
                 (Some failing_callback) O)
     = [1].
Proof.
  assert (Hreads : r_reads (hash_file_chunked small_runtime 4
                              (text_stream_of [104; 0xD800; 105]%N)
                              (str "sha1") 1 (Some failing_callback) O)
                   = [Text [104%N]] ++ Text [0xD800%N] :: [])
    by reflexivity.
  assert (Hbad : utf8_encode [0xD800%N] = Raise UnicodeEncodeError)
    by reflexivity.
  destruct (progress_callback_totals small_runtime 4
              (text_stream_of [104; 0xD800; 105]%N) (str "sha1") 1
              failing_callback O)
    as (_ & _ & _ & _ & _ & _ & _ & _ & _ & Hend).
  destruct (Hend _ _ _ _ Hreads Hbad) as (_ & Hout & _ & Hcalls).
  split; [|split; [split; assumption|split; [exact Hout | exact Hcalls]]].
  assert (Henc : Forall chunk_encodable
            (r_reads (hash_file_chunked small_runtime 11
                        (stream_of (ascii_bytes "hola mundo")) (str "sha1") 3
                        (Some failing_callback) O))).
  { destruct progress_callback_totals_example as (_ & _ & ->).
    repeat constructor. }
  split; [exact Henc|].
  destruct (progress_callback_totals small_runtime 11
              (stream_of (ascii_bytes "hola mundo")) (str "sha1") 3
              failing_callback O) as (_ & _ & _ & _ & Hone & _).
  exact (Hone Henc).
Defined.

(* ================================================================== *)
(** ** compare_hashes                                                  *)
(* ================================================================== *)

Lemma fold_lor_zero (l : list (N * N)) (r : N) :
  fold_left (fun r xy => N.lor r (N.lxor (fst xy) (snd xy))) l r = 0%N
  <-> r = 0%N /\ Forall (fun xy => fst xy = snd xy) l.
Proof.
  revert r; induction l as [|[x y] l IH]; intros r; simpl.
  - split; [intros ->; auto | tauto].
  - rewrite IH, N.lor_eq_0_iff. simpl. split.
    + intros [[-> Hxy] Hl]. apply N.lxor_eq in Hxy. auto.
    + intros [-> Hl]. inversion Hl; subst. simpl in *. subst.
      rewrite N.lxor_nilpotent. auto.
Qed.

Lemma combine_all_equal (a b : list N) :
  length a = length b ->
  (Forall (fun xy => fst xy = snd xy) (combine a b) <-> a = b).
Proof.
  revert b; induction a as [|x a IH]; intros [|y b]; simpl; try discriminate.
  - intros _. split; auto.
  - intros Hlen. injection Hlen as Hlen. split.
    + intros H. inversion H; subst. simpl in *. subst.
      f_equal. apply IH; assumption.
    + intros E. inversion E; subst. constructor; [reflexivity|].
      apply IH; auto.
Qed.

(** The loop of [compare_digest] decides equality. *)
Lemma tscmp_eq (a b : list N) : tscmp a b = true <-> a = b.
Proof.
  unfold tscmp. rewrite N.eqb_eq, fold_lor_zero.
  destruct (Nat.eqb (length a) (length b)) eqn:E.
  - apply Nat.eqb_eq in E. rewrite (combine_all_equal a b E). tauto.
  - apply Nat.eqb_neq in E. split.
    + intros [H _]. discriminate.
    + intros ->. congruence.
Qed.

(** C5, as the specification words it: [compare(a, a)] is not true for the
    one-character string "é"; the call raises [TypeError]. *)
Lemma compare_hashes_non_ascii_not_true :
  compare_hashes [233%N] [233%N] = Raise TypeError
  /\ compare_hashes [233%N] [233%N] <> Ok true.
Proof. split; [reflexivity | discriminate]. Qed.

(** C5, as amended.  On two ASCII strings [compare_hashes] returns, and it
    returns true exactly when the two strings are the same, in content and
    in length. *)
Theorem compare_hashes_ascii (a b : pystr) :
  is_ascii a = true -> is_ascii b = true ->
  exists r, compare_hashes a b = Ok r /\ (r = true <-> a = b).
Proof.
  intros Ha Hb. unfold compare_hashes, compare_digest. rewrite Ha, Hb.
  simpl. exists (tscmp a b). split; [reflexivity | apply tscmp_eq].
Qed.

(** Two digests that differ in their last digit, and two of different
    lengths. *)
Lemma compare_hashes_ascii_witness :
  (is_ascii (str "a9993e36") = true /\ is_ascii (str "a9993e37") = true)
  /\ compare_hashes (str "a9993e36") (str "a9993e36") = Ok true
  /\ compare_hashes (str "a9993e36") (str "a9993e37") <> Ok true.
Proof.
  split; [split; reflexivity|]. split.
  - destruct (compare_hashes_ascii (str "a9993e36") (str "a9993e36")
                eq_refl eq_refl) as [r [Hr Hiff]].
    rewrite Hr. f_equal. apply Hiff. reflexivity.
  - destruct (compare_hashes_ascii (str "a9993e36") (str "a9993e37")
                eq_refl eq_refl) as [r [Hr Hiff]].
    rewrite Hr. intros E. inversion E as [Er].
    apply Hiff in Er. discriminate Er.
Defined.

(** C9.  [compare_hashes] raises [TypeError] as soon as one of its
    arguments has a character outside ASCII, and returns a boolean on every
    pair of ASCII strings. *)
Theorem compare_hashes_partial (a b : pystr) :
  (is_ascii a = false \/ is_ascii b = false ->
   compare_hashes a b = Raise TypeError)
  /\ (is_ascii a = true /\ is_ascii b = true ->
      exists r, compare_hashes a b = Ok r).
Proof.
  unfold compare_hashes, compare_digest. split.
  - intros [H|H]; rewrite H; [|rewrite andb_false_r]; reflexivity.
  - intros [Ha Hb]. rewrite Ha, Hb. simpl. eauto.
Qed.

(** "é" against "e", and "e" against "e". *)
Lemma compare_hashes_partial_witness :
  compare_hashes [233%N] (str "e") = Raise TypeError
  /\ exists r, compare_hashes (str "e") (str "e") = Ok r.
Proof.
  split.
  - apply (proj1 (compare_hashes_partial [233%N] (str "e"))).
    left; reflexivity.
  - apply (proj2 (compare_hashes_partial (str "e") (str "e"))).
    split; reflexivity.
Defined.

(* ================================================================== *)
(** ** Salt and pepper                                                 *)
(* ================================================================== *)

Example apply_salt_example :
  apply_salt (str "x") (str "AAA==") = str "AAA==$x".
Proof. reflexivity. Qed.

Example apply_pepper_example : apply_pepper (str "x") (str "p") = str "p$x".
Proof. reflexivity. Qed.

(* ================================================================== *)
(** ** hmac_text                                                       *)
(* ================================================================== *)

(** [hmac.new] on a hash object fails on its first use of the object as a
    module. *)
Lemma hmac_new_hash_object (rt : Runtime) (key msg : bytes) (o : HashObj) :
  hmac_new rt key msg (DigestObj o) = Raise AttributeError.
Proof. reflexivity. Qed.

(** [hmac_text] encodes the key, encodes the text, creates a hash object
    and fails with [AttributeError] when all three succeed. *)
Lemma hmac_text_steps (rt : Runtime) (text key A encoding : pystr) :
  hmac_text rt text key A encoding
  = (k <- encode rt key encoding ;;
     m <- encode rt text encoding ;;
     o <- hashlib_new rt (lower rt A) [] ;;
     Raise AttributeError).
Proof.
  unfold hmac_text.
  destruct (encode rt key encoding); simpl; [|reflexivity].
  destruct (encode rt text encoding); simpl; [|reflexivity].
  destruct (hashlib_new rt (lower rt A) []); reflexivity.
Qed.

(** It returns no MAC, whatever it is given. *)
Lemma hmac_text_always_raises (rt : Runtime) (text key A encoding : pystr) :
  exists e, hmac_text rt text key A encoding = Raise e.
Proof.
  rewrite hmac_text_steps.
  destruct (encode rt key encoding); simpl; eauto.
  destruct (encode rt text encoding); simpl; eauto.
  destruct (hashlib_new rt (lower rt A) []); simpl; eauto.
Qed.

(** [hmac.new] called with the name of one of the four algorithms computes
    the HMAC of RFC 2104. *)
Lemma hmac_new_name_rfc2104 (rt : Runtime) (name : pystr) (a : Algo)
      (H : bytes -> bytes) (key msg : bytes) :
  builtin_algo name = Some a ->
  algo_digest a = Some H ->
  (m <- hmac_new rt key msg (DigestName name) ;; hmac_hexdigest m)
  = Ok (hexlify (rfc2104_hmac H (algo_block_size a) key msg)).
Proof.
  intros Ha HH.
  assert (Hbs : (algo_block_size a <? 16) = false).
  { revert Ha. unfold builtin_algo.
    repeat match goal with
           | |- context [if ?b then _ else _] => destruct b
           end; intros E; inversion E; reflexivity. }
  unfold hmac_new.
  destruct name as [|c name]; [discriminate|]. cbn [digestmod_falsy].
  unfold hashlib_new. rewrite Ha. cbn [bind h_algo]. rewrite Hbs.
  unfold rfc2104_hmac.
  destruct (len key >? algo_block_size a);
    unfold digest, hmac_hexdigest, hexdigest, digest, update;
    cbn [bind h_algo h_data hm_inner hm_outer app]; rewrite HH;
    cbn [bind h_algo h_data hm_inner hm_outer app]; rewrite ?HH;
    reflexivity.
Qed.

(** The reference value: HMAC-SHA256 of "mensaje" under the key "clave". *)
Example hmac_sha256_mensaje_clave :
  hexlify (rfc2104_hmac SHA256.digest 64 (ascii_bytes "clave")
                        (ascii_bytes "mensaje"))
  = str "17e8847a84636888af5a7abe0910e50a0fa28d6f1d3591a175e6e01fcf80b412".
Proof. vm_compute. reflexivity. Qed.

(** C2, at [hmac_text("mensaje", "clave", "sha256")].  The function as
    specified returns the HMAC-SHA256 of the message under the key;
    [hmac_text] raises [AttributeError], in every interpreter. *)
Theorem hmac_text_mensaje_clave (rt : Runtime) :
  spec_hmac_text rt (str "mensaje") (str "clave") (str "sha256") (str "utf-8")
  = Ok (str "17e8847a84636888af5a7abe0910e50a0fa28d6f1d3591a175e6e01fcf80b412")
  /\ hmac_text rt (str "mensaje") (str "clave") (str "sha256") (str "utf-8")
     = Raise AttributeError.
Proof.
  split.
  - unfold spec_hmac_text.
    change (encode rt (str "clave") (str "utf-8"))
      with (Ok (ascii_bytes "clave")).
    change (encode rt (str "mensaje") (str "utf-8"))
      with (Ok (ascii_bytes "mensaje")).
    change (lower rt (str "sha256")) with (str "sha256").
    change (hashlib_new rt (str "sha256") []) with (Ok (mkHash sha256_algo [])).
    cbn [bind h_algo algo_digest sha256_algo algo_block_size].
    change SHA256.block_size with 64.
    rewrite hmac_sha256_mensaje_clave. reflexivity.
  - rewrite hmac_text_steps. reflexivity.
Qed.

(** The same on every supported algorithm and every key and text that can
    be encoded: the specified function returns a MAC, [hmac_text] raises
    [AttributeError]. *)
Lemma hmac_text_supported (rt : Runtime) (text key A encoding : pystr)
      (k m : bytes) :
  In (lower rt A) DEFAULT_ALGOS ->
  encode rt key encoding = Ok k ->
  encode rt text encoding = Ok m ->
  (exists d, spec_hmac_text rt text key A encoding = Ok d)
  /\ hmac_text rt text key A encoding = Raise AttributeError.
Proof.
  intros HA Hk Hm. apply builtin_algo_supported in HA. destruct HA as [a Ha].
  destruct (builtin_algo_digest _ _ Ha) as [H [HH _]].
  rewrite hmac_text_steps. unfold spec_hmac_text. rewrite Hk, Hm.
  unfold hashlib_new. rewrite Ha. cbn [bind h_algo]. rewrite HH. eauto.
Qed.

(* ================================================================== *)
(** ** Unsupported algorithms                                          *)
(* ================================================================== *)

Lemma not_guaranteed_not_builtin (name : pystr) :
  str_in name algorithms_guaranteed = false -> builtin_algo name = None.
Proof.
  intros Hg. destruct (builtin_algo name) as [a|] eqn:Ha; [|reflexivity].
  rewrite supported_guaranteed in Hg; [discriminate|].
  apply builtin_algo_supported; eauto.
Qed.

(** For an algorithm name that, in lower case, is neither listed by the
    provider nor guaranteed, [hash_text] and [hash_file_chunked] raise the
    [ValueError] of [_get_hasher] before they touch the text or the stream.
    [hmac_text] does not use the outcome of its own test of the two sets:
    it encodes the key and the text and hands the name to [hashlib.new],
    which raises its [ValueError] when the provider does not know the name;
    when the provider knows it, the call goes on to [hmac.new] and ends
    with [AttributeError]. *)
Theorem unsupported_algorithm_rejected (rt : Runtime) (A : pystr) :
  str_in (lower rt A) (algorithms_available rt) = false ->
  str_in (lower rt A) algorithms_guaranteed = false ->
  (forall text encoding,
      hash_text rt text A encoding
      = Raise (ValueError (unsupported_msg (lower rt A))))
  /\ (forall (F W : Type) (FL : FileLike F) fuel (file : F) chunk_size
             (cb : option (callback W)) (w : W),
         hash_file_chunked rt fuel file A chunk_size cb w
         = mkRun (Some (Raise (ValueError (unsupported_msg (lower rt A)))))
                 file w [] [] [])
  /\ (provider_new rt (lower rt A) = None ->
      forall text key encoding,
        hmac_text rt text key A encoding
        = (k <- encode rt key encoding ;;
           m <- encode rt text encoding ;;
           Raise (ValueError (str "unsupported hash type " ++ lower rt A))))
  /\ (forall a, provider_new rt (lower rt A) = Some a ->
      forall text key encoding k m,
        encode rt key encoding = Ok k ->
        encode rt text encoding = Ok m ->
        hmac_text rt text key A encoding = Raise AttributeError).
Proof.
  intros Hav Hg.
  pose proof (get_hasher_unsupported rt A Hav Hg) as Hget.
  split; [|split; [|split]].
  - intros text encoding. unfold hash_text. rewrite Hget. reflexivity.
  - intros F W FL fuel file chunk_size cb w.
    apply hash_file_chunked_unresolved. rewrite Hget. reflexivity.
  - intros Hprov text key encoding. rewrite hmac_text_steps.
    unfold hashlib_new. rewrite (not_guaranteed_not_builtin _ Hg), Hprov.
    destruct (encode rt key encoding); simpl; [|reflexivity].
    destruct (encode rt text encoding); reflexivity.
  - intros a Hprov text key encoding k m Hk Hm.
    rewrite hmac_text_steps, Hk, Hm. cbn [bind].
    unfold hashlib_new. rewrite (not_guaranteed_not_builtin _ Hg), Hprov.
    reflexivity.
Qed.

(** C4.  The name ["sha-256"] in an interpreter whose provider resolves it
    without listing it, as OpenSSL does: it is in neither of the two sets,
    and [hash_text] and [hash_file_chunked] reject it with the [ValueError]
    for an unsupported algorithm, before the stream is read.  [hmac_text]
    does not reject it: [hashlib.new] accepts the name, and the call ends
    with the [AttributeError] of [hmac.new] on the hash object, which is
    not the error for an unsupported algorithm. *)
Theorem hmac_text_unlisted_name :
  str_in (lower alias_runtime (str "sha-256"))
         (algorithms_available alias_runtime ++ algorithms_guaranteed) = false
  /\ hash_text alias_runtime (str "x") (str "sha-256") (str "utf-8")
     = Raise (ValueError
                (str "Algoritmo sha-256 no soportado en este entorno."))
  /\ hash_file_chunked alias_runtime 2 (stream_of (ascii_bytes "x"))
                       (str "sha-256") 8192 (@None (callback unit)) tt
     = mkRun (Some (Raise
                      (ValueError
                         (str "Algoritmo sha-256 no soportado en este entorno."))))
             (stream_of (ascii_bytes "x")) tt [] [] []
  /\ hmac_text alias_runtime (str "x") (str "k") (str "sha-256") (str "utf-8")
     = Raise AttributeError
  /\ is_unsupported_algorithm
       (hmac_text alias_runtime (str "x") (str "k") (str "sha-256")
                  (str "utf-8")) = false.
Proof.
  destruct (unsupported_algorithm_rejected alias_runtime (str "sha-256")
              eq_refl eq_refl) as (Htext & Hfile & _ & Halias).
  assert (Hmac : hmac_text alias_runtime (str "x") (str "k") (str "sha-256")
                           (str "utf-8") = Raise AttributeError).
  { apply (Halias sha256_algo eq_refl (str "x") (str "k") (str "utf-8")
                  (ascii_bytes "k") (ascii_bytes "x")); reflexivity. }
  split; [reflexivity|]. split; [apply Htext|]. split; [apply Hfile|].
  split; [exact Hmac|]. rewrite Hmac. reflexivity.
Qed.

(** "md999" in the small interpreter. *)
Lemma unsupported_algorithm_rejected_witness :
  is_unsupported_algorithm
    (hash_text small_runtime (str "hola mundo") (str "md999") (str "utf-8"))
  = true
  /\ r_out (hash_file_chunked small_runtime 11
              (stream_of (ascii_bytes "hola mundo")) (str "md999") 8192
              (Some failing_callback) O)
     = Some (Raise (ValueError
                      (str "Algoritmo md999 no soportado en este entorno.")))
  /\ hmac_text small_runtime (str "mensaje") (str "clave") (str "md999")
               (str "utf-8")
     = Raise (ValueError (str "unsupported hash type md999")).
Proof.
  destruct (unsupported_algorithm_rejected small_runtime (str "md999")
              eq_refl eq_refl) as (Htext & Hfile & Hhmac & _).
  split; [|split].
  - rewrite Htext. reflexivity.
  - rewrite Hfile. reflexivity.
  - rewrite (Hhmac eq_refl). reflexivity.
Defined.

(* ================================================================== *)
(** ** generate_salt                                                   *)
(* ================================================================== *)

Lemma Z_of_byte_range (b : byte) : 0 <= Z_of_byte b < 256.
Proof.
  destruct b; vm_compute; (split; [discriminate | reflexivity]).
Qed.

Lemma byte_of_Z_of_byte (b : byte) : byte_of_Z (Z_of_byte b) = b.
Proof. destruct b; reflexivity. Qed.

Lemma N_of_byte_of_Z (z : Z) :
  0 <= z < 256 -> N_of_byte (byte_of_Z z) = Z.to_N z.
Proof.
  intros Hz. unfold N_of_byte, byte_of_Z.
  rewrite Z.mod_small by lia.
  destruct (Byte.of_N (Z.to_N z)) as [b|] eqn:E.
  - apply Byte.to_of_N. exact E.
  - apply Byte.of_N_None_iff in E. lia.
Qed.

(** Induction over a sequence of octets, three at a time. *)
Lemma list_ind3 {A} (P : list A -> Prop) :
  P [] -> (forall a, P [a]) -> (forall a b, P [a; b]) ->
  (forall a b c rest, P rest -> P (a :: b :: c :: rest)) ->
  forall l, P l.
Proof.
  intros H0 H1 H2 H3 l.
  assert (H : P l /\ (forall a, P (a :: l)) /\ (forall a b, P (a :: b :: l))).
  { induction l as [|c l (IH0 & IH1 & IH2)].
    - auto.
    - split; [apply IH1|]. split; [intros a; apply IH2|].
      intros a b. apply H3, IH0. }
  apply H.
Qed.

(** Every digit of the alphabet has its value, and no other character
    has one. *)
Lemma b64_char_index (i : Z) :
  0 <= i < 64 -> b64_index (N_of_byte (b64_char i)) = Some i.
Proof.
  intros Hi. rewrite <- (Z2Nat.id i) by lia.
  assert (Hn : (Z.to_nat i < 64)%nat) by lia.
  generalize dependent (Z.to_nat i). clear. intros n Hn.
  unfold b64_char. rewrite Nat2Z.id.
  do 64 (destruct n as [|n]; [reflexivity|]). lia.
Qed.

Lemma b64_index_not_pad (c : N) (i : Z) :
  b64_index c = Some i -> (c =? 61)%N = false.
Proof.
  intros H. destruct (c =? 61)%N eqn:E; [|reflexivity].
  apply N.eqb_eq in E. subst. discriminate H.
Qed.

Lemma b64_index_ascii (c : N) (i : Z) :
  b64_index c = Some i -> (c <? 128)%N = true /\ c <> dollar.
Proof.
  unfold b64_index, dollar. intros H.
  repeat match type of H with
         | context [if ?b then _ else _] => destruct b eqn:?
         end; try discriminate;
    rewrite ?andb_true_iff, ?N.leb_le, ?N.eqb_eq in *;
    (split; [apply N.ltb_lt; lia | lia]).
Qed.

(** The ranges of the digits of a group, and the group back from them. *)
Lemma b64_group3 (x y z : Z) :
  0 <= x < 256 -> 0 <= y < 256 -> 0 <= z < 256 ->
  let g := x * 65536 + y * 256 + z in
  0 <= g / 262144 < 64 /\ 0 <= (g / 4096) mod 64 < 64
  /\ 0 <= (g / 64) mod 64 < 64 /\ 0 <= g mod 64 < 64
  /\ g / 262144 * 262144 + (g / 4096) mod 64 * 4096
     + (g / 64) mod 64 * 64 + g mod 64 = g
  /\ g / 65536 = x /\ (g / 256) mod 256 = y /\ g mod 256 = z.
Proof.
  intros Hx Hy Hz g. subst g.
  repeat split; Z.to_euclidean_division_equations; lia.
Qed.

Lemma b64_group2 (x y : Z) :
  0 <= x < 256 -> 0 <= y < 256 ->
  let g := (x * 256 + y) * 4 in
  0 <= g / 4096 < 64 /\ 0 <= (g / 64) mod 64 < 64 /\ 0 <= g mod 64 < 64
  /\ (g / 4096 * 4096 + (g / 64) mod 64 * 64 + g mod 64) / 4 / 256 = x
  /\ ((g / 4096 * 4096 + (g / 64) mod 64 * 64 + g mod 64) / 4) mod 256 = y.
Proof.
  intros Hx Hy g. subst g.
  repeat split; Z.to_euclidean_division_equations; lia.
Qed.

Lemma b64_group1 (x : Z) :
  0 <= x < 256 ->
  let g := x * 16 in
  0 <= g / 64 < 64 /\ 0 <= g mod 64 < 64
  /\ (g / 64 * 64 + g mod 64) / 16 = x.
Proof.
  intros Hx g. subst g.
  repeat split; Z.to_euclidean_division_equations; lia.
Qed.

(** Decoding undoes encoding. *)
Lemma b64decode_b64encode (bs : bytes) :
  b64decode (map N_of_byte (b64encode bs)) = Some bs.
Proof.
  induction bs as [|a|a b|a b c rest IH] using list_ind3.
  - reflexivity.
  - destruct (b64_group1 _ (Z_of_byte_range a)) as (H0 & H1 & Hx).
    cbn [b64encode map b64decode].
    rewrite (b64_char_index _ H0), (b64_char_index _ H1).
    change (N_of_byte "="%byte) with 61%N. cbn [N.eqb Pos.eqb].
    rewrite Hx, byte_of_Z_of_byte. reflexivity.
  - destruct (b64_group2 _ _ (Z_of_byte_range a) (Z_of_byte_range b))
      as (H0 & H1 & H2 & Hx & Hy).
    cbn [b64encode map b64decode].
    rewrite (b64_char_index _ H0), (b64_char_index _ H1).
    rewrite (b64_index_not_pad _ _ (b64_char_index _ H2)).
    rewrite (b64_char_index _ H2).
    change (N_of_byte "="%byte) with 61%N. cbn [N.eqb Pos.eqb].
    cbv zeta. rewrite Hx, Hy, !byte_of_Z_of_byte. reflexivity.
  - destruct (b64_group3 _ _ _ (Z_of_byte_range a) (Z_of_byte_range b)
                (Z_of_byte_range c))
      as (H0 & H1 & H2 & H3 & Hg & Hx & Hy & Hz).
    cbn [b64encode map b64decode].
    rewrite (b64_char_index _ H0), (b64_char_index _ H1).
    rewrite (b64_index_not_pad _ _ (b64_char_index _ H2)).
    rewrite (b64_char_index _ H2).
    rewrite (b64_index_not_pad _ _ (b64_char_index _ H3)).
    rewrite (b64_char_index _ H3).
    cbv zeta. rewrite IH, Hg, Hx, Hy, Hz, !byte_of_Z_of_byte. reflexivity.
Qed.


(** A character of an encoded text: a digit of the alphabet, or ["="]. *)
Lemma b64_char_cases (i : Z) :
  b64_digit (N_of_byte (b64_char i)) = true \/ b64_char i = "="%byte.
Proof.
  destruct (Z_le_gt_dec 0 i) as [H0|H0];
    [destruct (Z_lt_ge_dec i 64) as [H1|H1]|].
  - left. unfold b64_digit. rewrite b64_char_index by lia. reflexivity.
  - right. unfold b64_char. apply nth_overflow.
    change (length b64_table) with 64%nat. lia.
  - left. unfold b64_char. replace (Z.to_nat i) with O by lia. reflexivity.
Qed.

Lemma b64encode_chars (bs : bytes) :
  Forall (fun c => b64_digit c = true \/ c = 61%N)
         (map N_of_byte (b64encode bs)).
Proof.
  assert (Hc : forall i, b64_digit (N_of_byte (b64_char i)) = true
                         \/ N_of_byte (b64_char i) = 61%N).
  { intros i. destruct (b64_char_cases i) as [H|H]; [left; exact H|].
    right. rewrite H. reflexivity. }
  induction bs as [|a|a b|a b c rest IH] using list_ind3;
    cbn [b64encode map]; repeat (constructor; [solve [apply Hc | right; reflexivity]|]);
    try constructor; exact IH.
Qed.

Lemma b64_text_ascii (s : pystr) :
  Forall (fun c => b64_digit c = true \/ c = 61%N) s ->
  is_ascii s = true /\ ~ In dollar s.
Proof.
  induction 1 as [|c s Hc _ [IH1 IH2]]; [split; [reflexivity | intros []]|].
  assert (H : (c <? 128)%N = true /\ c <> dollar).
  { destruct Hc as [Hc| ->]; [|split; [reflexivity | discriminate]].
    unfold b64_digit in Hc. destruct (b64_index c) eqn:E; [|discriminate].
    eapply b64_index_ascii; eauto. }
  destruct H as [Ha Hd]. split.
  - simpl. rewrite Ha, IH1. reflexivity.
  - intros [E|E]; [congruence | auto].
Qed.

(** ASCII octets decode to themselves. *)
Lemma utf8_decode_ascii (bs : bytes) :
  is_ascii (map N_of_byte bs) = true ->
  utf8_decode bs = Ok (map N_of_byte bs).
Proof.
  induction bs as [|b bs IH]; [reflexivity|].
  cbn [map is_ascii forallb]. rewrite andb_true_iff. intros [Hb Hbs].
  cbn [utf8_decode]. rewrite Hb, (IH Hbs). reflexivity.
Qed.

(** What [generate_salt] returns for a size from 0 to [sys.maxsize]. *)
Lemma generate_salt_value (n_bytes : Z) (e : entropy) :
  0 <= n_bytes <= PY_SSIZE_T_MAX ->
  generate_salt n_bytes e
  = (Ok (map N_of_byte (b64encode (map e (seq 0 (Z.to_nat n_bytes))))),
     fun i => e (Z.to_nat n_bytes + i)%nat).
Proof.
  intros [Hn Hmax]. unfold generate_salt, os_urandom.
  replace (fits_ssize_t n_bytes) with true
    by (symmetry; apply fits_ssize_t_iff; unfold PY_SSIZE_T_MIN; lia).
  cbn [negb].
  replace (n_bytes <? 0) with false by (symmetry; apply Z.ltb_ge; lia).
  cbn [bind]. f_equal. apply utf8_decode_ascii.
  apply b64_text_ascii, b64encode_chars.
Qed.

(** No salt is returned for another size. *)
Lemma generate_salt_returns (n_bytes : Z) (e : entropy) (salt : pystr) :
  fst (generate_salt n_bytes e) = Ok salt -> 0 <= n_bytes <= PY_SSIZE_T_MAX.
Proof.
  unfold generate_salt, os_urandom.
  destruct (fits_ssize_t n_bytes) eqn:Hfit; cbn [negb]; [|discriminate].
  apply fits_ssize_t_iff in Hfit.
  destruct (n_bytes <? 0) eqn:Hneg; [discriminate|].
  apply Z.ltb_ge in Hneg. intros _. lia.
Qed.



(** X2.  A salt carries the octets it was made from: decoded from base64 it
    gives them back, so two salts of the same size are equal exactly when
    the source delivered the same octets. *)
Theorem generate_salt_keeps_entropy (n_bytes : Z) (e1 e2 : entropy)
        (salt1 salt2 : pystr) :
  0 <= n_bytes ->
  fst (generate_salt n_bytes e1) = Ok salt1 ->
  fst (generate_salt n_bytes e2) = Ok salt2 ->
  b64decode salt1 = Some (map e1 (seq 0 (Z.to_nat n_bytes)))
  /\ (salt1 = salt2 <->
      forall i, (i < Z.to_nat n_bytes)%nat -> e1 i = e2 i).
Proof.
  intros Hn H1 H2.
  pose proof (generate_salt_returns _ _ _ H1) as Hr.
  rewrite (generate_salt_value _ _ Hr) in H1.
  rewrite (generate_salt_value _ _ Hr) in H2. cbn [fst] in H1, H2.
  inversion H1 as [E1]. inversion H2 as [E2]. clear H1 H2.
  split; [apply b64decode_b64encode|].
  split.
  - intros E i Hi.
    assert (Hd : Some (map e1 (seq 0 (Z.to_nat n_bytes)))
                 = Some (map e2 (seq 0 (Z.to_nat n_bytes)))).
    { rewrite <- !b64decode_b64encode, E. reflexivity. }
    inversion Hd as [Hm].
    apply (proj1 map_ext_in_iff Hm). apply in_seq. lia.
  - intros Hext. do 2 f_equal. apply map_ext_in.
    intros i Hi. apply in_seq in Hi. apply Hext. lia.
Qed.

(** Two sources that differ in their fourth octet. *)
Lemma generate_salt_keeps_entropy_witness :
  (0 <= 16)
  /\ b64decode (str "AAECAwQFBgcICQoLDA0ODw==")
     = Some (map counting_entropy (seq 0 16))
  /\ str "AAECAwQFBgcICQoLDA0ODw=="
     <> str "AAEC/wQFBgcICQoLDA0ODw==".
Proof.
  split; [lia|].
  destruct (generate_salt_keeps_entropy 16 counting_entropy
              (fun i => if (i =? 3)%nat then xff else counting_entropy i)
              (str "AAECAwQFBgcICQoLDA0ODw==")
              (str "AAEC/wQFBgcICQoLDA0ODw==")) as [Hdec Hiff];
    [lia | reflexivity | reflexivity |].
  split; [exact Hdec|].
  intros E. apply Hiff with (i := 3%nat) in E; [discriminate E | simpl; lia].
Defined.

(* ================================================================== *)
(** ** apply_salt and apply_pepper                                     *)
(* ================================================================== *)

(** A salt without ["$"] can be told from the text it is joined to. *)
Lemma apply_salt_unambiguous (t1 t2 s1 s2 : pystr) :
  ~ In dollar s1 -> ~ In dollar s2 ->
  apply_salt t1 s1 = apply_salt t2 s2 -> s1 = s2 /\ t1 = t2.
Proof.
  unfold apply_salt. change (str "$") with [dollar].
  revert s2; induction s1 as [|c s1 IH]; intros [|c' s2] H1 H2 E;
    simpl in *.
  - inversion E. auto.
  - inversion E; subst. exfalso. apply H2. auto.
  - inversion E; subst. exfalso. apply H1. auto.
  - inversion E; subst.
    destruct (IH s2) as [-> ->]; auto.
Qed.

(** X3.  Salts made by [generate_salt] keep salt and text apart: when two
    salted texts are equal, the salts are equal and the texts are equal. *)
Theorem generated_salt_unambiguous (n1 n2 : Z) (e1 e2 : entropy)
        (salt1 salt2 t1 t2 : pystr) :
  fst (generate_salt n1 e1) = Ok salt1 ->
  fst (generate_salt n2 e2) = Ok salt2 ->
  apply_salt t1 salt1 = apply_salt t2 salt2 ->
  salt1 = salt2 /\ t1 = t2.
Proof.
  intros H1 H2.
  assert (Hd : forall n e salt, fst (generate_salt n e) = Ok salt ->
                                ~ In dollar salt).
  { intros n e salt H.
    pose proof (generate_salt_returns _ _ _ H) as Hr.
    rewrite (generate_salt_value n e Hr) in H. cbn [fst] in H.
    inversion H; subst.
    exact (proj2 (b64_text_ascii _ (b64encode_chars _))). }
  apply apply_salt_unambiguous; eauto.
Qed.

Lemma generated_salt_unambiguous_witness :
  fst (generate_salt 16 counting_entropy)
  = Ok (str "AAECAwQFBgcICQoLDA0ODw==")
  /\ (str "AAECAwQFBgcICQoLDA0ODw==" = str "AAECAwQFBgcICQoLDA0ODw=="
      /\ str "secret-password" = str "secret-password").
Proof.
  split; [reflexivity|].
  apply (generated_salt_unambiguous 16 16 counting_entropy counting_entropy
           (str "AAECAwQFBgcICQoLDA0ODw==") (str "AAECAwQFBgcICQoLDA0ODw==")
           (str "secret-password") (str "secret-password")
           eq_refl eq_refl eq_refl).
Defined.

(** X4.  With a salt or a pepper that is not of that kind the boundary is
    lost: the salt [s$u] with the text [t] and the shorter salt [s] with
    the text [u$t] are two different pairs that give one string, and
    therefore one digest, under every algorithm and encoding.  The same
    holds for [apply_pepper]. *)
Theorem salt_boundary_shift (rt : Runtime) (s u t A encoding : pystr) :
  (length s < length (apply_salt u s))%nat
  /\ apply_salt t (apply_salt u s) = apply_salt (apply_salt t u) s
  /\ hash_text rt (apply_salt t (apply_salt u s)) A encoding
     = hash_text rt (apply_salt (apply_salt t u) s) A encoding
  /\ apply_pepper t (apply_pepper u s) = apply_pepper (apply_pepper t u) s
  /\ hash_text rt (apply_pepper t (apply_pepper u s)) A encoding
     = hash_text rt (apply_pepper (apply_pepper t u) s) A encoding.
Proof.
  assert (E : apply_salt t (apply_salt u s) = apply_salt (apply_salt t u) s).
  { unfold apply_salt. rewrite <- !app_assoc. reflexivity. }
  assert (E' : apply_pepper t (apply_pepper u s)
               = apply_pepper (apply_pepper t u) s) by exact E.
  split; [|split; [exact E|split; [|split; [exact E'|]]]].
  - unfold apply_salt. rewrite !length_app. simpl. lia.
  - rewrite E. reflexivity.
  - rewrite E'. reflexivity.
Qed.

(** The encoding of a salted text: the encoding of the salt, the octet of
    ["$"], the encoding of the text. *)
Lemma utf8_encode_apply_salt (text salt : pystr) (S T : bytes) :
  utf8_encode salt = Ok S -> utf8_encode text = Ok T ->
  utf8_encode (apply_salt text salt) = Ok (S ++ "$"%byte :: T).
Proof.
  intros HS HT. unfold apply_salt.
  rewrite utf8_encode_app, HS. cbn [bind].
  rewrite utf8_encode_app. change (utf8_encode (str "$")) with (Ok ["$"%byte]).
  cbn [bind]. rewrite HT. reflexivity.
Qed.

(** X5.  Hashing a salted text is hashing the file made of the octets of
    the salt, the octet of ["$"] and the octets of the text: on a supported
    algorithm [hash_text] of [apply_salt text salt] returns the digest that
    [hash_file_chunked] returns on a stream of those octets, for any chunk
    size from 1 to [sys.maxsize]. *)
Theorem salted_hash_is_file_hash (rt : Runtime) (A text salt : pystr)
        (S T : bytes) (chunk_size : Z) (fuel : nat) :
  In (lower rt A) DEFAULT_ALGOS ->
  utf8_encode salt = Ok S ->
  utf8_encode text = Ok T ->
  1 <= chunk_size <= PY_SSIZE_T_MAX ->
  (length (S ++ "$"%byte :: T) < fuel)%nat ->
  exists d,
    hash_text rt (apply_salt text salt) A (str "utf-8") = Ok d
    /\ r_out (hash_file_chunked rt fuel (stream_of (S ++ "$"%byte :: T)) A
                                chunk_size (@None (callback unit)) tt)
       = Some (Ok d).
Proof.
  intros HA HS HT [Hcs Hmax] Hfuel.
  apply builtin_algo_supported in HA. destruct HA as [a Ha].
  destruct (builtin_algo_digest _ _ Ha) as [f [Hf _]].
  exists (hexlify (f (S ++ "$"%byte :: T))).
  assert (Hd : hexdigest (mkHash a (S ++ "$"%byte :: T))
               = Ok (hexlify (f (S ++ "$"%byte :: T)))).
  { unfold hexdigest, digest. simpl. rewrite Hf. reflexivity. }
  split.
  - rewrite (hash_text_supported rt _ A _ a Ha).
    change (encode rt (apply_salt text salt) (str "utf-8"))
      with (utf8_encode (apply_salt text salt)).
    rewrite (utf8_encode_apply_salt _ _ _ _ HS HT). exact Hd.
  - rewrite (hash_file_chunked_stream rt A a _ chunk_size fuel None tt
               Ha Hcs Hmax Hfuel); [rewrite Hd; reflexivity|].
    intros c Hc. discriminate Hc.
Qed.

(** The text and a salt of the application's fourth tab. *)
Lemma salted_hash_is_file_hash_witness :
  exists d,
    hash_text small_runtime
              (apply_salt (str "secret-password") (str "AAECAw=="))
              (str "sha256") (str "utf-8") = Ok d
    /\ r_out (hash_file_chunked small_runtime 30
                (stream_of (ascii_bytes "AAECAw==$secret-password"))
                (str "sha256") 5 (@None (callback unit)) tt)
       = Some (Ok d).
Proof.
  apply (salted_hash_is_file_hash small_runtime (str "sha256")
           (str "secret-password") (str "AAECAw==")
           (ascii_bytes "AAECAw==") (ascii_bytes "secret-password") 5 30).
  - left; reflexivity.
  - reflexivity.
  - reflexivity.
  - unfold PY_SSIZE_T_MAX; lia.
  - simpl; lia.
Defined.

(* ================================================================== *)
(** ** hash_file_chunked on in-memory streams                          *)
(* ================================================================== *)

Lemma hash_bytes_resolved (rt : Runtime) (data : bytes) (A : pystr)
      (h : HashObj) :
  (ctor <- _get_hasher rt A ;; ctor tt) = Ok h ->
  hash_bytes rt data A = hexdigest (update h data).
Proof.
  unfold hash_bytes. destruct (_get_hasher rt A) as [ctor|e]; simpl;
    [|discriminate]. intros ->. reflexivity.
Qed.

Lemma hash_bytes_unresolved (rt : Runtime) (data : bytes) (A : pystr)
      (e : exn) :
  (ctor <- _get_hasher rt A ;; ctor tt) = Raise e ->
  hash_bytes rt data A = Raise e.
Proof.
  unfold hash_bytes. destruct (_get_hasher rt A) as [ctor|e']; simpl.
  - intros ->. reflexivity.
  - intros H; inversion H; reflexivity.
Qed.

(** [hash_text] is [hash_bytes] of the encoded text, once the text is
    encoded. *)
Lemma hash_text_hash_bytes (rt : Runtime) (text A encoding : pystr)
      (data : bytes) :
  encode rt text encoding = Ok data ->
  hash_text rt text A encoding = hash_bytes rt data A.
Proof.
  intros E. unfold hash_text, hash_bytes.
  destruct (_get_hasher rt A) as [ctor|e]; simpl; [|reflexivity].
  destruct (ctor tt); simpl; [|reflexivity]. rewrite E. reflexivity.
Qed.

Lemma hash_bytes_supported (rt : Runtime) (data : bytes) (A : pystr) :
  In (lower rt A) DEFAULT_ALGOS ->
  exists d, hash_bytes rt data A = Ok d
            /\ lowercase_hex d /\ length d = hex_length (lower rt A).
Proof.
  intros HA. apply builtin_algo_supported in HA. destruct HA as [a Ha].
  destruct (builtin_algo_digest _ _ Ha) as [f [Hf Hlen]].
  rewrite (hash_bytes_resolved rt data A _ (get_hasher_supported rt A a Ha)).
  exists (hexlify (f (data))). unfold hexdigest, digest. simpl. rewrite Hf.
  repeat split; [apply hexlify_lowercase | apply Hlen].
Qed.

(** Cutting a sequence into pieces of [n >= 1] items. *)
Lemma blocks_aux_enough {A} (n : nat) :
  (1 <= n)%nat ->
  forall (f1 f2 : nat) (l : list A),
    (length l <= f1)%nat -> (length l <= f2)%nat ->
    blocks_aux f1 n l = blocks_aux f2 n l.
Proof.
  intros Hn. induction f1 as [|f1 IH]; intros f2 l H1 H2.
  - destruct l; [|simpl in H1; lia]. destruct f2; reflexivity.
  - destruct l as [|x l]; [destruct f2; reflexivity|].
    destruct f2 as [|f2]; [simpl in H2; lia|].
    cbn [blocks_aux]. f_equal.
    apply IH; rewrite length_skipn; cbn [length] in *; lia.
Qed.

Lemma blocks_cons {A} (n : nat) (x : A) (l : list A) :
  (1 <= n)%nat ->
  blocks n (x :: l) = firstn n (x :: l) :: blocks n (skipn n (x :: l)).
Proof.
  intros Hn. unfold blocks. cbn [length blocks_aux]. f_equal.
  apply blocks_aux_enough; [exact Hn| |lia].
  rewrite length_skipn. cbn [length]. lia.
Qed.

(** Induction along the pieces. *)
Lemma blocks_ind {A} (n : nat) (Hn : (1 <= n)%nat) (P : list A -> Prop) :
  P [] ->
  (forall x l, P (skipn n (x :: l)) -> P (x :: l)) ->
  forall l, P l.
Proof.
  intros H0 Hstep l.
  assert (H : forall k l, (length l <= k)%nat -> P l).
  { induction k as [|k IH]; intros l' Hk.
    - destruct l'; [exact H0 | simpl in Hk; lia].
    - destruct l' as [|x l']; [exact H0|].
      apply Hstep, IH. rewrite length_skipn. cbn [length] in *. lia. }
  apply (H (length l)). lia.
Qed.

Lemma concat_blocks {A} (n : nat) (l : list A) :
  (1 <= n)%nat -> concat (blocks n l) = l.
Proof.
  intros Hn. induction l as [|x l IH] using (blocks_ind n Hn).
  - reflexivity.
  - rewrite (blocks_cons n x l Hn). cbn [concat]. rewrite IH.
    apply firstn_skipn.
Qed.

Lemma blocks_bounded {A} (n : nat) (l : list A) :
  (1 <= n)%nat ->
  Forall (fun b => (1 <= length b <= n)%nat) (blocks n l).
Proof.
  intros Hn. induction l as [|x l IH] using (blocks_ind n Hn).
  - constructor.
  - rewrite (blocks_cons n x l Hn). constructor; [|exact IH].
    rewrite length_firstn. cbn [length]. lia.
Qed.

Lemma blocks_length {A} (n : nat) (l : list A) :
  (1 <= n)%nat -> length (blocks n l) = ((length l + n - 1) / n)%nat.
Proof.
  intros Hn. induction l as [|x l IH] using (blocks_ind n Hn).
  - cbn. symmetry. apply Nat.div_small. lia.
  - rewrite (blocks_cons n x l Hn).
    change (length (firstn n (x :: l) :: blocks n (skipn n (x :: l))))
      with (S (length (blocks n (skipn n (x :: l))))).
    rewrite IH, length_skipn.
    assert (Hm : (1 <= length (x :: l))%nat) by (cbn [length]; lia).
    generalize dependent (length (x :: l)). intros m Hm.
    destruct (Nat.le_gt_cases n m) as [Hge|Hlt].
    + replace (m + n - 1)%nat with (m - n + n - 1 + 1 * n)%nat by lia.
      rewrite Nat.div_add by lia. lia.
    + replace (m - n)%nat with O by lia.
      rewrite (Nat.div_small (0 + n - 1)) by lia.
      apply (Nat.div_unique _ _ 1 (m - 1)); lia.
Qed.

(** The loop on an in-memory binary stream, without callback: what it
    leaves when it is given one iteration more than there are pieces. *)
Lemma read_loop_BytesIO_frame {W : Type} (chunk_size : Z) (buf : bytes) :
  1 <= chunk_size -> chunk_size <= PY_SSIZE_T_MAX ->
  forall fuel pos h total (w : W) reads fed calls,
    (length (blocks (Z.to_nat chunk_size) (skipn pos buf)) < fuel)%nat ->
    read_loop fuel chunk_size None
              (mkFrame (mkBytesIO buf pos) h total w reads fed calls)
    = (Broke,
       mkFrame (mkBytesIO buf (pos + length (skipn pos buf)))
               (update h (skipn pos buf))
               (total + len (skipn pos buf)) w
               (reads ++ map Bytes (blocks (Z.to_nat chunk_size)
                                           (skipn pos buf))
                      ++ [Bytes []])
               (fed ++ blocks (Z.to_nat chunk_size) (skipn pos buf))
               calls).
Proof.
  intros Hcs Hmax.
  assert (Hn : (1 <= Z.to_nat chunk_size)%nat) by lia.
  induction fuel as [|fuel IH]; intros pos h total w reads fed calls Hfuel;
    [lia|].
  cbn [read_loop read BytesIO_FileLike fr_file]. unfold BytesIO_read.
  rewrite (fits_ssize_t_pos chunk_size Hcs Hmax). cbn [bio_pos bio_buf].
  replace (chunk_size <? 0) with false by (symmetry; apply Z.ltb_ge; lia).
  remember (skipn pos buf) as rest eqn:Erest.
  destruct rest as [|x rest'].
  - change (blocks (Z.to_nat chunk_size) (@nil byte)) with (@nil (list byte)).
    rewrite firstn_nil.
    cbn [chunk_falsy fr_h fr_total fr_world fr_reads fr_fed fr_calls
         length map app].
    rewrite Nat.min_0_r, update_nil, app_nil_r, !Nat.add_0_r.
    change (len (@nil byte)) with 0. rewrite Z.add_0_r.
    reflexivity.
  - rewrite (blocks_cons _ x rest' Hn) in Hfuel |- *.
    remember (Nat.min (Z.to_nat chunk_size) (length (x :: rest'))) as n
      eqn:En.
    assert (Hfirst : firstn n (x :: rest')
                     = firstn (Z.to_nat chunk_size) (x :: rest')).
    { subst n. destruct (Nat.le_gt_cases (Z.to_nat chunk_size)
                                         (length (x :: rest'))) as [H|H].
      - rewrite Nat.min_l by lia. reflexivity.
      - rewrite Nat.min_r by lia.
        rewrite firstn_all, firstn_all2 by lia. reflexivity. }
    assert (Hskip : skipn (pos + n) buf
                    = skipn (Z.to_nat chunk_size) (x :: rest')).
    { rewrite Nat.add_comm, <- skipn_skipn, <- Erest. subst n.
      destruct (Nat.le_gt_cases (Z.to_nat chunk_size)
                                (length (x :: rest'))) as [H|H].
      - rewrite Nat.min_l by lia. reflexivity.
      - rewrite Nat.min_r by lia.
        rewrite skipn_all, skipn_all2 by lia. reflexivity. }
    assert (Hlen : length (x :: rest')
                   = (length (firstn (Z.to_nat chunk_size) (x :: rest'))
                      + length (skipn (Z.to_nat chunk_size) (x :: rest')))%nat).
    { rewrite <- length_app, firstn_skipn. reflexivity. }
    assert (Hn' : n = length (firstn (Z.to_nat chunk_size) (x :: rest'))).
    { subst n. rewrite length_firstn. reflexivity. }
    rewrite Hfirst.
    assert (Hne : exists y ys,
               firstn (Z.to_nat chunk_size) (x :: rest') = y :: ys).
    { destruct (Z.to_nat chunk_size); [lia|]. simpl. eauto. }
    destruct Hne as (y & ys & Hys). rewrite Hys. cbn [chunk_falsy].
    rewrite <- Hys.
    cbn [fr_h fr_total fr_world fr_reads fr_fed fr_calls].
    rewrite IH.
    2: { rewrite Hskip. cbn [length] in Hfuel. lia. }
    rewrite Hskip. f_equal. f_equal.
    + f_equal. lia.
    + rewrite update_update, firstn_skipn. reflexivity.
    + unfold len. rewrite Hlen. lia.
    + cbn [map app]. rewrite <- !app_assoc. reflexivity.
    + rewrite <- app_assoc. reflexivity.
Qed.

(** The call on an in-memory binary stream, without callback. *)
Lemma hash_file_chunked_BytesIO_run {W : Type} (rt : Runtime) (A : pystr)
      (buf : bytes) (pos : nat) (chunk_size : Z) (fuel : nat) (w : W)
      (h : HashObj) :
  (ctor <- _get_hasher rt A ;; ctor tt) = Ok h ->
  1 <= chunk_size -> chunk_size <= PY_SSIZE_T_MAX ->
  (length (blocks (Z.to_nat chunk_size) (skipn pos buf)) < fuel)%nat ->
  hash_file_chunked rt fuel (mkBytesIO buf pos) A chunk_size None w
  = mkRun (Some (hash_bytes rt (skipn pos buf) A))
          (mkBytesIO buf (pos + length (skipn pos buf))) w
          (map Bytes (blocks (Z.to_nat chunk_size) (skipn pos buf))
             ++ [Bytes []])
          (blocks (Z.to_nat chunk_size) (skipn pos buf)) [].
Proof.
  intros Hres Hcs Hmax Hfuel.
  rewrite (hash_file_chunked_resolved _ _ _ _ _ _ _ h Hres). cbv zeta.
  rewrite (read_loop_BytesIO_frame chunk_size buf Hcs Hmax fuel pos h 0 w
             [] [] [] Hfuel).
  cbn [fst snd fr_file fr_h fr_world fr_reads fr_fed fr_calls app].
  rewrite (hash_bytes_resolved rt _ A h Hres). reflexivity.
Qed.

Lemma len_blocks (n : Z) (S : bytes) :
  1 <= n -> len (blocks (Z.to_nat n) S) = (len S + n - 1) / n.
Proof.
  intros Hn. unfold len. rewrite blocks_length by lia.
  rewrite Nat2Z.inj_div, Nat2Z.inj_sub, Nat2Z.inj_add, Z2Nat.id by lia.
  reflexivity.
Qed.

(** The call on a stream of [S] with any callback that raises errors
    only. *)
Lemma hash_file_chunked_stream_run {W : Type} (rt : Runtime) (A : pystr)
      (S : bytes) (chunk_size : Z) (fuel : nat) (cb : option (callback W))
      (w : W) :
  In (lower rt A) DEFAULT_ALGOS ->
  1 <= chunk_size -> chunk_size <= PY_SSIZE_T_MAX ->
  (len S + chunk_size - 1) / chunk_size < Z.of_nat fuel ->
  (forall c, cb = Some c -> raises_only_errors c) ->
  let r := hash_file_chunked rt fuel (stream_of S) A chunk_size cb w in
  r_out r = Some (hash_bytes rt S A)
  /\ r_file r = mkBytesIO S (length S)
  /\ r_reads r = map Bytes (blocks (Z.to_nat chunk_size) S) ++ [Bytes []]
  /\ r_fed r = blocks (Z.to_nat chunk_size) S
  /\ r_calls r = if has_callback cb
                 then running_totals 0 (blocks (Z.to_nat chunk_size) S)
                 else [].
Proof.
  intros HA Hcs Hmax Hfuel Hcb. cbv zeta.
  apply builtin_algo_supported in HA. destruct HA as [a Ha].
  pose proof (get_hasher_supported rt A a Ha) as Hres.
  assert (Hfuel' : (length (blocks (Z.to_nat chunk_size) (skipn 0 S)) < fuel)%nat).
  { cbn [skipn]. pose proof (len_blocks chunk_size S Hcs) as H.
    unfold len in *. lia. }
  pose proof (hash_file_chunked_BytesIO_run (W := W) rt A S 0 chunk_size fuel
                w _ Hres Hcs Hmax Hfuel') as Hrun.
  cbn [skipn Nat.add] in Hrun. fold (stream_of S) in Hrun.
  destruct cb as [c|].
  - destruct (hash_file_chunked_swallows rt fuel (stream_of S) A chunk_size
                c w (Hcb c eq_refl)) as (Hout & Hfile & Hreads & Hfed).
    destruct (hash_file_chunked_inv rt fuel (stream_of S) A chunk_size
                (Some c) w) as (_ & _ & Hcalls).
    cbn [has_callback] in *.
    rewrite Hcalls, Hout, Hfile, Hreads, Hfed, Hrun. cbn. auto.
  - rewrite Hrun. cbn. auto.
Qed.

(** X6.  On a stream of [S] with a chunk size [c] from 1 to [sys.maxsize]
    the hash object is fed [S] cut into [ceil(len S / c)] pieces of at most [c] octets, in
    order and without gap, so no more than [c] octets are held at a time;
    the stream has been read once more than there are pieces, and is left
    at its end; a callback has been called with the totals up to
    [len S]. *)
Theorem chunks_are_bounded {W : Type} (rt : Runtime) (A : pystr) (S : bytes)
        (chunk_size : Z) (fuel : nat) (cb : option (callback W)) (w : W) :
  In (lower rt A) DEFAULT_ALGOS ->
  1 <= chunk_size <= PY_SSIZE_T_MAX ->
  (len S + chunk_size - 1) / chunk_size < Z.of_nat fuel ->
  (forall c, cb = Some c -> raises_only_errors c) ->
  let r := hash_file_chunked rt fuel (stream_of S) A chunk_size cb w in
  concat (r_fed r) = S
  /\ Forall (fun d => 1 <= len d <= chunk_size) (r_fed r)
  /\ len (r_fed r) = (len S + chunk_size - 1) / chunk_size
  /\ len (r_reads r) = (len S + chunk_size - 1) / chunk_size + 1
  /\ r_file r = mkBytesIO S (length S)
  /\ (has_callback cb = true ->
      len (r_calls r) = (len S + chunk_size - 1) / chunk_size
      /\ last (r_calls r) 0 = len S).
Proof.
  intros HA [Hcs Hmax] Hfuel Hcb. cbv zeta.
  destruct (hash_file_chunked_stream_run rt A S chunk_size fuel cb w
              HA Hcs Hmax Hfuel Hcb) as (_ & Hfile & Hreads & Hfed & Hcalls).
  assert (Hn : (1 <= Z.to_nat chunk_size)%nat) by lia.
  rewrite Hfile, Hreads, Hfed, Hcalls.
  split; [apply concat_blocks; exact Hn|].
  split.
  { eapply Forall_impl; [|apply (blocks_bounded _ S Hn)].
    cbv beta. unfold len. intros d Hd. lia. }
  split; [apply len_blocks; exact Hcs|].
  split.
  { pose proof (len_blocks chunk_size S Hcs) as H.
    unfold len in *. rewrite length_app, length_map. cbn [length]. lia. }
  split; [reflexivity|].
  intros ->. split.
  - unfold len at 1. rewrite running_totals_length.
    apply len_blocks; exact Hcs.
  - rewrite running_totals_last, concat_blocks by exact Hn. lia.
Qed.

(** Ten octets in pieces of three, with a callback that fails. *)
Lemma chunks_are_bounded_witness :
  (In (lower small_runtime (str "sha1")) DEFAULT_ALGOS
   /\ (len (ascii_bytes "hola mundo") + 3 - 1) / 3 < Z.of_nat 5)
  /\ len (r_fed (hash_file_chunked small_runtime 5
                   (stream_of (ascii_bytes "hola mundo")) (str "sha1") 3
                   (Some failing_callback) O)) = 4
  /\ last (r_calls (hash_file_chunked small_runtime 5
                      (stream_of (ascii_bytes "hola mundo")) (str "sha1") 3
                      (Some failing_callback) O)) 0 = 10.
Proof.
  assert (HA : In (lower small_runtime (str "sha1")) DEFAULT_ALGOS)
    by (right; left; reflexivity).
  assert (Hf : (len (ascii_bytes "hola mundo") + 3 - 1) / 3 < Z.of_nat 5)
    by reflexivity.
  split; [split; assumption|].
  destruct (chunks_are_bounded small_runtime (str "sha1")
              (ascii_bytes "hola mundo") 3 5 (Some failing_callback) O
              HA ltac:(unfold PY_SSIZE_T_MAX; lia) Hf)
    as (_ & _ & Hfed & _ & _ & Hcalls).
  { intros c Hc. inversion Hc; subst.
    exact failing_callback_raises_only_errors. }
  split; [exact Hfed|]. exact (proj2 (Hcalls eq_refl)).
Defined.

(** X7.  With a chunk size from 1 to [sys.maxsize], [hash_file_chunked]
    hashes what lies between the position of the stream and its end, and
    leaves the stream at its end: it does not rewind.  A second call on the
    same stream therefore returns the digest of the empty input. *)
Theorem hashes_from_the_position (rt : Runtime) (A : pystr) (buf : bytes)
        (pos : nat) (chunk_size : Z) (fuel : nat) :
  In (lower rt A) DEFAULT_ALGOS ->
  1 <= chunk_size <= PY_SSIZE_T_MAX ->
  (length buf < fuel)%nat ->
  let r := hash_file_chunked rt fuel (mkBytesIO buf pos) A chunk_size
                             (@None (callback unit)) tt in
  r_out r = Some (hash_bytes rt (skipn pos buf) A)
  /\ r_file r = mkBytesIO buf (Nat.max pos (length buf))
  /\ r_out (hash_file_chunked rt fuel (r_file r) A chunk_size
                              (@None (callback unit)) tt)
     = Some (hash_bytes rt [] A).
Proof.
  intros HA [Hcs Hmax] Hfuel. cbv zeta.
  apply builtin_algo_supported in HA. destruct HA as [a Ha].
  pose proof (get_hasher_supported rt A a Ha) as Hres.
  assert (Hn : (1 <= Z.to_nat chunk_size)%nat) by lia.
  assert (Hb : forall l : bytes, (length l <= length buf)%nat ->
                 (length (blocks (Z.to_nat chunk_size) l) < fuel)%nat).
  { intros l Hl. rewrite blocks_length by exact Hn.
    apply Nat.le_lt_trans with (length l); [|lia].
    destruct (length l) as [|m]; [rewrite Nat.div_small; lia|].
    apply Nat.Div0.div_le_upper_bound. nia. }
  rewrite (hash_file_chunked_BytesIO_run (W := unit) rt A buf pos chunk_size
             fuel tt _ Hres Hcs Hmax).
  2: { apply Hb. rewrite length_skipn. lia. }
  cbn [r_out r_file].
  assert (Hpos : (pos + length (skipn pos buf) = Nat.max pos (length buf))%nat).
  { rewrite length_skipn. lia. }
  rewrite Hpos. split; [reflexivity|]. split; [reflexivity|].
  rewrite (hash_file_chunked_BytesIO_run (W := unit) rt A buf _ chunk_size
             fuel tt _ Hres Hcs Hmax).
  2: { apply Hb. rewrite length_skipn. lia. }
  cbn [r_out]. rewrite skipn_all2 by lia. reflexivity.
Qed.

(** "hola mundo" with the first five octets already read. *)
Lemma hashes_from_the_position_witness :
  In (lower small_runtime (str "sha1")) DEFAULT_ALGOS
  /\ r_out (hash_file_chunked small_runtime 11
              (mkBytesIO (ascii_bytes "hola mundo") 5) (str "sha1") 3
              (@None (callback unit)) tt)
     = Some (hash_bytes small_runtime (skipn 5 (ascii_bytes "hola mundo"))
                        (str "sha1"))
  /\ skipn 5 (ascii_bytes "hola mundo") = ascii_bytes "mundo".
Proof.
  assert (HA : In (lower small_runtime (str "sha1")) DEFAULT_ALGOS)
    by (right; left; reflexivity).
  split; [exact HA|]. split; [|reflexivity].
  destruct (hashes_from_the_position small_runtime (str "sha1")
              (ascii_bytes "hola mundo") 5 3 11 HA) as [Hout _];
    [unfold PY_SSIZE_T_MAX; lia | simpl; lia |].
  exact Hout.
Defined.

(** X8.  With a chunk size of 0 the first [read] returns nothing: the call
    returns the digest of the empty input whatever the stream holds,
    without reading the stream, feeding the hash object or calling the
    callback. *)
Theorem zero_chunk_size_hashes_nothing {W : Type} (rt : Runtime) (A : pystr)
        (S : bytes) (fuel : nat) (cb : option (callback W)) (w : W) :
  let r := hash_file_chunked rt (Datatypes.S fuel) (stream_of S) A 0 cb w in
  r_out r = Some (hash_bytes rt [] A)
  /\ r_file r = stream_of S
  /\ r_fed r = [] /\ r_calls r = [] /\ r_world r = w.
Proof.
  cbv zeta.
  destruct (ctor <- _get_hasher rt A ;; ctor tt) as [h|e] eqn:Hres.
  - rewrite (hash_file_chunked_resolved _ _ _ _ _ _ _ h Hres). cbv zeta.
    rewrite (hash_bytes_resolved rt [] A h Hres), update_nil.
    repeat split.
  - rewrite (hash_file_chunked_unresolved _ _ _ _ _ _ _ e Hres).
    rewrite (hash_bytes_unresolved rt [] A e Hres). repeat split.
Qed.

(** The call with a negative chunk size, without callback: one [read]
    returns the whole content. *)
Lemma hash_file_chunked_negative_run {W : Type} (rt : Runtime) (A : pystr)
      (S : bytes) (chunk_size : Z) (fuel : nat) (w : W) (h : HashObj) :
  (ctor <- _get_hasher rt A ;; ctor tt) = Ok h ->
  PY_SSIZE_T_MIN <= chunk_size < 0 ->
  S <> [] ->
  hash_file_chunked rt (Datatypes.S (Datatypes.S fuel)) (stream_of S) A
                    chunk_size None w
  = mkRun (Some (hash_bytes rt S A)) (mkBytesIO S (length S)) w
          [Bytes S; Bytes []] [S] [].
Proof.
  intros Hres Hcs HS.
  rewrite (hash_file_chunked_resolved _ _ _ _ _ _ _ h Hres). cbv zeta.
  rewrite (hash_bytes_resolved rt S A h Hres).
  unfold stream_of.
  cbn [read_loop read BytesIO_FileLike fr_file]. unfold BytesIO_read.
  replace (fits_ssize_t chunk_size) with true
    by (symmetry; apply fits_ssize_t_iff; unfold PY_SSIZE_T_MAX; lia).
  cbn [bio_pos bio_buf skipn].
  replace (chunk_size <? 0) with true by (symmetry; apply Z.ltb_lt; lia).
  rewrite firstn_all.
  destruct S as [|x S']; [congruence|].
  cbn [chunk_falsy fr_h fr_total fr_world fr_reads fr_fed fr_calls
       fr_file bio_pos bio_buf app Nat.add].
  rewrite skipn_all, firstn_nil.
  cbn [chunk_falsy fr_h fr_total fr_world fr_reads fr_fed fr_calls
       fr_file bio_pos bio_buf app fst snd length].
  rewrite Nat.add_0_r. reflexivity.
Qed.

(** X9.  With a negative chunk size, down to [-sys.maxsize - 1], the whole
    content of the stream is read and fed as one chunk: the digest is the
    same, the callback is called once, with the length of the content, and
    the bound on the octets held at a time is lost. *)
Theorem negative_chunk_size_reads_all {W : Type} (rt : Runtime) (A : pystr)
        (S : bytes) (chunk_size : Z) (fuel : nat) (cb : option (callback W))
        (w : W) :
  In (lower rt A) DEFAULT_ALGOS ->
  PY_SSIZE_T_MIN <= chunk_size < 0 ->
  S <> [] ->
  (forall c, cb = Some c -> raises_only_errors c) ->
  let r := hash_file_chunked rt (Datatypes.S (Datatypes.S fuel)) (stream_of S)
                             A chunk_size cb w in
  r_out r = Some (hash_bytes rt S A)
  /\ r_fed r = [S]
  /\ r_calls r = if has_callback cb then [len S] else [].
Proof.
  intros HA Hcs HS Hcb. cbv zeta.
  apply builtin_algo_supported in HA. destruct HA as [a Ha].
  pose proof (get_hasher_supported rt A a Ha) as Hres.
  pose proof (hash_file_chunked_negative_run (W := W) rt A S chunk_size fuel
                w _ Hres Hcs HS) as Hrun.
  destruct cb as [c|].
  - destruct (hash_file_chunked_swallows rt (Datatypes.S (Datatypes.S fuel))
                (stream_of S) A chunk_size c w (Hcb c eq_refl))
      as (Hout & _ & _ & Hfed).
    destruct (hash_file_chunked_inv rt (Datatypes.S (Datatypes.S fuel))
                (stream_of S) A chunk_size (Some c) w) as (_ & _ & Hcalls).
    cbn [has_callback] in *.
    rewrite Hcalls, Hout, Hfed, Hrun. cbn [r_out r_fed running_totals].
    rewrite Z.add_0_l. auto.
  - rewrite Hrun. cbn. auto.
Qed.

Lemma negative_chunk_size_reads_all_witness :
  (In (lower small_runtime (str "sha1")) DEFAULT_ALGOS
   /\ ascii_bytes "hola mundo" <> [])
  /\ r_calls (hash_file_chunked small_runtime 2
                (stream_of (ascii_bytes "hola mundo")) (str "sha1") (-1)
                (Some failing_callback) O)
     = [len (ascii_bytes "hola mundo")].
Proof.
  assert (HA : In (lower small_runtime (str "sha1")) DEFAULT_ALGOS)
    by (right; left; reflexivity).
  assert (HS : ascii_bytes "hola mundo" <> []) by discriminate.
  split; [split; assumption|].
  destruct (negative_chunk_size_reads_all small_runtime (str "sha1")
              (ascii_bytes "hola mundo") (-1) 0 (Some failing_callback) O
              HA ltac:(unfold PY_SSIZE_T_MIN; lia) HS) as (_ & _ & Hcalls).
  { intros c Hc. inversion Hc; subst.
    exact failing_callback_raises_only_errors. }
  exact Hcalls.
Defined.

(** X10.  What the callback raises outside [Exception] is not caught: when
    the first call of the callback raises such an exception, the call of
    [hash_file_chunked], with a chunk size from 1 to [sys.maxsize], ends
    with it, after one chunk, and returns no digest. *)
Theorem interrupt_ends_the_call {W : Type} (rt : Runtime) (A : pystr)
        (S : bytes) (chunk_size : Z) (fuel : nat) (cb : callback W)
        (w w' : W) (e : exn) :
  In (lower rt A) DEFAULT_ALGOS ->
  1 <= chunk_size <= PY_SSIZE_T_MAX ->
  S <> [] ->
  cb (len (firstn (Z.to_nat chunk_size) S)) w = (Raise e, w') ->
  is_Exception e = false ->
  hash_file_chunked rt (Datatypes.S fuel) (stream_of S) A chunk_size
                    (Some cb) w
  = mkRun (Some (Raise e))
          (mkBytesIO S (length (firstn (Z.to_nat chunk_size) S))) w'
          [Bytes (firstn (Z.to_nat chunk_size) S)]
          [firstn (Z.to_nat chunk_size) S]
          [len (firstn (Z.to_nat chunk_size) S)].
Proof.
  intros HA [Hcs Hmax] HS Hraise He.
  apply builtin_algo_supported in HA. destruct HA as [a Ha].
  rewrite (hash_file_chunked_resolved _ _ _ _ _ _ _ _
             (get_hasher_supported rt A a Ha)). cbv zeta.
  unfold stream_of.
  cbn [read_loop read BytesIO_FileLike fr_file]. unfold BytesIO_read.
  rewrite (fits_ssize_t_pos chunk_size Hcs Hmax). cbn [bio_pos bio_buf skipn].
  replace (chunk_size <? 0) with false by (symmetry; apply Z.ltb_ge; lia).
  assert (Hfirst : firstn (Nat.min (Z.to_nat chunk_size) (length S)) S
                   = firstn (Z.to_nat chunk_size) S).
  { destruct (Nat.le_gt_cases (Z.to_nat chunk_size) (length S)) as [H|H].
    - rewrite Nat.min_l by lia. reflexivity.
    - rewrite Nat.min_r by lia.
      rewrite firstn_all, firstn_all2 by lia. reflexivity. }
  assert (Hmin : Nat.min (Z.to_nat chunk_size) (length S)
                 = length (firstn (Z.to_nat chunk_size) S)).
  { rewrite length_firstn. reflexivity. }
  rewrite Hfirst, Hmin.
  assert (Hne : exists y ys, firstn (Z.to_nat chunk_size) S = y :: ys).
  { destruct S as [|x S']; [congruence|].
    destruct (Z.to_nat chunk_size) eqn:E; [lia|]. simpl. eauto. }
  destruct Hne as (y & ys & Hys). rewrite Hys. cbn [chunk_falsy].
  rewrite <- Hys.
  cbn [fr_h fr_total fr_world fr_reads fr_fed fr_calls app].
  rewrite Z.add_0_l, Hraise, He. reflexivity.
Qed.

Lemma interrupt_ends_the_call_witness :
  (In (lower small_runtime (str "sha1")) DEFAULT_ALGOS
   /\ ascii_bytes "hola mundo" <> []
   /\ is_Exception KeyboardInterrupt = false)
  /\ r_out (hash_file_chunked small_runtime 11
              (stream_of (ascii_bytes "hola mundo")) (str "sha1") 3
              (Some interrupted_callback) O)
     = Some (Raise KeyboardInterrupt).
Proof.
  assert (HA : In (lower small_runtime (str "sha1")) DEFAULT_ALGOS)
    by (right; left; reflexivity).
  assert (HS : ascii_bytes "hola mundo" <> []) by discriminate.
  split; [repeat split; assumption|].
  rewrite (interrupt_ends_the_call small_runtime (str "sha1")
             (ascii_bytes "hola mundo") 3 10 interrupted_callback
             O 1%nat KeyboardInterrupt HA ltac:(unfold PY_SSIZE_T_MAX; lia)
             HS eq_refl eq_refl).
  reflexivity.
Defined.

(** X11.  Whatever the stream is and whatever it hands over, a digest that
    is returned is the digest of the non-empty chunks read, text chunks
    encoded in UTF-8, joined in the order of arrival. *)
Theorem digest_of_what_was_read {F W : Type} `{FL : FileLike F}
        (rt : Runtime) (fuel : nat) (file : F) (A : pystr) (chunk_size : Z)
        (cb : option (callback W)) (w : W) (d : pystr) :
  r_out (hash_file_chunked rt fuel file A chunk_size cb w) = Some (Ok d) ->
  hash_bytes rt
    (concat (feedable (r_reads (hash_file_chunked rt fuel file A chunk_size
                                                  cb w)))) A
  = Ok d.
Proof.
  intros Hout.
  destruct (hash_file_chunked_inv rt fuel file A chunk_size cb w)
    as (Hfed & _ & _).
  rewrite <- Hfed.
  destruct (ctor <- _get_hasher rt A ;; ctor tt) as [h|e] eqn:Hres.
  - rewrite (hash_bytes_resolved rt _ A h Hres).
    apply (hash_file_chunked_digest_of_fed rt fuel file A chunk_size cb w
             h d Hres Hout).
  - rewrite (hash_file_chunked_unresolved _ _ _ _ _ _ _ e Hres) in Hout.
    discriminate Hout.
Qed.

(** A stream that hands over text, octets, text again and then nothing. *)
Lemma digest_of_what_was_read_witness :
  r_out (hash_file_chunked small_runtime 5
           [Text (str "hola"); Bytes (ascii_bytes " mun"); Text (str "do")]
           (str "sha1") 8192 (@None (callback unit)) tt)
  = Some (Ok (str "459567d3bde4418b7fe302ff9809c4b0befaf7dd"))
  /\ hash_bytes small_runtime (ascii_bytes "hola mundo") (str "sha1")
     = Ok (str "459567d3bde4418b7fe302ff9809c4b0befaf7dd").
Proof.
  assert (Hout : r_out (hash_file_chunked small_runtime 5
           [Text (str "hola"); Bytes (ascii_bytes " mun"); Text (str "do")]
           (str "sha1") 8192 (@None (callback unit)) tt)
  = Some (Ok (str "459567d3bde4418b7fe302ff9809c4b0befaf7dd")))
    by (vm_compute; reflexivity).
  split; [exact Hout|].
  exact (digest_of_what_was_read small_runtime 5 _ (str "sha1") 8192 None tt
           _ Hout).
Defined.

(* ================================================================== *)
(** ** _get_hasher, beyond the supported names                         *)
(* ================================================================== *)

(** [_get_hasher] on a name of one of the two sets. *)
Lemma get_hasher_listed (rt : Runtime) (name : pystr) :
  str_in (lower rt name) (algorithms_available rt)
  || str_in (lower rt name) algorithms_guaranteed = true ->
  _get_hasher rt name = Ok (fun _ => hashlib_new rt (lower rt name) []).
Proof.
  intros H. unfold _get_hasher.
  rewrite <- negb_orb, H. reflexivity.
Qed.

(** X12.  The special case of [_get_hasher] for blake2b is never taken:
    blake2b is a guaranteed name, so a name that fails the first test is
    not blake2b.  The function raises exactly for the names that are in
    neither set, and returns the constructor [hashlib.new(name)] for all
    others. *)
Theorem get_hasher_fallback_is_dead (rt : Runtime) (name : pystr) :
  _get_hasher rt name
  = if str_in (lower rt name) (algorithms_available rt)
       || str_in (lower rt name) algorithms_guaranteed
    then Ok (fun _ => hashlib_new rt (lower rt name) [])
    else Raise (ValueError (unsupported_msg (lower rt name))).
Proof.
  unfold _get_hasher.
  destruct (str_in (lower rt name) (algorithms_available rt)) eqn:Hav;
    destruct (str_in (lower rt name) algorithms_guaranteed) eqn:Hg;
    cbn [negb andb orb]; try reflexivity.
  destruct (str_eqb (lower rt name) (str "blake2b")) eqn:E;
    cbn [andb]; [|reflexivity].
  apply str_eqb_eq in E. rewrite E in Hg. vm_compute in Hg. discriminate Hg.
Qed.

Lemma lower_ascii (rt : Runtime) (A : pystr) :
  is_ascii A = true -> lower rt A = map ascii_lower_cp A.
Proof. intros H. unfold lower. rewrite H. reflexivity. Qed.

(** X13.  The three entry points take the algorithm name without regard to
    the case of its letters: two ASCII names that are equal once in lower
    case behave alike in [hash_text], in [hash_file_chunked] and in
    [hmac_text]. *)
Theorem algorithm_names_ignore_case (rt : Runtime) (A A' : pystr) :
  is_ascii A = true -> is_ascii A' = true ->
  map ascii_lower_cp A = map ascii_lower_cp A' ->
  (forall text encoding,
      hash_text rt text A encoding = hash_text rt text A' encoding)
  /\ (forall (F W : Type) (FL : FileLike F) fuel (file : F) chunk_size
             (cb : option (callback W)) (w : W),
         hash_file_chunked rt fuel file A chunk_size cb w
         = hash_file_chunked rt fuel file A' chunk_size cb w)
  /\ (forall text key encoding,
         hmac_text rt text key A encoding = hmac_text rt text key A' encoding).
Proof.
  intros HA HA' E.
  assert (Hl : lower rt A = lower rt A').
  { rewrite !lower_ascii by assumption. exact E. }
  assert (Hg : _get_hasher rt A = _get_hasher rt A').
  { unfold _get_hasher. rewrite Hl. reflexivity. }
  split; [|split].
  - intros. unfold hash_text. rewrite Hg. reflexivity.
  - intros. unfold hash_file_chunked. rewrite Hg. reflexivity.
  - intros. rewrite !hmac_text_steps, Hl. reflexivity.
Qed.

Lemma algorithm_names_ignore_case_witness :
  map ascii_lower_cp (str "Sha256") = map ascii_lower_cp (str "SHA256")
  /\ hash_text small_runtime (str "hola mundo") (str "Sha256") (str "utf-8")
     = hash_text small_runtime (str "hola mundo") (str "SHA256") (str "utf-8").
Proof.
  split; [reflexivity|].
  apply (algorithm_names_ignore_case small_runtime (str "Sha256")
           (str "SHA256") eq_refl eq_refl eq_refl).
Defined.

(** X14.  Passing the test of [_get_hasher] does not promise a digest.  For
    an extendable-output algorithm of the provider (the SHAKEs, which are
    guaranteed names) [hexdigest()] without a length raises [TypeError]:
    [hash_text] raises it after encoding the text, and
    [hash_file_chunked], with a chunk size from 1 to [sys.maxsize], after
    reading the stream to its end. *)
Theorem extendable_output_has_no_digest (rt : Runtime) (A : pystr) (a : Algo) :
  str_in (lower rt A) (algorithms_available rt)
  || str_in (lower rt A) algorithms_guaranteed = true ->
  builtin_algo (lower rt A) = None ->
  provider_new rt (lower rt A) = Some a ->
  algo_digest a = None ->
  (forall text encoding data,
      encode rt text encoding = Ok data ->
      hash_text rt text A encoding = Raise TypeError)
  /\ (forall (S : bytes) chunk_size fuel,
         1 <= chunk_size <= PY_SSIZE_T_MAX ->
         (length S < fuel)%nat ->
         let r := hash_file_chunked rt fuel (stream_of S) A chunk_size
                                    (@None (callback unit)) tt in
         r_out r = Some (Raise TypeError)
         /\ concat (r_fed r) = S
         /\ r_file r = mkBytesIO S (length S)).
Proof.
  intros Hin Hb Hp Hd.
  assert (Hres : (ctor <- _get_hasher rt A ;; ctor tt) = Ok (mkHash a [])).
  { rewrite (get_hasher_listed rt A Hin).
    cbn [bind]. unfold hashlib_new. rewrite Hb, Hp. reflexivity. }
  assert (Hx : forall data, hash_bytes rt data A = Raise TypeError).
  { intros data. rewrite (hash_bytes_resolved rt data A _ Hres).
    unfold hexdigest, digest. cbn [update h_algo]. rewrite Hd. reflexivity. }
  split.
  - intros text encoding data E.
    rewrite (hash_text_hash_bytes rt text A encoding data E). apply Hx.
  - intros S chunk_size fuel [Hcs Hmax] Hfuel. cbv zeta.
    assert (Hn : (1 <= Z.to_nat chunk_size)%nat) by lia.
    unfold stream_of.
    rewrite (hash_file_chunked_BytesIO_run (W := unit) rt A S 0 chunk_size
               fuel tt _ Hres Hcs Hmax).
    2: { cbn [skipn]. rewrite blocks_length by exact Hn.
         apply Nat.le_lt_trans with (length S); [|lia].
         destruct (length S) as [|m]; [rewrite Nat.div_small; lia|].
         apply Nat.Div0.div_le_upper_bound. nia. }
    cbn [r_out r_fed r_file skipn Nat.add]. rewrite Hx.
    repeat split. apply concat_blocks. exact Hn.
Qed.

Lemma extendable_output_has_no_digest_witness :
  hash_text shake_runtime (str "hola mundo") (str "shake_128") (str "utf-8")
  = Raise TypeError
  /\ r_out (hash_file_chunked shake_runtime 11
              (stream_of (ascii_bytes "hola mundo")) (str "SHAKE_128") 3
              (@None (callback unit)) tt)
     = Some (Raise TypeError).
Proof.
  split.
  - apply (proj1 (extendable_output_has_no_digest shake_runtime
                    (str "shake_128") (mkAlgo (str "shake_128") 168 0 None)
                    eq_refl eq_refl eq_refl eq_refl)
             (str "hola mundo") (str "utf-8") (ascii_bytes "hola mundo")
             eq_refl).
  - destruct (proj2 (extendable_output_has_no_digest shake_runtime
                      (str "SHAKE_128") (mkAlgo (str "shake_128") 168 0 None)
                      eq_refl eq_refl eq_refl eq_refl)
               (ascii_bytes "hola mundo") 3 11%nat) as [Hout _];
      [unfold PY_SSIZE_T_MAX; lia | simpl; lia | exact Hout].
Defined.

(* ================================================================== *)
(** ** compare_hashes, beyond equality                                 *)
(* ================================================================== *)

(** X15.  The order of the arguments of [compare_hashes] does not matter,
    for the value returned as for the error raised. *)
Theorem compare_hashes_symmetric (a b : pystr) :
  compare_hashes a b = compare_hashes b a.
Proof.
  unfold compare_hashes, compare_digest. rewrite (andb_comm (is_ascii a)).
  destruct (is_ascii b && is_ascii a); [|reflexivity].
  f_equal. destruct (tscmp a b) eqn:E1, (tscmp b a) eqn:E2; try reflexivity.
  - apply tscmp_eq in E1. subst. rewrite (proj2 (tscmp_eq b b) eq_refl) in E2.
    discriminate E2.
  - apply tscmp_eq in E2. subst. rewrite (proj2 (tscmp_eq a a) eq_refl) in E1.
    discriminate E1.
Qed.

Lemma lowercase_hex_ascii (d : pystr) : lowercase_hex d -> is_ascii d = true.
Proof.
  unfold lowercase_hex.
  assert (Hh : forall c, In c hexdigits -> (c <? 128)%N = true).
  { apply Forall_forall. repeat constructor. }
  induction 1 as [|c d Hc _ IH]; [reflexivity|].
  simpl. rewrite (Hh c Hc), IH. reflexivity.
Qed.

(** What [hash_text] returns on a supported algorithm has the format of
    the algorithm. *)
Lemma hash_text_supported_format (rt : Runtime) (text A encoding d : pystr) :
  In (lower rt A) DEFAULT_ALGOS ->
  hash_text rt text A encoding = Ok d ->
  lowercase_hex d /\ length d = hex_length (lower rt A).
Proof.
  intros HA Hd.
  destruct (encode rt text encoding) as [data|e] eqn:E.
  - rewrite (hash_text_hash_bytes rt text A encoding data E) in Hd.
    destruct (hash_bytes_supported rt data A HA) as (d' & Hd' & Hfmt).
    rewrite Hd in Hd'. inversion Hd'; subst. exact Hfmt.
  - apply builtin_algo_supported in HA. destruct HA as [a Ha].
    rewrite (hash_text_supported rt text A encoding a Ha), E in Hd.
    discriminate Hd.
Qed.

(** X16.  Digests returned by [hash_text] on supported algorithms can
    always be compared: [compare_hashes] does not raise on them, it returns
    true exactly when the two digests are the same string, and false when
    the two algorithms have digests of different lengths. *)
Theorem digests_are_comparable (rt : Runtime)
        (t1 A1 e1 d1 t2 A2 e2 d2 : pystr) :
  In (lower rt A1) DEFAULT_ALGOS ->
  In (lower rt A2) DEFAULT_ALGOS ->
  hash_text rt t1 A1 e1 = Ok d1 ->
  hash_text rt t2 A2 e2 = Ok d2 ->
  exists b,
    compare_hashes d1 d2 = Ok b
    /\ (b = true <-> d1 = d2)
    /\ (hex_length (lower rt A1) <> hex_length (lower rt A2) -> b = false).
Proof.
  intros HA1 HA2 H1 H2.
  destruct (hash_text_supported_format rt t1 A1 e1 d1 HA1 H1) as [Hx1 Hl1].
  destruct (hash_text_supported_format rt t2 A2 e2 d2 HA2 H2) as [Hx2 Hl2].
  unfold compare_hashes, compare_digest.
  rewrite (lowercase_hex_ascii _ Hx1), (lowercase_hex_ascii _ Hx2).
  cbn [andb]. exists (tscmp d1 d2).
  split; [reflexivity|]. split; [apply tscmp_eq|].
  intros Hne. destruct (tscmp d1 d2) eqn:E; [|reflexivity].
  apply tscmp_eq in E. subst. congruence.
Qed.

(** The SHA-1 and the SHA-256 digest of one text. *)
Lemma digests_are_comparable_witness :
  exists d1 d2,
    hash_text small_runtime (str "hola mundo") (str "sha1") (str "utf-8")
    = Ok d1
    /\ hash_text small_runtime (str "hola mundo") (str "sha256") (str "utf-8")
       = Ok d2
    /\ compare_hashes d1 d2 = Ok false.
Proof.
  exists (str "459567d3bde4418b7fe302ff9809c4b0befaf7dd").
  exists (str "0b894166d3336435c800bea36ff21b29eaa801a52f584c006c49289a0dcf6e2f").
  assert (H1 : hash_text small_runtime (str "hola mundo") (str "sha1")
                         (str "utf-8")
               = Ok (str "459567d3bde4418b7fe302ff9809c4b0befaf7dd"))
    by (vm_compute; reflexivity).
  assert (H2 : hash_text small_runtime (str "hola mundo") (str "sha256")
                         (str "utf-8")
               = Ok (str "0b894166d3336435c800bea36ff21b29eaa801a52f584c006c49289a0dcf6e2f"))
    by (vm_compute; reflexivity).
  split; [exact H1|]. split; [exact H2|].
  assert (HA1 : In (lower small_runtime (str "sha1")) DEFAULT_ALGOS)
    by (right; left; reflexivity).
  assert (HA2 : In (lower small_runtime (str "sha256")) DEFAULT_ALGOS)
    by (left; reflexivity).
  destruct (digests_are_comparable small_runtime _ _ _ _ _ _ _ _
              HA1 HA2 H1 H2) as (b & Hb & _ & Hlen).
  rewrite Hb. f_equal. apply Hlen. discriminate.
Defined.

(* ================================================================== *)
(** ** app.py: the tab "Comparar"                                      *)
(* ================================================================== *)

Lemma lstrip_app_space (ws s : pystr) :
  forallb isspace ws = true -> lstrip (ws ++ s) = lstrip s.
Proof.
  induction ws as [|c ws IH]; [reflexivity|].
  cbn [forallb app lstrip]. rewrite andb_true_iff. intros [-> H]. auto.
Qed.

Lemma lstrip_space (ws : pystr) : forallb isspace ws = true -> lstrip ws = [].
Proof.
  intros H. rewrite <- (app_nil_r ws), lstrip_app_space by exact H.
  reflexivity.
Qed.

Lemma forallb_rev {A} (f : A -> bool) (l : list A) :
  forallb f (rev l) = forallb f l.
Proof.
  induction l as [|x l IH]; [reflexivity|].
  cbn [rev forallb]. rewrite forallb_app, IH. cbn [forallb].
  rewrite andb_true_r. apply andb_comm.
Qed.

Lemma rstrip_app_space (s ws : pystr) :
  forallb isspace ws = true -> rstrip (s ++ ws) = rstrip s.
Proof.
  intros H. unfold rstrip. rewrite rev_app_distr, lstrip_app_space;
    [reflexivity | rewrite forallb_rev; exact H].
Qed.

(** White space around a text does not count for [strip]. *)
Lemma strip_padding (l s r : pystr) :
  forallb isspace l = true -> forallb isspace r = true ->
  strip (l ++ s ++ r) = strip s.
Proof.
  intros Hl Hr. unfold strip. rewrite lstrip_app_space by exact Hl.
  induction s as [|c s IH].
  - cbn [app]. rewrite (lstrip_space r Hr). reflexivity.
  - cbn [app lstrip]. destruct (isspace c); [exact IH|].
    apply (rstrip_app_space (c :: s) r Hr).
Qed.

Lemma strip_space (ws : pystr) : forallb isspace ws = true -> strip ws = [].
Proof. intros H. unfold strip. rewrite (lstrip_space ws H). reflexivity. Qed.

Lemma tscmp_str_eqb (a b : pystr) : tscmp a b = str_eqb a b.
Proof.
  destruct (tscmp a b) eqn:E1, (str_eqb a b) eqn:E2; try reflexivity.
  - apply tscmp_eq in E1. apply str_eqb_eq in E1. congruence.
  - apply str_eqb_eq in E2. apply tscmp_eq in E2. congruence.
Qed.

(** X17.  The button "Comparar" does not see the white space around the
    two hashes: spaces, tabs, line ends and the other characters of
    [str.isspace] before and after either field change nothing, neither to
    the message shown nor to the error raised. *)
Theorem comparar_ignores_padding (h1 h2 l1 r1 l2 r2 : pystr) :
  forallb isspace l1 = true -> forallb isspace r1 = true ->
  forallb isspace l2 = true -> forallb isspace r2 = true ->
  comparar (l1 ++ h1 ++ r1) (l2 ++ h2 ++ r2) = comparar h1 h2.
Proof.
  intros Hl1 Hr1 Hl2 Hr2. unfold comparar.
  rewrite !strip_padding by assumption. reflexivity.
Qed.

(** A digest pasted with a line end, against the same digest typed after
    two spaces. *)
Lemma comparar_ignores_padding_witness :
  (forallb isspace [10%N] = true /\ forallb isspace (str "  ") = true)
  /\ comparar (str "a9993e36" ++ [10%N]) (str "  a9993e36")
     = comparar (str "a9993e36") (str "a9993e36").
Proof.
  split; [split; reflexivity|].
  apply (comparar_ignores_padding (str "a9993e36") (str "a9993e36")
           [] [10%N] (str "  ") []); reflexivity.
Defined.

(** X18.  What the button "Comparar" does: when both fields, stripped, are
    ASCII it reports a match exactly when they are the same string, so two
    fields left empty or blank are reported as matching hashes; when one of
    them, stripped, has a character outside ASCII the comparison raises
    [TypeError] and nothing is shown. *)
Theorem comparar_outcome (h1 h2 : pystr) :
  (is_ascii (strip h1) = true -> is_ascii (strip h2) = true ->
   comparar h1 h2
   = Ok (if str_eqb (strip h1) (strip h2)
         then st_success (str "Los hashes coinciden (compare_digest)")
         else st_error (str "Los hashes NO coinciden")))
  /\ (forallb isspace h1 = true -> forallb isspace h2 = true ->
      comparar h1 h2
      = Ok (st_success (str "Los hashes coinciden (compare_digest)")))
  /\ (is_ascii (strip h1) = false \/ is_ascii (strip h2) = false ->
      comparar h1 h2 = Raise TypeError).
Proof.
  unfold comparar, compare_hashes, compare_digest. split; [|split].
  - intros H1 H2. rewrite H1, H2. cbn [andb bind].
    rewrite tscmp_str_eqb. destruct (str_eqb (strip h1) (strip h2));
      reflexivity.
  - intros H1 H2. rewrite (strip_space h1 H1), (strip_space h2 H2).
    reflexivity.
  - intros [H|H]; rewrite H; [|rewrite andb_false_r]; reflexivity.
Qed.

(** Two blank fields, and a field with an accent. *)
Lemma comparar_outcome_witness :
  comparar (str " ") [] = Ok (st_success
                                (str "Los hashes coinciden (compare_digest)"))
  /\ comparar (str "a9993e36") (str "A9993E36")
     = Ok (st_error (str "Los hashes NO coinciden"))
  /\ comparar [233%N] (str "e") = Raise TypeError.
Proof.
  destruct (comparar_outcome (str " ") []) as (_ & Hblank & _).
  destruct (comparar_outcome (str "a9993e36") (str "A9993E36"))
    as (Hascii & _ & _).
  destruct (comparar_outcome [233%N] (str "e")) as (_ & _ & Hnon).
  split; [apply Hblank; reflexivity|].
  split; [rewrite (Hascii eq_refl eq_refl); reflexivity|].
  apply Hnon. left. reflexivity.
Defined.

(* ================================================================== *)
(** ** app.py: the tab "Salting/Pepper"                                *)
(* ================================================================== *)

(** With a salt that is not empty and an algorithm of the select box, the
    digest shown is that of the octets of the salt, of ["$"] and of the
    text. *)
Lemma hash_con_salt_digest (rt : Runtime) (txt_s salt_input algo_sp : pystr)
      (S T : bytes) :
  In (lower rt algo_sp) DEFAULT_ALGOS ->
  salt_input <> [] ->
  utf8_encode salt_input = Ok S ->
  utf8_encode txt_s = Ok T ->
  exists d,
    hash_con_salt rt txt_s salt_input algo_sp = Ok (st_code d)
    /\ hash_bytes rt (S ++ "$"%byte :: T) algo_sp = Ok d
    /\ lowercase_hex d
    /\ length d = hex_length (lower rt algo_sp).
Proof.
  intros HA Hne HS HT.
  destruct (hash_bytes_supported rt (S ++ "$"%byte :: T) algo_sp HA)
    as (d & Hd & Hfmt).
  exists d. split; [|split; [exact Hd | exact Hfmt]].
  unfold hash_con_salt. destruct salt_input as [|c s]; [congruence|].
  rewrite (hash_text_hash_bytes rt _ algo_sp _ (S ++ "$"%byte :: T)).
  - rewrite Hd. reflexivity.
  - apply (utf8_encode_apply_salt _ _ _ _ HS HT).
Qed.

Lemma hash_con_pepper_salt (rt : Runtime) (txt_s algo_sp p : pystr) :
  p <> [] ->
  hash_con_pepper rt txt_s (Some p) algo_sp = hash_con_salt rt txt_s p algo_sp.
Proof. intros Hp. destruct p as [|c p]; [congruence|]. reflexivity. Qed.

(** X19.  The button "Hash con salt" refuses an empty salt.  With a salt
    that is not empty and an algorithm of the select box it shows, for a
    salt and a text that can be encoded, the digest of the octets of the
    salt, of ["$"] and of the text, in the format of the algorithm; a salt
    or a text with a surrogate ends the run with [UnicodeEncodeError]. *)
Theorem hash_con_salt_outcome (rt : Runtime) (txt_s salt_input algo_sp : pystr) :
  hash_con_salt rt txt_s [] algo_sp
  = Ok (st_error (str "Provee un salt (o genera uno)."))
  /\ (In (lower rt algo_sp) DEFAULT_ALGOS ->
      salt_input <> [] ->
      (forall S T,
          utf8_encode salt_input = Ok S ->
          utf8_encode txt_s = Ok T ->
          exists d,
            hash_con_salt rt txt_s salt_input algo_sp = Ok (st_code d)
            /\ hash_bytes rt (S ++ "$"%byte :: T) algo_sp = Ok d
            /\ lowercase_hex d
            /\ length d = hex_length (lower rt algo_sp))
      /\ (forall e,
            utf8_encode (apply_salt txt_s salt_input) = Raise e ->
            hash_con_salt rt txt_s salt_input algo_sp = Raise e)).
Proof.
  split; [reflexivity|].
  intros HA Hne. split.
  - intros S T HS HT.
    apply (hash_con_salt_digest rt txt_s salt_input algo_sp S T HA Hne HS HT).
  - intros e He. unfold hash_con_salt.
    destruct salt_input as [|c s]; [congruence|].
    apply builtin_algo_supported in HA. destruct HA as [a Ha].
    rewrite (hash_text_supported rt _ algo_sp _ a Ha).
    change (encode rt (apply_salt txt_s (c :: s)) (str "utf-8"))
      with (utf8_encode (apply_salt txt_s (c :: s))).
    rewrite He. reflexivity.
Qed.

Lemma hash_con_salt_outcome_witness :
  (In (lower small_runtime (str "sha256")) DEFAULT_ALGOS
   /\ str "AAECAw==" <> [])
  /\ exists d,
       hash_con_salt small_runtime (str "secret-password") (str "AAECAw==")
                     (str "sha256") = Ok (st_code d)
       /\ length d = 64%nat.
Proof.
  assert (HA : In (lower small_runtime (str "sha256")) DEFAULT_ALGOS)
    by (left; reflexivity).
  assert (Hne : str "AAECAw==" <> []) by discriminate.
  split; [split; assumption|].
  destruct (proj1 (proj2 (hash_con_salt_outcome small_runtime
                            (str "secret-password") (str "AAECAw==")
                            (str "sha256")) HA Hne)
              (ascii_bytes "AAECAw==") (ascii_bytes "secret-password")
              eq_refl eq_refl) as (d & Hd & _ & _ & Hlen).
  exists d. split; [exact Hd | exact Hlen].
Defined.

(** X20.  The button "Hash con pepper" shows an error when no pepper is
    configured or the pepper is the empty string.  With a pepper that is a
    string it shows what "Hash con salt" shows with that string in the salt
    field, whatever the salt field holds: for an algorithm of the select
    box the digest of the octets of the pepper, of ["$"] and of the text.
    The secret enters the digest exactly as a public salt does. *)
Theorem hash_con_pepper_outcome (rt : Runtime) (txt_s algo_sp p : pystr) :
  hash_con_pepper rt txt_s None algo_sp
  = Ok (st_error (str "PEPPER no configurado."))
  /\ hash_con_pepper rt txt_s (Some []) algo_sp
     = Ok (st_error (str "PEPPER no configurado."))
  /\ (p <> [] ->
      hash_con_pepper rt txt_s (Some p) algo_sp
      = hash_con_salt rt txt_s p algo_sp
      /\ (In (lower rt algo_sp) DEFAULT_ALGOS ->
          forall P T,
            utf8_encode p = Ok P ->
            utf8_encode txt_s = Ok T ->
            exists d,
              hash_con_pepper rt txt_s (Some p) algo_sp = Ok (st_code d)
              /\ hash_bytes rt (P ++ "$"%byte :: T) algo_sp = Ok d
              /\ hash_text rt (apply_salt txt_s p) algo_sp (str "utf-8")
                 = Ok d)).
Proof.
  split; [reflexivity|]. split; [reflexivity|].
  intros Hp. split; [apply hash_con_pepper_salt; exact Hp|].
  intros HA P T HP HT. rewrite (hash_con_pepper_salt rt txt_s algo_sp p Hp).
  destruct (hash_con_salt_digest rt txt_s p algo_sp P T HA Hp HP HT)
    as (d & Hd & Hb & _).
  exists d. split; [exact Hd|]. split; [exact Hb|].
  rewrite (hash_text_hash_bytes rt _ algo_sp _ (P ++ "$"%byte :: T));
    [exact Hb | apply (utf8_encode_apply_salt _ _ _ _ HP HT)].
Qed.

Lemma hash_con_pepper_outcome_witness :
  str "p" <> []
  /\ hash_con_pepper small_runtime (str "x") (Some (str "p")) (str "sha1")
     = hash_con_salt small_runtime (str "x") (str "p") (str "sha1").
Proof.
  assert (Hp : str "p" <> []) by discriminate.
  split; [exact Hp|].
  apply (proj1 (proj2 (proj2 (hash_con_pepper_outcome small_runtime (str "x")
                                (str "sha1") (str "p"))) Hp)).
Defined.

(* ================================================================== *)
(** ** app.py: the tab "Hash Archivo"                                  *)
(* ================================================================== *)

(** On an in-memory binary stream, whatever the callback does and however
    long the loop is followed, the chunks fed are the first pieces of what
    is left of the buffer, and no piece is read twice. *)
Lemma read_loop_BytesIO_prefix {W : Type} (chunk_size : Z) (buf : bytes)
      (cb : option (callback W)) :
  1 <= chunk_size -> chunk_size <= PY_SSIZE_T_MAX ->
  forall fuel pos h total (w : W) reads fed calls,
    let p := read_loop fuel chunk_size cb
                       (mkFrame (mkBytesIO buf pos) h total w reads fed
                                calls) in
    exists k,
      (k <= length (blocks (Z.to_nat chunk_size) (skipn pos buf)))%nat
      /\ fr_fed (snd p)
         = fed ++ firstn k (blocks (Z.to_nat chunk_size) (skipn pos buf))
      /\ (length (fr_reads (snd p)) <= length reads + k + 1)%nat.
Proof.
  intros Hcs Hmax.
  assert (Hn : (1 <= Z.to_nat chunk_size)%nat) by lia.
  induction fuel as [|fuel IH]; intros pos h total w reads fed calls;
    cbv zeta.
  { exists 0%nat. cbn [read_loop snd fr_fed fr_reads firstn].
    rewrite app_nil_r. repeat split; lia. }
  cbn [read_loop read BytesIO_FileLike fr_file]. unfold BytesIO_read.
  rewrite (fits_ssize_t_pos chunk_size Hcs Hmax). cbn [bio_pos bio_buf].
  replace (chunk_size <? 0) with false by (symmetry; apply Z.ltb_ge; lia).
  remember (skipn pos buf) as rest eqn:Erest.
  destruct rest as [|x rest'].
  - exists 0%nat. rewrite firstn_nil.
    cbn [chunk_falsy snd fr_fed fr_reads firstn].
    rewrite app_nil_r, length_app. cbn [length]. repeat split; lia.
  - rewrite (blocks_cons _ x rest' Hn).
    remember (Nat.min (Z.to_nat chunk_size) (length (x :: rest'))) as n
      eqn:En.
    assert (Hfirst : firstn n (x :: rest')
                     = firstn (Z.to_nat chunk_size) (x :: rest')).
    { subst n. destruct (Nat.le_gt_cases (Z.to_nat chunk_size)
                                         (length (x :: rest'))) as [H|H].
      - rewrite Nat.min_l by lia. reflexivity.
      - rewrite Nat.min_r by lia.
        rewrite firstn_all, firstn_all2 by lia. reflexivity. }
    assert (Hskip : skipn (pos + n) buf
                    = skipn (Z.to_nat chunk_size) (x :: rest')).
    { rewrite Nat.add_comm, <- skipn_skipn, <- Erest. subst n.
      destruct (Nat.le_gt_cases (Z.to_nat chunk_size)
                                (length (x :: rest'))) as [H|H].
      - rewrite Nat.min_l by lia. reflexivity.
      - rewrite Nat.min_r by lia.
        rewrite skipn_all, skipn_all2 by lia. reflexivity. }
    rewrite Hfirst.
    assert (Hne : exists y ys,
               firstn (Z.to_nat chunk_size) (x :: rest') = y :: ys).
    { destruct (Z.to_nat chunk_size); [lia|]. simpl. eauto. }
    destruct Hne as (y & ys & Hys). rewrite Hys. cbn [chunk_falsy].
    rewrite <- Hys.
    cbn [fr_h fr_total fr_world fr_reads fr_fed fr_calls].
    set (d := firstn (Z.to_nat chunk_size) (x :: rest')).
    assert (Hstep : forall w' calls',
               exists k,
                 (k <= length (d :: blocks (Z.to_nat chunk_size)
                                           (skipn (Z.to_nat chunk_size)
                                                  (x :: rest'))))%nat
                 /\ fr_fed (snd (read_loop fuel chunk_size cb
                                   (mkFrame (mkBytesIO buf (pos + n))
                                            (update h d) (total + len d) w'
                                            (reads ++ [Bytes d])
                                            (fed ++ [d]) calls')))
                    = fed ++ firstn k (d :: blocks (Z.to_nat chunk_size)
                                            (skipn (Z.to_nat chunk_size)
                                                   (x :: rest')))
                 /\ (length (fr_reads
                               (snd (read_loop fuel chunk_size cb
                                       (mkFrame (mkBytesIO buf (pos + n))
                                                (update h d) (total + len d)
                                                w' (reads ++ [Bytes d])
                                                (fed ++ [d]) calls'))))
                     <= length reads + k + 1)%nat).
    { intros w' calls'.
      destruct (IH (pos + n)%nat (update h d) (total + len d) w'
                   (reads ++ [Bytes d]) (fed ++ [d]) calls')
        as (k & Hk & Hfed & Hreads).
      rewrite Hskip in Hk, Hfed. exists (S k).
      cbn [length firstn]. rewrite Hfed, <- app_assoc.
      rewrite length_app in Hreads. cbn [length app] in *.
      repeat split; [lia | lia]. }
    destruct cb as [c|]; [|apply Hstep].
    destruct (c (total + len d) w) as [out w'].
    destruct out as [u|e]; [apply Hstep|].
    destruct (is_Exception e); [apply Hstep|].
    exists 1%nat. cbn [snd fr_fed fr_reads firstn length].
    rewrite length_app. cbn [length]. repeat split; lia.
Qed.

Lemma running_totals_bounded (fed : list bytes) (total : Z) :
  Forall (fun t => t <= total + len (concat fed)) (running_totals total fed).
Proof.
  revert total. induction fed as [|d fed IH]; intros total; [constructor|].
  cbn [running_totals concat]. rewrite len_app.
  assert (H0 : 0 <= len (concat fed)) by (unfold len; lia).
  constructor; [lia|].
  eapply Forall_impl; [|apply IH]. cbv beta. intros t Ht. lia.
Qed.

Lemma Forall_firstn_of {A} (P : A -> Prop) (k : nat) (l : list A) :
  Forall P l -> Forall P (firstn k l).
Proof.
  intros H. rewrite <- (firstn_skipn k l) in H.
  apply Forall_app in H. exact (proj1 H).
Qed.

Lemma len_concat_firstn {A} (k : nat) (l : list (list A)) :
  len (concat (firstn k l)) <= len (concat l).
Proof.
  rewrite <- (firstn_skipn k l) at 2. rewrite concat_app, len_app.
  unfold len. lia.
Qed.

(** X21.  What the size gate of the tab "Hash Archivo" buys.  For an upload
    of [size <= MAX_FILE_BYTES] octets, whose content as read is [S], the
    call [hash_file_chunked(buffer, algo, 8192, progress_cb)] reads the
    buffer at most 1281 times and calls the progress callback at most 1280
    times, whatever the callback does; every chunk hashed holds between 1
    and 8192 octets; every total the callback receives lies between 1 and
    [size], so that its division of the total by the size never divides by
    zero and never exceeds one.  With an algorithm of the select box and a
    callback that raises errors only, the loop ends within 1281 iterations
    with the digest of [S]. *)
Theorem upload_is_hashed_in_bounded_steps {W : Type} (rt : Runtime)
        (A : pystr) (S : bytes) (size : Z) (fuel : nat)
        (cb : option (callback W)) (w : W) :
  len S <= size ->
  size <= MAX_FILE_BYTES ->
  let r := hash_file_chunked rt fuel (stream_of S) A UPLOAD_CHUNK cb w in
  (length (r_reads r) <= 1281)%nat
  /\ (length (r_calls r) <= 1280)%nat
  /\ Forall (fun d => 1 <= len d <= UPLOAD_CHUNK) (r_fed r)
  /\ Forall (fun t => 1 <= t <= size) (r_calls r)
  /\ (In (lower rt A) DEFAULT_ALGOS ->
      (1281 <= fuel)%nat ->
      (forall c, cb = Some c -> raises_only_errors c) ->
      r_out r = Some (hash_bytes rt S A)).
Proof.
  intros HS Hsize. cbv zeta.
  assert (Hcs : 1 <= UPLOAD_CHUNK) by (unfold UPLOAD_CHUNK; lia).
  assert (Hn : (1 <= Z.to_nat UPLOAD_CHUNK)%nat) by (unfold UPLOAD_CHUNK; lia).
  assert (Hmax : UPLOAD_CHUNK <= PY_SSIZE_T_MAX)
    by (unfold UPLOAD_CHUNK, PY_SSIZE_T_MAX; lia).
  assert (Hblocks : (len S + UPLOAD_CHUNK - 1) / UPLOAD_CHUNK <= 1280).
  { unfold MAX_FILE_BYTES, MAX_FILE_MB in Hsize. unfold UPLOAD_CHUNK.
    apply Z.lt_succ_r. apply Z.div_lt_upper_bound; lia. }
  assert (Hmain :
            (length (r_reads (hash_file_chunked rt fuel (stream_of S) A
                                                UPLOAD_CHUNK cb w))
             <= 1281)%nat
            /\ (length (r_fed (hash_file_chunked rt fuel (stream_of S) A
                                                 UPLOAD_CHUNK cb w))
                <= 1280)%nat
            /\ Forall (fun d => 1 <= len d <= UPLOAD_CHUNK)
                      (r_fed (hash_file_chunked rt fuel (stream_of S) A
                                                UPLOAD_CHUNK cb w))
            /\ len (concat (r_fed (hash_file_chunked rt fuel (stream_of S) A
                                                     UPLOAD_CHUNK cb w)))
               <= len S).
  { destruct (ctor <- _get_hasher rt A ;; ctor tt) as [h|e] eqn:Hres.
    - rewrite (hash_file_chunked_resolved _ _ _ _ _ _ _ h Hres). cbv zeta.
      cbn [r_reads r_fed]. unfold stream_of.
      destruct (read_loop_BytesIO_prefix UPLOAD_CHUNK S cb Hcs Hmax fuel 0%nat
                  h 0 w [] [] []) as (k & Hk & Hfed & Hreads).
      cbn [skipn app length] in Hk, Hfed, Hreads.
      pose proof (len_blocks UPLOAD_CHUNK S Hcs) as Hlen.
      unfold len in Hlen, Hblocks |- *.
      rewrite Hfed. repeat split.
      + lia.
      + rewrite length_firstn. lia.
      + apply Forall_firstn_of.
        eapply Forall_impl; [|apply (blocks_bounded _ S Hn)].
        cbv beta. intros d Hd. unfold len. lia.
      + etransitivity; [apply len_concat_firstn|].
        rewrite concat_blocks by exact Hn. unfold len. lia.
    - rewrite (hash_file_chunked_unresolved _ _ _ _ _ _ _ e Hres).
      cbn [r_reads r_fed length concat]. repeat split; try lia.
      + constructor.
      + unfold len. cbn [length]. lia. }
  destruct Hmain as (Hreads & Hfedlen & Hfed & Htot).
  destruct (hash_file_chunked_inv rt fuel (stream_of S) A UPLOAD_CHUNK cb w)
    as (_ & Hne & Hcalls).
  repeat split.
  - exact Hreads.
  - rewrite Hcalls. destruct (has_callback cb); [|cbn; lia].
    rewrite running_totals_length. exact Hfedlen.
  - exact Hfed.
  - rewrite Hcalls. destruct (has_callback cb); [|constructor].
    destruct (running_totals_increasing _ 0 Hne) as [_ Hpos].
    pose proof (running_totals_bounded
                  (r_fed (hash_file_chunked rt fuel (stream_of S) A
                                            UPLOAD_CHUNK cb w)) 0) as Hup.
    rewrite Forall_forall in *. intros t Ht.
    specialize (Hpos t Ht). specialize (Hup t Ht). cbv beta in *. lia.
  - intros HA Hfuel Hcb.
    destruct (hash_file_chunked_stream_run rt A S UPLOAD_CHUNK fuel cb w
                HA Hcs Hmax) as (Hout & _); [lia | exact Hcb | exact Hout].
Qed.

(** A file of three octets, below the limit. *)
Lemma upload_is_hashed_in_bounded_steps_witness :
  (len (ascii_bytes "abc") <= 3 /\ 3 <= MAX_FILE_BYTES
   /\ In (lower small_runtime (str "sha256")) DEFAULT_ALGOS)
  /\ r_out (hash_file_chunked small_runtime 1281
              (stream_of (ascii_bytes "abc")) (str "sha256") UPLOAD_CHUNK
              (Some failing_callback) O)
     = Some (hash_bytes small_runtime (ascii_bytes "abc") (str "sha256")).
Proof.
  assert (HS : len (ascii_bytes "abc") <= 3) by (vm_compute; discriminate).
  assert (Hsize : 3 <= MAX_FILE_BYTES) by (vm_compute; discriminate).
  assert (HA : In (lower small_runtime (str "sha256")) DEFAULT_ALGOS)
    by (left; reflexivity).
  split; [repeat split; assumption|].
  destruct (upload_is_hashed_in_bounded_steps small_runtime (str "sha256")
              (ascii_bytes "abc") 3 1281 (Some failing_callback) O
              HS Hsize) as (_ & _ & _ & _ & Hout).
  apply (Hout HA (le_n 1281)).
  intros c Hc. inversion Hc; subst.
  exact failing_callback_raises_only_errors.
Defined.

(* ================================================================== *)
(** ** hash_file_chunked on a text stream                              *)
(* ================================================================== *)

(** X22.  On a text stream the chunks are encoded one by one as UTF-8
    before they are hashed, and this gives what encoding the whole text
    gives: for a supported algorithm and a chunk size from one character to
    [sys.maxsize], [hash_file_chunked(io.StringIO(text), A, chunk_size)]
    ends as [hash_text(text, A, 'utf-8')] does, with the same digest, or
    with [UnicodeEncodeError] when the text holds a surrogate.  Within that
    range the chunk size makes no difference. *)
Theorem text_stream_hashes_as_utf8 (rt : Runtime) (A text : pystr)
        (chunk_size chunk_size' : Z) (fuel fuel' : nat) :
  In (lower rt A) DEFAULT_ALGOS ->
  1 <= chunk_size <= PY_SSIZE_T_MAX ->
  (length text < fuel)%nat ->
  r_out (hash_file_chunked rt fuel (text_stream_of text) A chunk_size
                           (@None (callback unit)) tt)
  = Some (hash_text rt text A (str "utf-8"))
  /\ (forall S, utf8_encode text = Ok S ->
        r_out (hash_file_chunked rt fuel (text_stream_of text) A chunk_size
                                 (@None (callback unit)) tt)
        = Some (hash_bytes rt S A))
  /\ (forall e, utf8_encode text = Raise e ->
        r_out (hash_file_chunked rt fuel (text_stream_of text) A chunk_size
                                 (@None (callback unit)) tt)
        = Some (Raise e))
  /\ (1 <= chunk_size' <= PY_SSIZE_T_MAX -> (length text < fuel')%nat ->
      r_out (hash_file_chunked rt fuel' (text_stream_of text) A chunk_size'
                               (@None (callback unit)) tt)
      = r_out (hash_file_chunked rt fuel (text_stream_of text) A chunk_size
                                 (@None (callback unit)) tt)).
Proof.
  intros HA [Hcs Hmax] Hfuel.
  pose proof (hash_file_chunked_text_stream rt A text chunk_size fuel
                HA Hcs Hmax Hfuel) as Hrun.
  split; [exact Hrun|]. split; [|split].
  - intros S HS. rewrite Hrun. f_equal.
    apply hash_text_hash_bytes. exact HS.
  - intros e He. rewrite Hrun. f_equal.
    apply builtin_algo_supported in HA. destruct HA as [a Ha].
    rewrite (hash_text_supported rt text A _ a Ha).
    change (encode rt text (str "utf-8")) with (utf8_encode text).
    rewrite He. reflexivity.
  - intros [Hcs' Hmax'] Hfuel'. rewrite Hrun.
    apply hash_file_chunked_text_stream; assumption.
Qed.

(** A text with an accent, two characters at a time, and a lone
    surrogate. *)
Lemma text_stream_hashes_as_utf8_witness :
  (In (lower small_runtime (str "sha256")) DEFAULT_ALGOS
   /\ (length [109; 97; 241; 97; 110; 97]%N < 7)%nat)
  /\ r_out (hash_file_chunked small_runtime 7
              (text_stream_of [109; 97; 241; 97; 110; 97]%N) (str "sha256") 2
              (@None (callback unit)) tt)
     = Some (hash_text small_runtime [109; 97; 241; 97; 110; 97]%N
                       (str "sha256") (str "utf-8"))
  /\ r_out (hash_file_chunked small_runtime 7
              (text_stream_of [97; 55296]%N) (str "sha256") 2
              (@None (callback unit)) tt)
     = Some (Raise UnicodeEncodeError).
Proof.
  assert (HA : In (lower small_runtime (str "sha256")) DEFAULT_ALGOS)
    by (left; reflexivity).
  assert (Hf : (length [109; 97; 241; 97; 110; 97]%N < 7)%nat)
    by (cbn [length]; lia).
  assert (Hf' : (length [97; 55296]%N < 7)%nat) by (cbn [length]; lia).
  split; [split; assumption|].
  destruct (text_stream_hashes_as_utf8 small_runtime (str "sha256")
              [109; 97; 241; 97; 110; 97]%N 2 2 7 7 HA
              ltac:(unfold PY_SSIZE_T_MAX; lia) Hf)
    as (H1 & _).
  destruct (text_stream_hashes_as_utf8 small_runtime (str "sha256")
              [97; 55296]%N 2 2 7 7 HA ltac:(unfold PY_SSIZE_T_MAX; lia) Hf')
    as (_ & _ & H2 & _).
  split; [exact H1|]. apply H2. reflexivity.
Defined.

(* ================================================================== *)
(** ** hmac_text, on every input                                       *)
(* ================================================================== *)

(** X23.  [hmac_text] returns no MAC on any input: it always ends with an
    exception.  For an algorithm of [DEFAULT_ALGOS], in any case of the
    letters, and a key and a text that the encoding accepts, the exception
    is the [AttributeError] that [hmac.new] raises on the hash object it is
    given as [digestmod]; so the button "Calcular HMAC" of the app fails
    for every configured key. *)
Theorem hmac_text_returns_no_mac (rt : Runtime)
        (text key A encoding : pystr) :
  (forall mac, hmac_text rt text key A encoding <> Ok mac)
  /\ (In (lower rt A) DEFAULT_ALGOS ->
      forall k m,
        encode rt key encoding = Ok k ->
        encode rt text encoding = Ok m ->
        hmac_text rt text key A encoding = Raise AttributeError).
Proof.
  split.
  - intros mac. rewrite hmac_text_steps.
    destruct (encode rt key encoding); cbn [bind]; [|discriminate].
    destruct (encode rt text encoding); cbn [bind]; [|discriminate].
    destruct (hashlib_new rt (lower rt A) []); cbn [bind]; discriminate.
  - intros HA k m Hk Hm. rewrite hmac_text_steps, Hk, Hm. cbn [bind].
    apply builtin_algo_supported in HA. destruct HA as [a Ha].
    unfold hashlib_new. rewrite Ha. reflexivity.
Qed.

Lemma hmac_text_returns_no_mac_witness :
  In (lower small_runtime (str "SHA512")) DEFAULT_ALGOS
  /\ hmac_text small_runtime (str "mensaje") (str "clave") (str "SHA512")
               (str "utf-8") = Raise AttributeError.
Proof.
  assert (HA : In (lower small_runtime (str "SHA512")) DEFAULT_ALGOS)
    by (right; right; left; reflexivity).
  split; [exact HA|].
  apply (proj2 (hmac_text_returns_no_mac small_runtime (str "mensaje")
                  (str "clave") (str "SHA512") (str "utf-8"))
           HA (ascii_bytes "clave") (ascii_bytes "mensaje"));
    reflexivity.
Defined.
